(** * Template image finder: normalized cross-correlation matcher

    A shallow embedding of [DefaultTemplateImageFinder], the template
    matcher that is registered as the nut-js image finder, together with
    the properties its design document states about it.

    - JavaScript numbers are IEEE-754 binary64 values.  They are modelled by
      Rocq's primitive floats, whose operations are the same correctly
      rounded binary64 operations, so the model computes the very numbers
      the code computes.
    - Pixel buffers ([Uint8Array]) are lists of bytes; image dimensions and
      loop indices are natural numbers.
    - A thrown exception is an explicit outcome [Throw], and [try]/[catch]
      a function on outcomes.
    - The image codec (the [sharp] library) is external: the functions that
      call it take it as a parameter.
    - Bounds on rounding errors are derived from the specification of the
      binary64 operations ([SpecFloat]), with the exact values as real
      numbers. *)

From Stdlib Require Import Reals Lra Psatz.
From Stdlib Require Import String.
From Stdlib.Strings Require Import Byte.
From Stdlib Require Import ZArith List Bool Lia PeanoNat Sorted.
From Stdlib Require Import Floats Uint63.
Import ListNotations.
Local Open Scope list_scope.

Set Warnings "-inexact-float".

(** ** Exceptions *)

(** A thrown JavaScript [Error]; only its message is observable here. *)
Inductive JsError : Type :=
| Error (message : string).

(** The outcome of running a function body: a returned value or a thrown
    error. *)
Inductive Exc (A : Type) : Type :=
| Return (a : A)
| Throw (e : JsError).

Arguments Return {A} a.
Arguments Throw {A} e.

Definition bind {A B : Type} (c : Exc A) (k : A -> Exc B) : Exc B :=
  match c with
  | Return a => k a
  | Throw e => Throw e
  end.

(** [try { body } catch (error) { handler error }] *)
Definition try_catch {A : Type} (body : Exc A) (handler : JsError -> Exc A) : Exc A :=
  match body with
  | Return a => Return a
  | Throw e => handler e
  end.

Declare Scope exc_scope.
Delimit Scope exc_scope with exc.
Notation "x <- c ;; k" := (bind c (fun x => k))
  (at level 61, c at next level, right associativity) : exc_scope.

(** ** Data model *)

Module Region.
Record t : Type := new { left : nat; top : nat; width : nat; height : nat }.

Definition area (r : t) : nat := width r * height r.
End Region.

Module Image.
(** The fields of the nut-js [Image] that the matcher reads. *)
Record t : Type := new {
  width : nat;
  height : nat;
  channels : nat;
  data : list byte
}.
End Image.

Module MatchResult.
Record t : Type := new {
  confidence : float;
  location : Region.t;
  error : option JsError
}.
End MatchResult.

Module MatchRequest.
Record t : Type := new {
  haystack : Image.t;
  needle : Image.t;
  confidence : option float
}.
End MatchRequest.

(** ** Numbers and typed arrays *)

Definition of_nat (n : nat) : float :=
  PrimFloat.of_uint63 (Uint63.of_Z (Z.of_nat n)).

(** The number stored in one cell of a [Uint8Array]. *)
Definition of_byte (b : byte) : float :=
  PrimFloat.of_uint63 (Uint63.of_Z (Z.of_N (Byte.to_N b))).

(** [buffer[i]] used as an operand of arithmetic: an index past the end
    reads [undefined], which converts to [NaN]. *)
Definition get_num (buffer : list byte) (i : nat) : float :=
  match nth_error buffer i with
  | Some b => of_byte b
  | None => nan
  end.

(** [buffer[i] !== value]: [undefined] is never strictly equal to a
    number. *)
Definition strict_ne (buffer : list byte) (i : nat) (value : float) : bool :=
  match nth_error buffer i with
  | Some b => negb (PrimFloat.eqb (of_byte b) value)
  | None => true
  end.

(** [buffer.subarray(begin, end)] for non-negative bounds; both bounds are
    clamped to the length of the buffer. *)
Definition subarray (buffer : list byte) (begin_ end_ : nat) : list byte :=
  firstn (end_ - begin_) (skipn begin_ buffer).

(** [target.set(source, offset)], for a source that fits in the target. *)
Definition set (target source : list byte) (offset : nat) : list byte :=
  firstn offset target ++ source ++ skipn (offset + length source) target.

(** [0, 1, ..., hi] for a loop [for (let v = 0; v <= hi; v++)]; empty when
    [hi] is negative. *)
Definition upto (hi : Z) : list nat := seq 0 (Z.to_nat (hi + 1)).

(** [array.reduce(f)] without an initial value. *)
Definition reduce {A : Type} (f : A -> A -> A) (array : list A) : Exc A :=
  match array with
  | [] => Throw (Error "Reduce of empty array with no initial value")
  | first :: rest => Return (fold_left f rest first)
  end.

(** ** DefaultTemplateImageFinder *)

Module DefaultTemplateImageFinder.

Definition DEFAULT_CONFIDENCE : float := 0.8%float.

Definition calculateMean (buffer : list byte) : float :=
  let sum := fold_left (fun sum b => (sum + of_byte b)%float) buffer 0%float in
  (sum / of_nat (length buffer))%float.

(** [Math.pow(d, 2)] is [d * d] (the engine's [pow] returns [x * x] when
    the exponent is 2). *)
Definition pow2 (d : float) : float := (d * d)%float.

Definition calculateStdDev (buffer : list byte) (mean : float) : float :=
  let sumSq :=
    fold_left (fun sumSq b => (sumSq + pow2 (of_byte b - mean))%float)
              buffer 0%float in
  PrimFloat.sqrt (sumSq / of_nat (length buffer))%float.

Definition extractRegion (buffer : list byte) (width x y regionWidth regionHeight : nat)
  : list byte :=
  fold_left
    (fun regionBuffer j =>
       let sourceStart := (y + j) * width + x in
       let targetStart := j * regionWidth in
       set regionBuffer
           (subarray buffer sourceStart (sourceStart + regionWidth))
           targetStart)
    (seq 0 regionHeight)
    (repeat x00 (regionWidth * regionHeight)).

Definition calculateNCC (regionBuffer needleBuffer : list byte)
           (needleMean needleStdDev : float) : float :=
  let regionMean := calculateMean regionBuffer in
  let regionStdDev := calculateStdDev regionBuffer regionMean in
  if PrimFloat.eqb regionStdDev 0%float then
    (if PrimFloat.eqb needleStdDev 0%float then 1.0%float else 0.0%float)
  else
    let covariance :=
      fold_left
        (fun covariance i =>
           (covariance +
            (get_num regionBuffer i - regionMean) *
            (get_num needleBuffer i - needleMean))%float)
        (seq 0 (length regionBuffer)) 0%float in
    let covariance := (covariance / of_nat (length regionBuffer))%float in
    let ncc := (covariance / (regionStdDev * needleStdDev))%float in
    ((ncc + 1) / 2)%float.

(** The pixel test of the uniform branch for one candidate offset; the
    loops stop as soon as [allMatch] is cleared, so later iterations leave
    it unchanged. *)
Definition allMatchAt (haystackBuffer : list byte) (haystackWidth : nat)
           (needleWidth needleHeight : nat) (needleValue : float) (x y : nat) : bool :=
  fold_left
    (fun (allMatch : bool) (j : nat) =>
       fold_left
         (fun (allMatch : bool) (i : nat) =>
            if allMatch then
              let haystackIndex := (y + j) * haystackWidth + (x + i) in
              if strict_ne haystackBuffer haystackIndex needleValue
              then false else allMatch
            else allMatch)
         (seq 0 needleWidth) allMatch)
    (seq 0 needleHeight) true.

Definition findUniformMatches (haystackBuffer : list byte)
           (haystackWidth haystackHeight : nat) (needleBuffer : list byte)
           (needleWidth needleHeight : nat) (needleValue minConfidence : float)
  : list MatchResult.t :=
  let maxX := (Z.of_nat haystackWidth - Z.of_nat needleWidth)%Z in
  let maxY := (Z.of_nat haystackHeight - Z.of_nat needleHeight)%Z in
  fold_left
    (fun matches y =>
       fold_left
         (fun matches x =>
            if allMatchAt haystackBuffer haystackWidth needleWidth needleHeight
                          needleValue x y
            then matches ++
                 [MatchResult.new 1.0%float
                    (Region.new x y needleWidth needleHeight) None]
            else matches)
         (upto maxX) matches)
    (upto maxY) [].

Definition templateMatch (haystackBuffer : list byte)
           (haystackWidth haystackHeight : nat) (needleBuffer : list byte)
           (needleWidth needleHeight : nat) (minConfidence : float)
  : list MatchResult.t :=
  let maxX := (Z.of_nat haystackWidth - Z.of_nat needleWidth)%Z in
  let maxY := (Z.of_nat haystackHeight - Z.of_nat needleHeight)%Z in
  let needleMean := calculateMean needleBuffer in
  let needleStdDev := calculateStdDev needleBuffer needleMean in
  if PrimFloat.eqb needleStdDev 0%float then
    findUniformMatches haystackBuffer haystackWidth haystackHeight
                       needleBuffer needleWidth needleHeight
                       needleMean minConfidence
  else
    fold_left
      (fun matches y =>
         fold_left
           (fun matches x =>
              let regionBuffer :=
                extractRegion haystackBuffer haystackWidth x y
                              needleWidth needleHeight in
              let confidence :=
                calculateNCC regionBuffer needleBuffer needleMean needleStdDev in
              if PrimFloat.leb minConfidence confidence
              then matches ++
                   [MatchResult.new confidence
                      (Region.new x y needleWidth needleHeight) None]
              else matches)
           (upto maxX) matches)
      (upto maxY) [].

Section WithCodec.

(** The image codec, an external library: the single-channel raw buffer
    of [sharp(image.data, {raw}).grayscale().raw().toBuffer()], or the
    message of the error it throws. *)
Variable sharp_grayscale_raw : Image.t -> string + list byte.

Definition imageToRawBuffer (image : Image.t) : Exc (list byte) :=
  match sharp_grayscale_raw image with
  | inr rawBuffer => Return rawBuffer
  | inl message =>
      Throw (Error (String.append "Failed to convert image to raw buffer: " message))
  end.

Definition findMatches (matchRequest : MatchRequest.t) : Exc (list MatchResult.t) :=
  try_catch
    (let haystack := MatchRequest.haystack matchRequest in
     let needle := MatchRequest.needle matchRequest in
     let minConfidence :=
       match MatchRequest.confidence matchRequest with
       | Some confidence => confidence
       | None => DEFAULT_CONFIDENCE
       end in
     if (Image.width haystack <? Image.width needle)
        || (Image.height haystack <? Image.height needle)
     then Throw (Error "Needle image is larger than haystack image")
     else
       (haystackBuffer <- imageToRawBuffer haystack ;;
        needleBuffer <- imageToRawBuffer needle ;;
        Return (templateMatch haystackBuffer
                              (Image.width haystack) (Image.height haystack)
                              needleBuffer
                              (Image.width needle) (Image.height needle)
                              minConfidence))%exc)
    (fun error => Throw error).

(** The callback of [matches.reduce] in [findMatch]. *)
Definition better (best current : MatchResult.t) : MatchResult.t :=
  if PrimFloat.ltb (MatchResult.confidence best) (MatchResult.confidence current)
  then current else best.

Definition findMatch (matchRequest : MatchRequest.t) : Exc MatchResult.t :=
  try_catch
    (matches <- findMatches matchRequest ;;
     if length matches =? 0
     then Return (MatchResult.new 0%float (Region.new 0 0 0 0)
                                  (Some (Error "No matches found")))
     else reduce better matches)%exc
    (fun error =>
       Return (MatchResult.new 0%float (Region.new 0 0 0 0) (Some error))).

End WithCodec.

End DefaultTemplateImageFinder.

Import DefaultTemplateImageFinder.

(** ** The scan with a log of its statistics calls *)

(** A computation that also records, in call order, the buffers handed to
    [calculateMean] and [calculateStdDev]. *)
Definition Logged (A : Type) : Type := (A * list (list byte))%type.

Definition ret_log {A : Type} (a : A) : Logged A := (a, []).

Definition bind_log {A B : Type} (c : Logged A) (k : A -> Logged B) : Logged B :=
  let (b, log) := k (fst c) in (b, snd c ++ log).

Declare Scope log_scope.
Delimit Scope log_scope with log.
Notation "x <- c ;; k" := (bind_log c (fun x => k))
  (at level 61, c at next level, right associativity) : log_scope.

(** [calculateMean], [calculateStdDev], [calculateNCC] and [templateMatch]
    with every call of the two statistics functions recorded; the code is
    that of the functions above. *)
Definition calculateMeanLogged (buffer : list byte) : Logged float :=
  (calculateMean buffer, [buffer]).

Definition calculateStdDevLogged (buffer : list byte) (mean : float) : Logged float :=
  (calculateStdDev buffer mean, [buffer]).

Definition calculateNCCLogged (regionBuffer needleBuffer : list byte)
           (needleMean needleStdDev : float) : Logged float :=
  (regionMean <- calculateMeanLogged regionBuffer ;;
   regionStdDev <- calculateStdDevLogged regionBuffer regionMean ;;
   ret_log
     (if PrimFloat.eqb regionStdDev 0%float then
        (if PrimFloat.eqb needleStdDev 0%float then 1.0%float else 0.0%float)
      else
        let covariance :=
          fold_left
            (fun covariance i =>
               (covariance +
                (get_num regionBuffer i - regionMean) *
                (get_num needleBuffer i - needleMean))%float)
            (seq 0 (List.length regionBuffer)) 0%float in
        let covariance := (covariance / of_nat (List.length regionBuffer))%float in
        let ncc := (covariance / (regionStdDev * needleStdDev))%float in
        ((ncc + 1) / 2)%float))%log.

Definition templateMatchLogged (haystackBuffer : list byte)
           (haystackWidth haystackHeight : nat) (needleBuffer : list byte)
           (needleWidth needleHeight : nat) (minConfidence : float)
  : Logged (list MatchResult.t) :=
  let maxX := (Z.of_nat haystackWidth - Z.of_nat needleWidth)%Z in
  let maxY := (Z.of_nat haystackHeight - Z.of_nat needleHeight)%Z in
  (needleMean <- calculateMeanLogged needleBuffer ;;
   needleStdDev <- calculateStdDevLogged needleBuffer needleMean ;;
   if PrimFloat.eqb needleStdDev 0%float then
     ret_log (findUniformMatches haystackBuffer haystackWidth haystackHeight
                                 needleBuffer needleWidth needleHeight
                                 needleMean minConfidence)
   else
     fold_left
       (fun state y =>
          fold_left
            (fun state x =>
               matches <- state ;;
               let regionBuffer :=
                 extractRegion haystackBuffer haystackWidth x y
                               needleWidth needleHeight in
               confidence <- calculateNCCLogged regionBuffer needleBuffer
                                                needleMean needleStdDev ;;
               ret_log (if PrimFloat.leb minConfidence confidence
                        then matches ++
                             [MatchResult.new confidence
                                (Region.new x y needleWidth needleHeight) None]
                        else matches))
            (upto maxX) state)
       (upto maxY) (ret_log []))%log.

(** [findMatches] with the statistics calls of its scan recorded: the
    dimension validation and the two conversions call neither statistics
    function, and a request they reject never reaches the scan. *)
Definition findMatchesLogged (sharp_grayscale_raw : Image.t -> string + list byte)
           (matchRequest : MatchRequest.t) : Logged (Exc (list MatchResult.t)) :=
  let haystack := MatchRequest.haystack matchRequest in
  let needle := MatchRequest.needle matchRequest in
  let minConfidence :=
    match MatchRequest.confidence matchRequest with
    | Some confidence => confidence
    | None => DEFAULT_CONFIDENCE
    end in
  if (Image.width haystack <? Image.width needle)
     || (Image.height haystack <? Image.height needle)
  then ret_log (Throw (Error "Needle image is larger than haystack image"))
  else
    match imageToRawBuffer sharp_grayscale_raw haystack with
    | Throw error => ret_log (Throw error)
    | Return haystackBuffer =>
        match imageToRawBuffer sharp_grayscale_raw needle with
        | Throw error => ret_log (Throw error)
        | Return needleBuffer =>
            (matches <- templateMatchLogged haystackBuffer
                          (Image.width haystack) (Image.height haystack)
                          needleBuffer
                          (Image.width needle) (Image.height needle)
                          minConfidence ;;
             ret_log (Return matches))%log
        end
    end.

(** ** Specification vocabulary *)

(** [confidence ?? DEFAULT_CONFIDENCE] *)
Definition threshold (matchRequest : MatchRequest.t) : float :=
  match MatchRequest.confidence matchRequest with
  | Some confidence => confidence
  | None => DEFAULT_CONFIDENCE
  end.

(** The dimension test at the start of [findMatches]. *)
Definition needleTooLarge (matchRequest : MatchRequest.t) : bool :=
  (Image.width (MatchRequest.haystack matchRequest)
   <? Image.width (MatchRequest.needle matchRequest))
  || (Image.height (MatchRequest.haystack matchRequest)
      <? Image.height (MatchRequest.needle matchRequest)).

(** The result [findMatch] returns for a failure [error]. *)
Definition failure (error : JsError) : MatchResult.t :=
  MatchResult.new 0%float (Region.new 0 0 0 0) (Some error).

(** The candidate offsets [(x, y)] with [0 <= x <= maxX] and
    [0 <= y <= maxY], row by row: [y] ascending, and [x] ascending within
    a row. *)
Definition raster (maxX maxY : Z) : list (nat * nat) :=
  flat_map (fun y => map (fun x => (x, y)) (upto maxX)) (upto maxY).

(** Raster (row-major) order on offsets: [snd] is the row, [fst] the column. *)
Definition offset_lt (a b : nat * nat) : Prop :=
  snd a < snd b \/ (snd a = snd b /\ fst a < fst b).

(** Raster (row-major) order on regions: an earlier row, or the same row
    and further to the left. *)
Definition raster_lt (r1 r2 : Region.t) : Prop :=
  Region.top r1 < Region.top r2 \/
  (Region.top r1 = Region.top r2 /\ Region.left r1 < Region.left r2).

(** Every pixel of the [w] x [h] window of the haystack at offset [(x, y)]
    exists and is equal, as a number, to [value]. *)
Definition windowEquals (haystackBuffer : list byte) (haystackWidth : nat)
           (w h : nat) (value : float) (x y : nat) : Prop :=
  forall i j, i < w -> j < h ->
    exists b, nth_error haystackBuffer ((y + j) * haystackWidth + (x + i)) = Some b
              /\ PrimFloat.eqb (of_byte b) value = true.

(** [x === x] holds exactly for the numbers that are not [NaN]. *)
Definition is_number (x : float) : Prop := PrimFloat.eqb x x = true.

(** The needle of a request is uniform: the standard deviation computed for
    it is zero (the test that selects the exact-match branch) and every one
    of its pixels is equal to the mean computed for it. *)
Definition uniformNeedle (needleBuffer : list byte) : Prop :=
  PrimFloat.eqb (calculateStdDev needleBuffer (calculateMean needleBuffer)) 0%float = true
  /\ Forall (fun b => PrimFloat.eqb (of_byte b) (calculateMean needleBuffer) = true)
            needleBuffer.

(** The confidence that [templateMatch] computes for the candidate offset
    [(x, y)] in the general branch. *)
Definition confidenceAt (haystackBuffer : list byte) (haystackWidth : nat)
           (needleBuffer : list byte) (needleWidth needleHeight : nat)
           (xy : nat * nat) : float :=
  let needleMean := calculateMean needleBuffer in
  calculateNCC
    (extractRegion haystackBuffer haystackWidth (fst xy) (snd xy) needleWidth needleHeight)
    needleBuffer needleMean (calculateStdDev needleBuffer needleMean).

(** The matches of the uniform branch: one per candidate offset whose window
    equals the needle value, each with confidence 1. *)
Definition uniformMatches (haystackBuffer : list byte)
           (haystackWidth haystackHeight : nat) (needleWidth needleHeight : nat)
           (needleValue : float) : list MatchResult.t :=
  map (fun xy => MatchResult.new 1.0%float
                   (Region.new (fst xy) (snd xy) needleWidth needleHeight) None)
      (filter (fun xy => allMatchAt haystackBuffer haystackWidth needleWidth
                                    needleHeight needleValue (fst xy) (snd xy))
              (raster (Z.of_nat haystackWidth - Z.of_nat needleWidth)
                      (Z.of_nat haystackHeight - Z.of_nat needleHeight))).

(** The matches of the general branch: the candidates of the raster whose
    confidence reaches the threshold, in raster order. *)
Definition generalMatches (haystackBuffer : list byte)
           (haystackWidth haystackHeight : nat) (needleBuffer : list byte)
           (needleWidth needleHeight : nat) (minConfidence : float)
  : list MatchResult.t :=
  map (fun xy => MatchResult.new
                   (confidenceAt haystackBuffer haystackWidth needleBuffer
                                 needleWidth needleHeight xy)
                   (Region.new (fst xy) (snd xy) needleWidth needleHeight) None)
      (filter (fun xy => PrimFloat.leb minConfidence
                           (confidenceAt haystackBuffer haystackWidth needleBuffer
                                         needleWidth needleHeight xy))
              (raster (Z.of_nat haystackWidth - Z.of_nat needleWidth)
                      (Z.of_nat haystackHeight - Z.of_nat needleHeight))).

(** One iteration of the row loop of [extractRegion]. *)
Definition rowStep (buffer : list byte) (width x y regionWidth : nat)
           (regionBuffer : list byte) (j : nat) : list byte :=
  let sourceStart := (y + j) * width + x in
  let targetStart := j * regionWidth in
  set regionBuffer (subarray buffer sourceStart (sourceStart + regionWidth)) targetStart.

(** The quantity whose square root [calculateStdDev] returns. *)
Definition populationVariance (buffer : list byte) (mean : float) : float :=
  (fold_left (fun sumSq b => (sumSq + pow2 (of_byte b - mean))%float) buffer 0%float
   / of_nat (List.length buffer))%float.

(** The confidence [calculateNCC] computes for a buffer against itself:
    with [v] the variance and [s] its square root, [(v / (s * s) + 1) / 2]
    in binary64 arithmetic. *)
Definition selfConfidence (buffer : list byte) : float :=
  let variance := populationVariance buffer (calculateMean buffer) in
  let stdDev := PrimFloat.sqrt variance in
  ((variance / (stdDev * stdDev) + 1) / 2)%float.

(** The statistics calls made for one candidate window: [calculateNCC]
    passes the region buffer to [calculateMean] and to [calculateStdDev]. *)
Definition windowLog (haystackBuffer : list byte) (haystackWidth : nat)
           (needleWidth needleHeight : nat) (xy : nat * nat) : list (list byte) :=
  let regionBuffer :=
    extractRegion haystackBuffer haystackWidth (fst xy) (snd xy) needleWidth needleHeight in
  [regionBuffer; regionBuffer].

(** The variance computed for the buffer is a normal binary64 number, at
    least [2^-1022] and at most [2^1000]. *)
Definition normalVariance (buffer : list byte) : Prop :=
  PrimFloat.leb 0x1p-1022%float
                (populationVariance buffer (calculateMean buffer)) = true
  /\ PrimFloat.leb (populationVariance buffer (calculateMean buffer))
                   0x1p+1000%float = true.

(** ** Vocabulary of the rounding analysis *)

(** [2 ^ e] as a real number. *)
Definition bpow (e : Z) : R := powerRZ 2 e.

(** Where the real number [x] lies between the integers [m] and [m + 1],
    as the rounding of the binary64 operations records it: on [m], below,
    at or above the midpoint. *)
Definition inbetween (x : R) (m : Z) (l : location) : Prop :=
  match l with
  | loc_Exact => x = IZR m
  | loc_Inexact Lt => (IZR m < x < IZR m + / 2)%R
  | loc_Inexact Eq => x = (IZR m + / 2)%R
  | loc_Inexact Gt => (IZR m + / 2 < x < IZR m + 1)%R
  end.

(** A shift record that truncates the non-negative real number [x]. *)
Definition rec_ok (x : R) (mrs : shr_record) : Prop :=
  (0 <= shr_m mrs)%Z /\ inbetween x (shr_m mrs) (loc_of_shr_record mrs).

(** The real number a binary64 datum stands for (0 for a zero, and by
    convention for an infinity and for [NaN]). *)
Definition SF2R (x : spec_float) : R :=
  match x with
  | S754_finite s m e =>
      if s then (- (IZR (Zpos m) * bpow e))%R else (IZR (Zpos m) * bpow e)%R
  | _ => 0%R
  end.

(** A zero or a normal number: 53 significant bits, exponent in range. *)
Definition regular (x : spec_float) : Prop :=
  match x with
  | S754_zero _ => True
  | S754_finite _ m e => (2 ^ 52 <= Zpos m < 2 ^ 53)%Z /\ (-1074 <= e <= 970)%Z
  | _ => False
  end.

Definition val (x : float) : R := SF2R (Prim2SF x).

Definition reg (x : float) : Prop := regular (Prim2SF x).

(** A term of one of the two sums of the statistics: zero, or between
    [L] and [U]. *)
Definition term_ok (L U : R) (t : float) : Prop :=
  reg t /\ (0 <= val t <= U)%R /\ (val t = 0%R \/ (L <= val t)%R).

(** The invariant of the loop that adds the terms [f b]: after the bytes
    [pre] the accumulator is zero, all terms so far being zero, or has
    lost at most one rounding per term. *)
Definition acc_ok (f : byte -> float) (L U : R) (pre : list byte) (acc : float) : Prop :=
  reg acc
  /\ (0 <= val acc <= 2 * U * INR (List.length pre))%R
  /\ ((val acc = 0%R /\ Forall (fun b => val (f b) = 0%R) pre)
      \/ (L * (1 - INR (List.length pre) * bpow (-53)) <= val acc)%R).

(** A codec that rejects an image without pixels: whenever the conversion
    succeeds the image has a positive width and height and the buffer
    holds at least one byte. *)
Definition rejectsEmptyImages (codec : Image.t -> string + list byte) : Prop :=
  forall (image : Image.t) (buffer : list byte),
    codec image = inr buffer ->
    0 < Image.width image /\ 0 < Image.height image /\ buffer <> [].

(** ** Concrete inputs *)

(** One cell of [new Uint8Array([...])]: the value modulo 256. *)
Definition u8 (n : nat) : byte :=
  match Byte.of_N (N.of_nat n mod 256) with
  | Some b => b
  | None => x00
  end.

(** A single-channel image with the given pixel values. *)
Definition gray (width height : nat) (pixels : list nat) : Image.t :=
  Image.new width height 1 (map u8 pixels).

(** A stand-in for the codec on the concrete requests below, which are
    single-channel images.  Like the codec it rejects an image without
    data ("Input Buffer is empty") or without pixels, and one whose data
    is shorter than [width * height] bytes; otherwise the grayscale buffer
    of a single-channel image is its first [width * height] bytes. *)
Definition raw_codec (image : Image.t) : string + list byte :=
  let pixels := Image.width image * Image.height image in
  if List.length (Image.data image) =? 0
  then inl "Input Buffer is empty"%string
  else if (pixels =? 0) || negb (Image.channels image =? 1)
  then inl "Expected width, height and channels for raw pixel input"%string
  else if List.length (Image.data image) <? pixels
  then inl "Input buffer size does not match width, height and channels"%string
  else inr (firstn pixels (Image.data image)).

(** The concrete scenario of the design document: a 4 x 4 haystack of value
    10 with a 2 x 2 block of value 200 at offset (1, 1), and a uniform
    2 x 2 needle of value 200. *)
Definition scenarioHaystack : Image.t :=
  gray 4 4 [10; 10; 10; 10;
            10; 200; 200; 10;
            10; 200; 200; 10;
            10; 10; 10; 10].

Definition scenarioNeedle : Image.t := gray 2 2 [200; 200; 200; 200].

(** A uniform 3 x 2 haystack: the uniform 2 x 2 needle matches at two
    offsets with equal confidence. *)
Definition flatHaystack : Image.t := gray 3 2 [200; 200; 200; 200; 200; 200].

(** A 3 x 2 haystack whose top-left 2 x 2 window is [rampNeedle]. *)
Definition rampHaystack : Image.t := gray 3 2 [0; 1; 7; 1; 2; 9].

Definition rampNeedle : Image.t := gray 2 2 [0; 1; 1; 2].

(** A 3 x 3 needle of mean 16 and the 3 x 3 haystack obtained from it by
    [p |-> 5 * p + 25], of mean 105: all deviations from the means are
    integers, so the squares and the sums of the statistics are exact. *)
Definition patchNeedle : Image.t :=
  gray 3 3 [11; 8; 23;
            4; 7; 18;
            23; 29; 21].

Definition brightHaystack : Image.t :=
  gray 3 3 [80; 65; 140;
            45; 60; 115;
            140; 170; 130].

(** A 3 x 1 haystack and a 3 x 1 needle that are negatively correlated; the
    deviations from the means are integers. *)
Definition risingHaystack : Image.t := gray 3 1 [1; 4; 7].

Definition fallingNeedle : Image.t := gray 3 1 [3; 2; 1].

(** A 1 x 1 haystack and a needle without pixels. *)
Definition dotHaystack : Image.t := gray 1 1 [7].

Definition emptyNeedle : Image.t := gray 0 0 [].

(** ** Vocabulary and inputs of the further properties *)

(** The pixel of the source buffer at a linear index, 0 past its end. *)
Definition pixel_or_zero (buffer : list byte) (index : nat) : byte :=
  match nth_error buffer index with
  | Some b => b
  | None => x00
  end.

(** A 2 x 2 image that declares one channel but carries three bytes: the
    codec rejects it. *)
Definition brokenNeedle : Image.t := Image.new 2 2 1 (map u8 [1; 2; 3]).

(** A needle of one pixel of value 200. *)
Definition pixelNeedle : Image.t := gray 1 1 [200].

(** ** Ordering of binary64 numbers *)

Ltac sf_cases :=
  repeat match goal with
         | x : spec_float |- _ => destruct x as [[]|[]| |[] ? ?]
         end;
  cbn; try congruence; try reflexivity.

Ltac sf_order :=
  change (Pos.compare_cont Eq) with Pos.compare in *;
  repeat match goal with
         | |- context [Z.compare ?a ?b] =>
             destruct (Z.compare_spec a b); subst; cbn
         | H : context [Z.compare ?a ?b] |- _ =>
             destruct (Z.compare_spec a b); subst; cbn in H
         | |- context [Pos.compare ?a ?b] =>
             destruct (Pos.compare_spec a b); subst; cbn
         | H : context [Pos.compare ?a ?b] |- _ =>
             destruct (Pos.compare_spec a b); subst; cbn in H
         end;
  cbn in *; try congruence; try lia.

Lemma SFleb_trans (x y z : spec_float) :
  SFleb x y = true -> SFleb y z = true -> SFleb x z = true.
Proof. unfold SFleb. sf_cases; intros; sf_order. Qed.

Lemma SFltb_leb_trans (x y z : spec_float) :
  SFltb x y = true -> SFleb y z = true -> SFleb x z = true.
Proof. unfold SFleb, SFltb. sf_cases; intros; sf_order. Qed.

Lemma SFleb_ltb_trans (x y z : spec_float) :
  SFleb x y = true -> SFltb y z = true -> SFltb x z = true.
Proof. unfold SFleb, SFltb. sf_cases; intros; sf_order. Qed.

Lemma SFltb_false_leb (x y : spec_float) :
  SFeqb x x = true -> SFeqb y y = true -> SFltb x y = false -> SFleb y x = true.
Proof. unfold SFleb, SFltb, SFeqb. sf_cases; intros; sf_order. Qed.

Lemma SFleb_num_r (x y : spec_float) : SFleb x y = true -> SFeqb y y = true.
Proof. unfold SFleb, SFeqb. sf_cases; intros; sf_order. Qed.

Lemma SFltb_leb (x y : spec_float) : SFltb x y = true -> SFleb x y = true.
Proof. unfold SFleb, SFltb. sf_cases; intros; sf_order. Qed.

Lemma SFleb_refl (x : spec_float) : SFeqb x x = true -> SFleb x x = true.
Proof. unfold SFleb, SFeqb. sf_cases; intros; sf_order. Qed.

Lemma leb_trans (x y z : float) :
  PrimFloat.leb x y = true -> PrimFloat.leb y z = true -> PrimFloat.leb x z = true.
Proof. rewrite !FloatAxioms.leb_spec. apply SFleb_trans. Qed.

Lemma ltb_leb_trans (x y z : float) :
  PrimFloat.ltb x y = true -> PrimFloat.leb y z = true -> PrimFloat.leb x z = true.
Proof. rewrite FloatAxioms.ltb_spec, !FloatAxioms.leb_spec. apply SFltb_leb_trans. Qed.

Lemma leb_ltb_trans (x y z : float) :
  PrimFloat.leb x y = true -> PrimFloat.ltb y z = true -> PrimFloat.ltb x z = true.
Proof. rewrite !FloatAxioms.ltb_spec, FloatAxioms.leb_spec. apply SFleb_ltb_trans. Qed.

Lemma ltb_false_leb (x y : float) :
  is_number x -> is_number y -> PrimFloat.ltb x y = false -> PrimFloat.leb y x = true.
Proof.
  unfold is_number.
  rewrite !FloatAxioms.eqb_spec, FloatAxioms.ltb_spec, FloatAxioms.leb_spec.
  apply SFltb_false_leb.
Qed.

Lemma leb_is_number_r (x y : float) : PrimFloat.leb x y = true -> is_number y.
Proof. unfold is_number. rewrite FloatAxioms.eqb_spec, FloatAxioms.leb_spec. apply SFleb_num_r. Qed.

Lemma ltb_leb (x y : float) : PrimFloat.ltb x y = true -> PrimFloat.leb x y = true.
Proof. rewrite FloatAxioms.ltb_spec, FloatAxioms.leb_spec. apply SFltb_leb. Qed.

Lemma leb_refl (x : float) : is_number x -> PrimFloat.leb x x = true.
Proof. unfold is_number. rewrite FloatAxioms.eqb_spec, FloatAxioms.leb_spec. apply SFleb_refl. Qed.

(** ** Loops that push onto an accumulator *)

Section PushLoops.
Context {A B : Type}.

(** A loop whose body conditionally pushes one element is a filter
    followed by a map, appended to the initial accumulator. *)
Lemma fold_push (keep : A -> bool) (make : A -> B) (l : list A) (init : list B) :
  fold_left (fun acc a => if keep a then acc ++ [make a] else acc) l init
  = init ++ map make (filter keep l).
Proof.
  revert init. induction l as [|a l IH]; intros init; cbn.
  - now rewrite app_nil_r.
  - rewrite IH. destruct (keep a); cbn; [now rewrite <- app_assoc|reflexivity].
Qed.

Lemma filter_flat_map {C : Type} (keep : A -> bool) (f : C -> list A) (l : list C) :
  filter keep (flat_map f l) = flat_map (fun c => filter keep (f c)) l.
Proof.
  induction l as [|c l IH]; cbn; [reflexivity|].
  now rewrite filter_app, IH.
Qed.

Lemma map_flat_map {C : Type} (g : A -> B) (f : C -> list A) (l : list C) :
  map g (flat_map f l) = flat_map (fun c => map g (f c)) l.
Proof.
  induction l as [|c l IH]; cbn; [reflexivity|].
  now rewrite map_app, IH.
Qed.
End PushLoops.

(** The doubly nested scan loop: rows outside, columns inside. *)
Lemma fold_push_nested {B : Type} (keep : nat * nat -> bool) (make : nat * nat -> B)
      (xs ys : list nat) (init : list B) :
  fold_left
    (fun acc y =>
       fold_left (fun acc x => if keep (x, y) then acc ++ [make (x, y)] else acc) xs acc)
    ys init
  = init ++ map make (filter keep (flat_map (fun y => map (fun x => (x, y)) xs) ys)).
Proof.
  revert init. induction ys as [|y ys IH]; intros init; cbn.
  - now rewrite app_nil_r.
  - rewrite IH.
    rewrite (fold_push (fun x => keep (x, y)) (fun x => make (x, y))).
    rewrite filter_app, map_app, app_assoc. f_equal. f_equal.
    clear. induction xs as [|x xs IHx]; cbn; [reflexivity|].
    destruct (keep (x, y)); cbn; now rewrite IHx.
Qed.

(** ** The raster enumeration *)

Lemma in_upto (hi : Z) (n : nat) : In n (upto hi) <-> (Z.of_nat n <= hi)%Z.
Proof. unfold upto. rewrite in_seq. lia. Qed.

Lemma in_raster (maxX maxY : Z) (x y : nat) :
  In (x, y) (raster maxX maxY) <-> (Z.of_nat x <= maxX)%Z /\ (Z.of_nat y <= maxY)%Z.
Proof.
  unfold raster. rewrite in_flat_map. split.
  - intros (y' & Hy & Hin). apply in_map_iff in Hin as (x' & Heq & Hx).
    inversion Heq; subst. now rewrite <- !in_upto.
  - intros [Hx Hy]. exists y. split; [now apply in_upto|].
    apply in_map_iff. exists x. split; [reflexivity|now apply in_upto].
Qed.

Lemma sorted_seq (start len : nat) : StronglySorted lt (seq start len).
Proof.
  revert start. induction len as [|len IH]; intros start; cbn; constructor.
  - apply IH.
  - apply Forall_forall. intros n Hn. apply in_seq in Hn. lia.
Qed.

Lemma sorted_rows (xs ys : list nat) :
  StronglySorted lt xs -> StronglySorted lt ys ->
  StronglySorted offset_lt (flat_map (fun y => map (fun x => (x, y)) xs) ys).
Proof.
  intros Hxs Hys. induction Hys as [|y ys Hys IH Hy]; cbn; [constructor|].
  assert (Hrow : forall l, StronglySorted lt l ->
                           StronglySorted offset_lt (map (fun x => (x, y)) l)).
  { intros l Hl. induction Hl as [|x l Hl IHl Hx]; cbn; constructor; [exact IHl|].
    apply Forall_forall. intros [x' y'] Hin. apply in_map_iff in Hin as (x'' & Heq & Hin).
    inversion Heq; subst. right. cbn. split; [reflexivity|].
    rewrite Forall_forall in Hx. now apply Hx. }
  assert (Hcross : forall a b, In a (map (fun x => (x, y)) xs) ->
                               In b (flat_map (fun y => map (fun x => (x, y)) xs) ys) ->
                               offset_lt a b).
  { intros a b Ha Hb. apply in_map_iff in Ha as (x & <- & _).
    apply in_flat_map in Hb as (y' & Hy' & Hb). apply in_map_iff in Hb as (x' & <- & _).
    left. cbn. rewrite Forall_forall in Hy. now apply Hy. }
  revert Hcross. generalize (Hrow xs Hxs).
  generalize (map (fun x => (x, y)) xs) as row. intros row Hsorted.
  induction Hsorted as [|a row Hsorted IHrow Ha]; intros Hcross; cbn; [exact IH|].
  constructor.
  - apply IHrow. intros a' b Ha' Hb. apply Hcross; [now right|exact Hb].
  - apply Forall_forall. intros b Hb. apply in_app_or in Hb as [Hb|Hb].
    + rewrite Forall_forall in Ha. now apply Ha.
    + apply Hcross; [now left|exact Hb].
Qed.

Lemma raster_sorted (maxX maxY : Z) : StronglySorted offset_lt (raster maxX maxY).
Proof. apply sorted_rows; apply sorted_seq. Qed.

Lemma sorted_filter {T : Type} (R : T -> T -> Prop) (keep : T -> bool) (l : list T) :
  StronglySorted R l -> StronglySorted R (filter keep l).
Proof.
  induction 1 as [|a l Hl IH Ha]; cbn; [constructor|].
  destruct (keep a); [|exact IH]. constructor; [exact IH|].
  rewrite Forall_forall in *. intros b Hb. apply filter_In in Hb as [Hb _]. now apply Ha.
Qed.

Lemma sorted_map {T U : Type} (R : T -> T -> Prop) (Q : U -> U -> Prop) (f : T -> U)
      (l : list T) :
  (forall a b, R a b -> Q (f a) (f b)) ->
  StronglySorted R l -> StronglySorted Q (map f l).
Proof.
  intros Hf. induction 1 as [|a l Hl IH Ha]; cbn; constructor; [exact IH|].
  rewrite Forall_forall in *. intros b Hb. apply in_map_iff in Hb as (b' & <- & Hb').
  apply Hf. now apply Ha.
Qed.

(** ** The two branches of [templateMatch] as filters over the raster *)

Lemma fold_allMatch {T : Type} (bad : T -> bool) (l : list T) (init : bool) :
  fold_left (fun (allMatch : bool) a =>
               if allMatch then (if bad a then false else allMatch) else allMatch)
            l init
  = init && forallb (fun a => negb (bad a)) l.
Proof.
  revert init. induction l as [|a l IH]; intros init; cbn.
  - now rewrite andb_true_r.
  - rewrite IH. destruct init, (bad a); reflexivity.
Qed.

Lemma allMatchAt_forallb (haystackBuffer : list byte) (haystackWidth w h : nat)
      (value : float) (x y : nat) :
  allMatchAt haystackBuffer haystackWidth w h value x y
  = forallb (fun j =>
               forallb (fun i =>
                          negb (strict_ne haystackBuffer
                                          ((y + j) * haystackWidth + (x + i)) value))
                       (seq 0 w))
            (seq 0 h).
Proof.
  unfold allMatchAt. generalize (seq 0 h) as rows. intros rows.
  change (forallb ?f rows) with (true && forallb f rows) at 1.
  generalize true as init. induction rows as [|j rows IH]; intros init; cbn.
  - now rewrite andb_true_r.
  - rewrite (fold_allMatch
               (fun i => strict_ne haystackBuffer ((y + j) * haystackWidth + (x + i)) value)).
    rewrite IH. now rewrite andb_assoc.
Qed.

Lemma allMatchAt_spec (haystackBuffer : list byte) (haystackWidth w h : nat)
      (value : float) (x y : nat) :
  allMatchAt haystackBuffer haystackWidth w h value x y = true
  <-> windowEquals haystackBuffer haystackWidth w h value x y.
Proof.
  rewrite allMatchAt_forallb, forallb_forall. unfold windowEquals, strict_ne. split.
  - intros H i j Hi Hj.
    specialize (H j). rewrite in_seq, forallb_forall in H.
    specialize (H ltac:(lia) i). rewrite in_seq in H. specialize (H ltac:(lia)).
    destruct (nth_error haystackBuffer ((y + j) * haystackWidth + (x + i))) as [b|];
      [|discriminate].
    exists b. split; [reflexivity|]. now apply negb_true_iff, negb_false_iff in H.
  - intros H j Hj. apply in_seq in Hj. apply forallb_forall. intros i Hi.
    apply in_seq in Hi. destruct (H i j ltac:(lia) ltac:(lia)) as (b & -> & Hb).
    now rewrite Hb.
Qed.

Lemma findUniformMatches_raster (haystackBuffer : list byte)
      (haystackWidth haystackHeight : nat) (needleBuffer : list byte)
      (needleWidth needleHeight : nat) (needleValue minConfidence : float) :
  findUniformMatches haystackBuffer haystackWidth haystackHeight needleBuffer
                     needleWidth needleHeight needleValue minConfidence
  = map (fun xy => MatchResult.new 1.0%float
                     (Region.new (fst xy) (snd xy) needleWidth needleHeight) None)
        (filter (fun xy => allMatchAt haystackBuffer haystackWidth needleWidth
                                      needleHeight needleValue (fst xy) (snd xy))
                (raster (Z.of_nat haystackWidth - Z.of_nat needleWidth)
                        (Z.of_nat haystackHeight - Z.of_nat needleHeight))).
Proof.
  unfold findUniformMatches, raster.
  exact (fold_push_nested
           (fun xy => allMatchAt haystackBuffer haystackWidth needleWidth
                                 needleHeight needleValue (fst xy) (snd xy))
           (fun xy => MatchResult.new 1.0%float
                        (Region.new (fst xy) (snd xy) needleWidth needleHeight) None)
           _ _ []).
Qed.

Lemma templateMatch_uniform (haystackBuffer : list byte)
      (haystackWidth haystackHeight : nat) (needleBuffer : list byte)
      (needleWidth needleHeight : nat) (minConfidence : float) :
  PrimFloat.eqb (calculateStdDev needleBuffer (calculateMean needleBuffer)) 0%float = true ->
  templateMatch haystackBuffer haystackWidth haystackHeight needleBuffer
                needleWidth needleHeight minConfidence
  = findUniformMatches haystackBuffer haystackWidth haystackHeight needleBuffer
                       needleWidth needleHeight (calculateMean needleBuffer) minConfidence.
Proof. intros H. unfold templateMatch. cbv zeta. now rewrite H. Qed.

Lemma templateMatch_general (haystackBuffer : list byte)
      (haystackWidth haystackHeight : nat) (needleBuffer : list byte)
      (needleWidth needleHeight : nat) (minConfidence : float) :
  PrimFloat.eqb (calculateStdDev needleBuffer (calculateMean needleBuffer)) 0%float = false ->
  templateMatch haystackBuffer haystackWidth haystackHeight needleBuffer
                needleWidth needleHeight minConfidence
  = map (fun xy => MatchResult.new
                     (confidenceAt haystackBuffer haystackWidth needleBuffer
                                   needleWidth needleHeight xy)
                     (Region.new (fst xy) (snd xy) needleWidth needleHeight) None)
        (filter (fun xy => PrimFloat.leb minConfidence
                             (confidenceAt haystackBuffer haystackWidth needleBuffer
                                           needleWidth needleHeight xy))
                (raster (Z.of_nat haystackWidth - Z.of_nat needleWidth)
                        (Z.of_nat haystackHeight - Z.of_nat needleHeight))).
Proof.
  intros H. unfold templateMatch. cbv zeta. rewrite H. unfold raster.
  exact (fold_push_nested
           (fun xy => PrimFloat.leb minConfidence
                        (confidenceAt haystackBuffer haystackWidth needleBuffer
                                      needleWidth needleHeight xy))
           (fun xy => MatchResult.new
                        (confidenceAt haystackBuffer haystackWidth needleBuffer
                                      needleWidth needleHeight xy)
                        (Region.new (fst xy) (snd xy) needleWidth needleHeight) None)
           _ _ []).
Qed.

(** ** [findMatches] step by step *)

Section Finder.
Variable codec : Image.t -> string + list byte.

Lemma findMatches_too_large (matchRequest : MatchRequest.t) :
  needleTooLarge matchRequest = true ->
  findMatches codec matchRequest
  = Throw (Error "Needle image is larger than haystack image").
Proof.
  unfold needleTooLarge, findMatches. intros H. cbv zeta. now rewrite H.
Qed.

Lemma findMatches_scan (matchRequest : MatchRequest.t)
      (haystackBuffer needleBuffer : list byte) :
  needleTooLarge matchRequest = false ->
  codec (MatchRequest.haystack matchRequest) = inr haystackBuffer ->
  codec (MatchRequest.needle matchRequest) = inr needleBuffer ->
  findMatches codec matchRequest
  = Return (templateMatch haystackBuffer
              (Image.width (MatchRequest.haystack matchRequest))
              (Image.height (MatchRequest.haystack matchRequest))
              needleBuffer
              (Image.width (MatchRequest.needle matchRequest))
              (Image.height (MatchRequest.needle matchRequest))
              (threshold matchRequest)).
Proof.
  unfold needleTooLarge, findMatches, imageToRawBuffer, threshold.
  intros H Hh Hn. cbv zeta. now rewrite H, Hh, Hn.
Qed.

(** Whenever [findMatches] returns, it returns the result of a scan. *)
Lemma findMatches_returns (matchRequest : MatchRequest.t) (matches : list MatchResult.t) :
  findMatches codec matchRequest = Return matches ->
  exists haystackBuffer needleBuffer,
    needleTooLarge matchRequest = false
    /\ codec (MatchRequest.haystack matchRequest) = inr haystackBuffer
    /\ codec (MatchRequest.needle matchRequest) = inr needleBuffer
    /\ matches = templateMatch haystackBuffer
                   (Image.width (MatchRequest.haystack matchRequest))
                   (Image.height (MatchRequest.haystack matchRequest))
                   needleBuffer
                   (Image.width (MatchRequest.needle matchRequest))
                   (Image.height (MatchRequest.needle matchRequest))
                   (threshold matchRequest).
Proof.
  intros H. destruct (needleTooLarge matchRequest) eqn:Hv.
  - rewrite (findMatches_too_large _ Hv) in H. discriminate.
  - unfold needleTooLarge in Hv.
    unfold findMatches, imageToRawBuffer in H. cbv zeta in H. rewrite Hv in H.
    destruct (codec (MatchRequest.haystack matchRequest)) as [m|hb]; [discriminate|].
    destruct (codec (MatchRequest.needle matchRequest)) as [m|nb]; [discriminate|].
    exists hb, nb. cbn in H. inversion H. auto.
Qed.
End Finder.

(** ** Error contract of [findMatch] *)

Lemma findMatch_of_throw (codec : Image.t -> string + list byte)
      (matchRequest : MatchRequest.t) (error : JsError) :
  findMatches codec matchRequest = Throw error ->
  findMatch codec matchRequest = Return (failure error).
Proof. intros H. unfold findMatch. now rewrite H. Qed.

Lemma findMatch_of_empty (codec : Image.t -> string + list byte)
      (matchRequest : MatchRequest.t) :
  findMatches codec matchRequest = Return [] ->
  findMatch codec matchRequest = Return (failure (Error "No matches found")).
Proof. intros H. unfold findMatch. now rewrite H. Qed.

Lemma findMatch_of_cons (codec : Image.t -> string + list byte)
      (matchRequest : MatchRequest.t) (first : MatchResult.t) (rest : list MatchResult.t) :
  findMatches codec matchRequest = Return (first :: rest) ->
  findMatch codec matchRequest = Return (fold_left better rest first).
Proof. intros H. unfold findMatch. now rewrite H. Qed.

(** C1: [findMatch] never throws.  For every codec and request it returns a
    result; when [findMatches] returns the empty list the result has
    confidence 0, location [Region(0,0,0,0)] and the no-match error, and
    when [findMatches] throws, the thrown error is returned embedded in a
    result with confidence 0 and location [Region(0,0,0,0)]. *)
Theorem C1_findMatch_never_throws (codec : Image.t -> string + list byte)
        (matchRequest : MatchRequest.t) :
  (exists result, findMatch codec matchRequest = Return result)
  /\ (findMatches codec matchRequest = Return [] ->
      findMatch codec matchRequest
      = Return (MatchResult.new 0%float (Region.new 0 0 0 0)
                                (Some (Error "No matches found"))))
  /\ (forall error, findMatches codec matchRequest = Throw error ->
      findMatch codec matchRequest
      = Return (MatchResult.new 0%float (Region.new 0 0 0 0) (Some error))).
Proof.
  split; [|split].
  - destruct (findMatches codec matchRequest) as [[|first rest]|error] eqn:H.
    + eexists. apply findMatch_of_empty. exact H.
    + eexists. eapply findMatch_of_cons. exact H.
    + eexists. eapply findMatch_of_throw. exact H.
  - apply findMatch_of_empty.
  - intros error. apply findMatch_of_throw.
Qed.

(** C2: a needle strictly wider or strictly taller than the haystack makes
    [findMatches] throw the validation error, whatever the codec would do
    with the two images (nothing is converted or scanned), and makes
    [findMatch] return confidence 0, location [Region(0,0,0,0)] and that
    error embedded. *)
Theorem C2_needle_larger_than_haystack (codec : Image.t -> string + list byte)
        (matchRequest : MatchRequest.t) :
  Image.width (MatchRequest.needle matchRequest)
    > Image.width (MatchRequest.haystack matchRequest)
  \/ Image.height (MatchRequest.needle matchRequest)
     > Image.height (MatchRequest.haystack matchRequest) ->
  findMatches codec matchRequest
  = Throw (Error "Needle image is larger than haystack image")
  /\ findMatches codec matchRequest <> Return []
  /\ findMatch codec matchRequest
     = Return (MatchResult.new 0%float (Region.new 0 0 0 0)
                 (Some (Error "Needle image is larger than haystack image"))).
Proof.
  intros H.
  assert (Hv : needleTooLarge matchRequest = true).
  { unfold needleTooLarge. apply orb_true_iff.
    destruct H as [H|H]; [left|right]; apply Nat.ltb_lt; lia. }
  pose proof (findMatches_too_large codec matchRequest Hv) as Hthrow.
  split; [exact Hthrow|]. split.
  - rewrite Hthrow. discriminate.
  - now apply findMatch_of_throw.
Qed.

(** A 3 x 1 needle against a 2 x 2 haystack. *)
Lemma C2_witness :
  let matchRequest :=
    MatchRequest.new (gray 2 2 [0; 1; 1; 2]) (gray 3 1 [1; 2; 3]) None in
  findMatches raw_codec matchRequest
  = Throw (Error "Needle image is larger than haystack image")
  /\ findMatches raw_codec matchRequest <> Return []
  /\ findMatch raw_codec matchRequest
     = Return (MatchResult.new 0%float (Region.new 0 0 0 0)
                 (Some (Error "Needle image is larger than haystack image"))).
Proof.
  intros matchRequest.
  apply (C2_needle_larger_than_haystack raw_codec matchRequest).
  left. cbn. lia.
Defined.

(** ** Selecting the best match *)

Lemma one_is_number : is_number 1.0%float.
Proof. reflexivity. Qed.

Lemma templateMatch_confidence_number (haystackBuffer : list byte)
      (haystackWidth haystackHeight : nat) (needleBuffer : list byte)
      (needleWidth needleHeight : nat) (minConfidence : float) (m : MatchResult.t) :
  In m (templateMatch haystackBuffer haystackWidth haystackHeight needleBuffer
                      needleWidth needleHeight minConfidence) ->
  is_number (MatchResult.confidence m).
Proof.
  destruct (PrimFloat.eqb (calculateStdDev needleBuffer (calculateMean needleBuffer)) 0%float)
    eqn:Hsd.
  - rewrite (templateMatch_uniform _ _ _ _ _ _ _ Hsd), findUniformMatches_raster.
    intros Hin. apply in_map_iff in Hin as (xy & <- & _). exact one_is_number.
  - rewrite (templateMatch_general _ _ _ _ _ _ _ Hsd).
    intros Hin. apply in_map_iff in Hin as (xy & <- & Hin).
    apply filter_In in Hin as [_ Hle]. cbn. exact (leb_is_number_r _ _ Hle).
Qed.

Lemma fold_better_invariant (pre : list MatchResult.t) (best : MatchResult.t)
      (mid rest : list MatchResult.t) :
  (forall p, In p pre ->
             PrimFloat.ltb (MatchResult.confidence p) (MatchResult.confidence best) = true) ->
  (forall q, In q mid ->
             PrimFloat.leb (MatchResult.confidence q) (MatchResult.confidence best) = true) ->
  is_number (MatchResult.confidence best) ->
  (forall m, In m rest -> is_number (MatchResult.confidence m)) ->
  exists pre' post',
    pre ++ best :: mid ++ rest = pre' ++ fold_left better rest best :: post'
    /\ (forall p, In p pre' ->
          PrimFloat.ltb (MatchResult.confidence p)
                        (MatchResult.confidence (fold_left better rest best)) = true)
    /\ (forall q, In q post' ->
          PrimFloat.leb (MatchResult.confidence q)
                        (MatchResult.confidence (fold_left better rest best)) = true).
Proof.
  revert pre best mid. induction rest as [|current rest IH]; intros pre best mid Hpre Hmid Hb Hrest.
  - exists pre, mid. rewrite app_nil_r. cbn. auto.
  - cbn [fold_left]. unfold better at 2 4 6.
    assert (Hc : is_number (MatchResult.confidence current)) by (apply Hrest; now left).
    assert (Hrest' : forall m, In m rest -> is_number (MatchResult.confidence m))
      by (intros m Hm; apply Hrest; now right).
    destruct (PrimFloat.ltb (MatchResult.confidence best) (MatchResult.confidence current))
      eqn:Hlt.
    + destruct (IH (pre ++ best :: mid) current []) as (pre' & post' & Heq & H1 & H2).
      * intros p Hp. apply in_app_or in Hp as [Hp|[<-|Hp]].
        -- eapply leb_ltb_trans; [apply ltb_leb, Hpre, Hp|exact Hlt].
        -- exact Hlt.
        -- eapply leb_ltb_trans; [apply Hmid, Hp|exact Hlt].
      * intros q [].
      * exact Hc.
      * exact Hrest'.
      * exists pre', post'. split; [|auto].
        rewrite <- Heq. cbn. rewrite <- app_assoc. reflexivity.
    + destruct (IH pre best (mid ++ [current])) as (pre' & post' & Heq & H1 & H2).
      * exact Hpre.
      * intros q Hq. apply in_app_or in Hq as [Hq|[<-|[]]]; [now apply Hmid|].
        now apply ltb_false_leb.
      * exact Hb.
      * exact Hrest'.
      * exists pre', post'. split; [|auto].
        rewrite <- Heq. rewrite <- app_assoc. reflexivity.
Qed.

(** C4: when [findMatches] returns a non-empty list, [findMatch] returns the
    left-to-right reduction of that list that replaces the current best only
    by a candidate of strictly greater confidence.  The returned element
    occurs in the list, every element before it has strictly smaller
    confidence and every element after it has smaller or equal confidence:
    it is the first element of maximal confidence in scan order. *)
Theorem C4_findMatch_first_maximum (codec : Image.t -> string + list byte)
        (matchRequest : MatchRequest.t) (first : MatchResult.t)
        (rest : list MatchResult.t) :
  findMatches codec matchRequest = Return (first :: rest) ->
  exists best before after,
    findMatch codec matchRequest = Return best
    /\ best = fold_left
                (fun best current =>
                   if PrimFloat.ltb (MatchResult.confidence best)
                                    (MatchResult.confidence current)
                   then current else best)
                rest first
    /\ first :: rest = before ++ best :: after
    /\ (forall m, In m before ->
          PrimFloat.ltb (MatchResult.confidence m) (MatchResult.confidence best) = true)
    /\ (forall m, In m after ->
          PrimFloat.leb (MatchResult.confidence m) (MatchResult.confidence best) = true).
Proof.
  intros H.
  assert (Hnum : forall m, In m (first :: rest) -> is_number (MatchResult.confidence m)).
  { destruct (findMatches_returns codec matchRequest _ H) as (hb & nb & _ & _ & _ & Heq).
    rewrite Heq. intros m. apply templateMatch_confidence_number. }
  destruct (fold_better_invariant [] first [] rest) as (pre & post & Heq & H1 & H2).
  - intros p [].
  - intros q [].
  - apply Hnum. now left.
  - intros m Hm. apply Hnum. now right.
  - exists (fold_left better rest first), pre, post.
    split; [now apply findMatch_of_cons|].
    split; [reflexivity|]. split; [exact Heq|]. split; assumption.
Qed.

(** ** The uniform branch *)

Lemma validation_passes (matchRequest : MatchRequest.t) :
  needleTooLarge matchRequest = false <->
  Image.width (MatchRequest.needle matchRequest)
    <= Image.width (MatchRequest.haystack matchRequest)
  /\ Image.height (MatchRequest.needle matchRequest)
     <= Image.height (MatchRequest.haystack matchRequest).
Proof.
  unfold needleTooLarge. rewrite orb_false_iff, !Nat.ltb_ge. reflexivity.
Qed.

Lemma in_uniformMatches (haystackBuffer : list byte)
      (haystackWidth haystackHeight needleWidth needleHeight : nat)
      (needleValue : float) (m : MatchResult.t) :
  In m (uniformMatches haystackBuffer haystackWidth haystackHeight
                       needleWidth needleHeight needleValue)
  <-> exists x y,
      m = MatchResult.new 1.0%float (Region.new x y needleWidth needleHeight) None
      /\ x + needleWidth <= haystackWidth
      /\ y + needleHeight <= haystackHeight
      /\ windowEquals haystackBuffer haystackWidth needleWidth needleHeight
                      needleValue x y.
Proof.
  unfold uniformMatches. rewrite in_map_iff. split.
  - intros ([x y] & <- & Hin). apply filter_In in Hin as [Hin Hall].
    apply in_raster in Hin. cbn in Hall. apply allMatchAt_spec in Hall.
    exists x, y. cbn. repeat split; [lia|lia|exact Hall].
  - intros (x & y & -> & Hx & Hy & Hall). exists (x, y). split; [reflexivity|].
    apply filter_In. split; [apply in_raster; lia|]. now apply allMatchAt_spec.
Qed.

Lemma findMatches_uniform (codec : Image.t -> string + list byte)
      (matchRequest : MatchRequest.t) (haystackBuffer needleBuffer : list byte) :
  needleTooLarge matchRequest = false ->
  codec (MatchRequest.haystack matchRequest) = inr haystackBuffer ->
  codec (MatchRequest.needle matchRequest) = inr needleBuffer ->
  PrimFloat.eqb (calculateStdDev needleBuffer (calculateMean needleBuffer)) 0%float = true ->
  findMatches codec matchRequest
  = Return (uniformMatches haystackBuffer
              (Image.width (MatchRequest.haystack matchRequest))
              (Image.height (MatchRequest.haystack matchRequest))
              (Image.width (MatchRequest.needle matchRequest))
              (Image.height (MatchRequest.needle matchRequest))
              (calculateMean needleBuffer)).
Proof.
  intros Hv Hh Hn Hsd.
  rewrite (findMatches_scan codec matchRequest _ _ Hv Hh Hn).
  rewrite (templateMatch_uniform _ _ _ _ _ _ _ Hsd), findUniformMatches_raster.
  reflexivity.
Qed.

(** C3: when the standard deviation computed for the needle buffer is zero,
    [findMatches] takes the exact-match branch.  For every candidate offset
    [(x, y)] with [x <= haystackWidth - needleWidth] and
    [y <= haystackHeight - needleHeight] it records the match at
    [Region(x, y, needleWidth, needleHeight)] if and only if every pixel of
    the haystack window at that offset equals the needle value, every
    recorded match has confidence exactly 1.0, and nothing else is
    recorded. *)
Theorem C3_uniform_needle_exact_match (codec : Image.t -> string + list byte)
        (matchRequest : MatchRequest.t) (haystackBuffer needleBuffer : list byte) :
  Image.width (MatchRequest.needle matchRequest)
    <= Image.width (MatchRequest.haystack matchRequest) ->
  Image.height (MatchRequest.needle matchRequest)
    <= Image.height (MatchRequest.haystack matchRequest) ->
  codec (MatchRequest.haystack matchRequest) = inr haystackBuffer ->
  codec (MatchRequest.needle matchRequest) = inr needleBuffer ->
  PrimFloat.eqb (calculateStdDev needleBuffer (calculateMean needleBuffer)) 0%float = true ->
  exists matches,
    findMatches codec matchRequest = Return matches
    /\ (forall x y,
          x <= Image.width (MatchRequest.haystack matchRequest)
               - Image.width (MatchRequest.needle matchRequest) ->
          y <= Image.height (MatchRequest.haystack matchRequest)
               - Image.height (MatchRequest.needle matchRequest) ->
          (In (MatchResult.new 1.0%float
                 (Region.new x y (Image.width (MatchRequest.needle matchRequest))
                             (Image.height (MatchRequest.needle matchRequest)))
                 None)
              matches
           <-> windowEquals haystackBuffer
                 (Image.width (MatchRequest.haystack matchRequest))
                 (Image.width (MatchRequest.needle matchRequest))
                 (Image.height (MatchRequest.needle matchRequest))
                 (calculateMean needleBuffer) x y))
    /\ (forall m, In m matches ->
          MatchResult.confidence m = 1.0%float
          /\ exists x y,
              MatchResult.location m
              = Region.new x y (Image.width (MatchRequest.needle matchRequest))
                           (Image.height (MatchRequest.needle matchRequest))
              /\ x <= Image.width (MatchRequest.haystack matchRequest)
                      - Image.width (MatchRequest.needle matchRequest)
              /\ y <= Image.height (MatchRequest.haystack matchRequest)
                      - Image.height (MatchRequest.needle matchRequest)
              /\ windowEquals haystackBuffer
                   (Image.width (MatchRequest.haystack matchRequest))
                   (Image.width (MatchRequest.needle matchRequest))
                   (Image.height (MatchRequest.needle matchRequest))
                   (calculateMean needleBuffer) x y).
Proof.
  intros Hw Hh Hhay Hndl Hsd.
  assert (Hv : needleTooLarge matchRequest = false) by (apply validation_passes; auto).
  eexists. split; [exact (findMatches_uniform codec matchRequest _ _ Hv Hhay Hndl Hsd)|].
  split.
  - intros x y Hx Hy. rewrite in_uniformMatches. split.
    + intros (x' & y' & Heq & _ & _ & Hall). inversion Heq; subst. exact Hall.
    + intros Hall. exists x, y. repeat split; [lia|lia|exact Hall].
  - intros m Hm. apply in_uniformMatches in Hm as (x & y & -> & Hx & Hy & Hall).
    split; [reflexivity|]. exists x, y. cbn. repeat split; [lia|lia|exact Hall].
Qed.

(** C10: in the uniform branch the requested minimum confidence plays no
    role.  With a zero standard deviation of the needle, [findMatches]
    returns the same list for every value of the request's confidence: a
    match of confidence 1.0 for every exactly-equal window, also for a
    threshold greater than 1.0, below which every returned confidence then
    lies. *)
Theorem C10_uniform_branch_ignores_threshold (codec : Image.t -> string + list byte)
        (haystack needle : Image.t) (haystackBuffer needleBuffer : list byte) :
  Image.width needle <= Image.width haystack ->
  Image.height needle <= Image.height haystack ->
  codec haystack = inr haystackBuffer ->
  codec needle = inr needleBuffer ->
  PrimFloat.eqb (calculateStdDev needleBuffer (calculateMean needleBuffer)) 0%float = true ->
  exists matches,
    (forall confidence,
        findMatches codec (MatchRequest.new haystack needle confidence) = Return matches)
    /\ (forall x y,
          x <= Image.width haystack - Image.width needle ->
          y <= Image.height haystack - Image.height needle ->
          windowEquals haystackBuffer (Image.width haystack)
                       (Image.width needle) (Image.height needle)
                       (calculateMean needleBuffer) x y ->
          In (MatchResult.new 1.0%float
                (Region.new x y (Image.width needle) (Image.height needle)) None)
             matches)
    /\ (forall m minConfidence,
          In m matches ->
          PrimFloat.ltb 1.0%float minConfidence = true ->
          MatchResult.confidence m = 1.0%float
          /\ PrimFloat.ltb (MatchResult.confidence m) minConfidence = true).
Proof.
  intros Hw Hh Hhay Hndl Hsd.
  exists (uniformMatches haystackBuffer (Image.width haystack) (Image.height haystack)
                         (Image.width needle) (Image.height needle)
                         (calculateMean needleBuffer)).
  split; [|split].
  - intros confidence.
    apply (findMatches_uniform codec (MatchRequest.new haystack needle confidence));
      [apply validation_passes; cbn; auto|exact Hhay|exact Hndl|exact Hsd].
  - intros x y Hx Hy Hall. apply in_uniformMatches.
    exists x, y. repeat split; [lia|lia|exact Hall].
  - intros m minConfidence Hm Hlt.
    apply in_uniformMatches in Hm as (x & y & -> & _). cbn. auto.
Qed.

(** ** The log of the scan *)

Lemma calculateNCCLogged_spec (regionBuffer needleBuffer : list byte)
      (needleMean needleStdDev : float) :
  calculateNCCLogged regionBuffer needleBuffer needleMean needleStdDev
  = (calculateNCC regionBuffer needleBuffer needleMean needleStdDev,
     [regionBuffer; regionBuffer]).
Proof. reflexivity. Qed.

Lemma fold_logged {S X : Type} (stepValue : S -> X -> S)
      (stepLog : X -> list (list byte)) (stepLogged : Logged S -> X -> Logged S)
      (xs : list X) (state : Logged S) :
  (forall st x, stepLogged st x = (stepValue (fst st) x, snd st ++ stepLog x)) ->
  fold_left stepLogged xs state
  = (fold_left stepValue xs (fst state), snd state ++ flat_map stepLog xs).
Proof.
  intros Hstep. revert state. induction xs as [|x xs IH]; intros state; cbn.
  - rewrite app_nil_r. now destruct state.
  - rewrite IH, Hstep. cbn. now rewrite <- app_assoc.
Qed.

Lemma flat_map_rows {B : Type} (f : nat * nat -> list B) (xs ys : list nat) :
  flat_map (fun y => flat_map (fun x => f (x, y)) xs) ys
  = flat_map f (flat_map (fun y => map (fun x => (x, y)) xs) ys).
Proof.
  induction ys as [|y ys IH]; cbn; [reflexivity|].
  rewrite flat_map_app, IH. f_equal.
  clear. induction xs as [|x xs IHx]; cbn; [reflexivity|]. now rewrite IHx.
Qed.

Lemma templateMatchLogged_spec (haystackBuffer : list byte)
      (haystackWidth haystackHeight : nat) (needleBuffer : list byte)
      (needleWidth needleHeight : nat) (minConfidence : float) :
  templateMatchLogged haystackBuffer haystackWidth haystackHeight needleBuffer
                      needleWidth needleHeight minConfidence
  = (templateMatch haystackBuffer haystackWidth haystackHeight needleBuffer
                   needleWidth needleHeight minConfidence,
     needleBuffer :: needleBuffer ::
     (if PrimFloat.eqb (calculateStdDev needleBuffer (calculateMean needleBuffer)) 0%float
      then []
      else flat_map (windowLog haystackBuffer haystackWidth needleWidth needleHeight)
                    (raster (Z.of_nat haystackWidth - Z.of_nat needleWidth)
                            (Z.of_nat haystackHeight - Z.of_nat needleHeight)))).
Proof.
  unfold templateMatchLogged, templateMatch. cbv zeta.
  unfold bind_log at 1 2. cbn [calculateMeanLogged calculateStdDevLogged fst snd].
  destruct (PrimFloat.eqb (calculateStdDev needleBuffer (calculateMean needleBuffer)) 0%float).
  - reflexivity.
  - cbn [ret_log app].
    rewrite (fold_logged
               (fun matches y =>
                  fold_left
                    (fun matches x =>
                       if PrimFloat.leb minConfidence
                            (calculateNCC
                               (extractRegion haystackBuffer haystackWidth x y
                                              needleWidth needleHeight)
                               needleBuffer (calculateMean needleBuffer)
                               (calculateStdDev needleBuffer (calculateMean needleBuffer)))
                       then matches ++
                            [MatchResult.new
                               (calculateNCC
                                  (extractRegion haystackBuffer haystackWidth x y
                                                 needleWidth needleHeight)
                                  needleBuffer (calculateMean needleBuffer)
                                  (calculateStdDev needleBuffer (calculateMean needleBuffer)))
                               (Region.new x y needleWidth needleHeight) None]
                       else matches)
                    (upto (Z.of_nat haystackWidth - Z.of_nat needleWidth)) matches)
               (fun y =>
                  flat_map
                    (fun x => windowLog haystackBuffer haystackWidth
                                        needleWidth needleHeight (x, y))
                    (upto (Z.of_nat haystackWidth - Z.of_nat needleWidth)))).
    + cbn [fst snd app]. rewrite flat_map_rows. reflexivity.
    + intros st y.
      apply (fold_logged
               (fun matches x =>
                  if PrimFloat.leb minConfidence
                       (calculateNCC
                          (extractRegion haystackBuffer haystackWidth x y
                                         needleWidth needleHeight)
                          needleBuffer (calculateMean needleBuffer)
                          (calculateStdDev needleBuffer (calculateMean needleBuffer)))
                  then matches ++
                       [MatchResult.new
                          (calculateNCC
                             (extractRegion haystackBuffer haystackWidth x y
                                            needleWidth needleHeight)
                             needleBuffer (calculateMean needleBuffer)
                             (calculateStdDev needleBuffer (calculateMean needleBuffer)))
                          (Region.new x y needleWidth needleHeight) None]
                  else matches)
               (fun x => windowLog haystackBuffer haystackWidth
                                   needleWidth needleHeight (x, y))).
      intros st' x. unfold bind_log. rewrite calculateNCCLogged_spec.
      cbn [fst snd ret_log]. unfold windowLog. cbn [fst snd].
      now rewrite app_nil_r.
Qed.

(** ** The general branch *)

Lemma findMatches_general (codec : Image.t -> string + list byte)
      (matchRequest : MatchRequest.t) (haystackBuffer needleBuffer : list byte) :
  needleTooLarge matchRequest = false ->
  codec (MatchRequest.haystack matchRequest) = inr haystackBuffer ->
  codec (MatchRequest.needle matchRequest) = inr needleBuffer ->
  PrimFloat.eqb (calculateStdDev needleBuffer (calculateMean needleBuffer)) 0%float = false ->
  findMatches codec matchRequest
  = Return (generalMatches haystackBuffer
              (Image.width (MatchRequest.haystack matchRequest))
              (Image.height (MatchRequest.haystack matchRequest))
              needleBuffer
              (Image.width (MatchRequest.needle matchRequest))
              (Image.height (MatchRequest.needle matchRequest))
              (threshold matchRequest)).
Proof.
  intros Hv Hh Hn Hsd.
  rewrite (findMatches_scan codec matchRequest _ _ Hv Hh Hn).
  now rewrite (templateMatch_general _ _ _ _ _ _ _ Hsd).
Qed.

Lemma in_generalMatches (haystackBuffer : list byte)
      (haystackWidth haystackHeight : nat) (needleBuffer : list byte)
      (needleWidth needleHeight : nat) (minConfidence : float) (m : MatchResult.t) :
  In m (generalMatches haystackBuffer haystackWidth haystackHeight needleBuffer
                       needleWidth needleHeight minConfidence)
  <-> exists x y,
      m = MatchResult.new
            (confidenceAt haystackBuffer haystackWidth needleBuffer
                          needleWidth needleHeight (x, y))
            (Region.new x y needleWidth needleHeight) None
      /\ (Z.of_nat x <= Z.of_nat haystackWidth - Z.of_nat needleWidth)%Z
      /\ (Z.of_nat y <= Z.of_nat haystackHeight - Z.of_nat needleHeight)%Z
      /\ PrimFloat.leb minConfidence
           (confidenceAt haystackBuffer haystackWidth needleBuffer
                         needleWidth needleHeight (x, y)) = true.
Proof.
  unfold generalMatches. rewrite in_map_iff. split.
  - intros ([x y] & <- & Hin). apply filter_In in Hin as [Hin Hle].
    apply in_raster in Hin. exists x, y. cbn. tauto.
  - intros (x & y & -> & Hx & Hy & Hle). exists (x, y). split; [reflexivity|].
    apply filter_In. split; [now apply in_raster|exact Hle].
Qed.

Lemma generalMatches_sorted (haystackBuffer : list byte)
      (haystackWidth haystackHeight : nat) (needleBuffer : list byte)
      (needleWidth needleHeight : nat) (minConfidence : float) :
  StronglySorted raster_lt
    (map MatchResult.location
         (generalMatches haystackBuffer haystackWidth haystackHeight needleBuffer
                         needleWidth needleHeight minConfidence)).
Proof.
  unfold generalMatches. rewrite map_map. cbn.
  apply (sorted_map offset_lt); [|apply sorted_filter, raster_sorted].
  intros a b Hab. exact Hab.
Qed.

Lemma raster_nat (haystackWidth haystackHeight needleWidth needleHeight : nat) :
  needleWidth <= haystackWidth -> needleHeight <= haystackHeight ->
  raster (Z.of_nat haystackWidth - Z.of_nat needleWidth)
         (Z.of_nat haystackHeight - Z.of_nat needleHeight)
  = flat_map (fun y => map (fun x => (x, y)) (seq 0 (haystackWidth - needleWidth + 1)))
             (seq 0 (haystackHeight - needleHeight + 1)).
Proof.
  intros Hw Hh. unfold raster, upto.
  replace (Z.to_nat (Z.of_nat haystackWidth - Z.of_nat needleWidth + 1))
    with (haystackWidth - needleWidth + 1) by lia.
  replace (Z.to_nat (Z.of_nat haystackHeight - Z.of_nat needleHeight + 1))
    with (haystackHeight - needleHeight + 1) by lia.
  reflexivity.
Qed.

(** C9: with a needle of non-zero standard deviation, [findMatches] visits
    the candidate offsets row by row ([y] from 0 to
    [haystackHeight - needleHeight] in the outer loop, [x] from 0 to
    [haystackWidth - needleWidth] in the inner loop): after the two
    statistics calls on the needle, the windows are handed to the
    statistics functions in that order.  It returns the candidates that
    reach the threshold in the same order: the returned list is the raster
    enumeration filtered by the threshold test, so its regions are strictly
    increasing in raster order, whatever the confidences are. *)
Theorem C9_general_branch_raster_order (codec : Image.t -> string + list byte)
        (matchRequest : MatchRequest.t) (haystackBuffer needleBuffer : list byte) :
  Image.width (MatchRequest.needle matchRequest)
    <= Image.width (MatchRequest.haystack matchRequest) ->
  Image.height (MatchRequest.needle matchRequest)
    <= Image.height (MatchRequest.haystack matchRequest) ->
  codec (MatchRequest.haystack matchRequest) = inr haystackBuffer ->
  codec (MatchRequest.needle matchRequest) = inr needleBuffer ->
  PrimFloat.eqb (calculateStdDev needleBuffer (calculateMean needleBuffer)) 0%float = false ->
  exists matches,
    findMatches codec matchRequest = Return matches
    /\ matches
       = map (fun xy =>
                MatchResult.new
                  (confidenceAt haystackBuffer
                     (Image.width (MatchRequest.haystack matchRequest)) needleBuffer
                     (Image.width (MatchRequest.needle matchRequest))
                     (Image.height (MatchRequest.needle matchRequest)) xy)
                  (Region.new (fst xy) (snd xy)
                     (Image.width (MatchRequest.needle matchRequest))
                     (Image.height (MatchRequest.needle matchRequest)))
                  None)
             (filter
                (fun xy =>
                   PrimFloat.leb (threshold matchRequest)
                     (confidenceAt haystackBuffer
                        (Image.width (MatchRequest.haystack matchRequest)) needleBuffer
                        (Image.width (MatchRequest.needle matchRequest))
                        (Image.height (MatchRequest.needle matchRequest)) xy))
                (flat_map
                   (fun y =>
                      map (fun x => (x, y))
                          (seq 0 (Image.width (MatchRequest.haystack matchRequest)
                                  - Image.width (MatchRequest.needle matchRequest) + 1)))
                   (seq 0 (Image.height (MatchRequest.haystack matchRequest)
                           - Image.height (MatchRequest.needle matchRequest) + 1))))
    /\ StronglySorted raster_lt (map MatchResult.location matches)
    /\ templateMatchLogged haystackBuffer
         (Image.width (MatchRequest.haystack matchRequest))
         (Image.height (MatchRequest.haystack matchRequest))
         needleBuffer
         (Image.width (MatchRequest.needle matchRequest))
         (Image.height (MatchRequest.needle matchRequest))
         (threshold matchRequest)
       = (matches,
          needleBuffer :: needleBuffer ::
          flat_map
            (windowLog haystackBuffer
               (Image.width (MatchRequest.haystack matchRequest))
               (Image.width (MatchRequest.needle matchRequest))
               (Image.height (MatchRequest.needle matchRequest)))
            (flat_map
               (fun y =>
                  map (fun x => (x, y))
                      (seq 0 (Image.width (MatchRequest.haystack matchRequest)
                              - Image.width (MatchRequest.needle matchRequest) + 1)))
               (seq 0 (Image.height (MatchRequest.haystack matchRequest)
                       - Image.height (MatchRequest.needle matchRequest) + 1)))).
Proof.
  intros Hw Hh Hhay Hndl Hsd.
  assert (Hv : needleTooLarge matchRequest = false) by (apply validation_passes; auto).
  eexists. split; [exact (findMatches_general codec matchRequest _ _ Hv Hhay Hndl Hsd)|].
  rewrite templateMatchLogged_spec, Hsd, (templateMatch_general _ _ _ _ _ _ _ Hsd).
  unfold generalMatches at 1 3. rewrite (raster_nat _ _ _ _ Hw Hh).
  split; [reflexivity|]. split; [apply generalMatches_sorted|reflexivity].
Qed.

(** ** Threshold monotonicity *)

Lemma templateMatch_threshold_monotone (haystackBuffer : list byte)
      (haystackWidth haystackHeight : nat) (needleBuffer : list byte)
      (needleWidth needleHeight : nat) (t1 t2 : float) (m : MatchResult.t) :
  PrimFloat.ltb t1 t2 = true ->
  In m (templateMatch haystackBuffer haystackWidth haystackHeight needleBuffer
                      needleWidth needleHeight t2) ->
  In m (templateMatch haystackBuffer haystackWidth haystackHeight needleBuffer
                      needleWidth needleHeight t1).
Proof.
  intros Hlt.
  destruct (PrimFloat.eqb (calculateStdDev needleBuffer (calculateMean needleBuffer)) 0%float)
    eqn:Hsd.
  - rewrite !(templateMatch_uniform _ _ _ _ _ _ _ Hsd), !findUniformMatches_raster.
    auto.
  - rewrite !(templateMatch_general _ _ _ _ _ _ _ Hsd).
    fold (generalMatches haystackBuffer haystackWidth haystackHeight needleBuffer
                         needleWidth needleHeight t2).
    fold (generalMatches haystackBuffer haystackWidth haystackHeight needleBuffer
                         needleWidth needleHeight t1).
    rewrite !in_generalMatches.
    intros (x & y & Hm & Hx & Hy & Hle). exists x, y.
    repeat split; try assumption. exact (ltb_leb_trans _ _ _ Hlt Hle).
Qed.

(** C6: for thresholds [t1 < t2] and the same haystack and needle, every
    match that [findMatches] returns at [t2] is also returned at [t1]; in
    particular the regions matched at [t2] are among those matched at
    [t1]. *)
Theorem C6_threshold_monotonicity (codec : Image.t -> string + list byte)
        (haystack needle : Image.t) (t1 t2 : float) (matches2 : list MatchResult.t) :
  PrimFloat.ltb t1 t2 = true ->
  findMatches codec (MatchRequest.new haystack needle (Some t2)) = Return matches2 ->
  exists matches1,
    findMatches codec (MatchRequest.new haystack needle (Some t1)) = Return matches1
    /\ (forall m, In m matches2 -> In m matches1)
    /\ (forall region, In region (map MatchResult.location matches2) ->
                       In region (map MatchResult.location matches1)).
Proof.
  intros Hlt H2.
  destruct (findMatches_returns codec _ _ H2) as (hb & nb & Hv & Hhay & Hndl & ->).
  cbn in Hhay, Hndl.
  eexists. split.
  - apply (findMatches_scan codec (MatchRequest.new haystack needle (Some t1)) hb nb);
      [exact Hv|exact Hhay|exact Hndl].
  - cbn.
    assert (Hincl : forall m,
               In m (templateMatch hb (Image.width haystack) (Image.height haystack) nb
                                   (Image.width needle) (Image.height needle) t2) ->
               In m (templateMatch hb (Image.width haystack) (Image.height haystack) nb
                                   (Image.width needle) (Image.height needle) t1))
      by (intros m; now apply templateMatch_threshold_monotone).
    split; [exact Hincl|].
    intros region Hin. apply in_map_iff in Hin as (m & <- & Hm).
    apply in_map. now apply Hincl.
Qed.

(** ** Typed arrays and [extractRegion] *)

Lemma length_subarray (buffer : list byte) (begin_ end_ : nat) :
  List.length (subarray buffer begin_ end_)
  = Nat.min (end_ - begin_) (List.length buffer - begin_).
Proof. unfold subarray. now rewrite length_firstn, length_skipn. Qed.

Lemma nth_error_subarray (buffer : list byte) (begin_ end_ i : nat) :
  i < end_ - begin_ ->
  nth_error (subarray buffer begin_ end_) i = nth_error buffer (begin_ + i).
Proof.
  intros Hi. unfold subarray. rewrite nth_error_firstn.
  destruct (Nat.ltb_spec i (end_ - begin_)); [|lia].
  now rewrite nth_error_skipn.
Qed.

Lemma length_set (target source : list byte) (offset : nat) :
  offset + List.length source <= List.length target ->
  List.length (set target source offset) = List.length target.
Proof.
  intros H. unfold set. rewrite !length_app, length_firstn, length_skipn. lia.
Qed.

Lemma nth_error_set_inside (target source : list byte) (offset i : nat) :
  offset <= List.length target -> i < List.length source ->
  nth_error (set target source offset) (offset + i) = nth_error source i.
Proof.
  intros Ho Hi. unfold set.
  rewrite nth_error_app2; rewrite length_firstn; [|lia].
  replace (offset + i - Nat.min offset (List.length target)) with i by lia.
  now rewrite nth_error_app1.
Qed.

Lemma nth_error_set_before (target source : list byte) (offset n : nat) :
  n < offset -> offset <= List.length target ->
  nth_error (set target source offset) n = nth_error target n.
Proof.
  intros Hn Ho. unfold set.
  rewrite nth_error_app1; [|rewrite length_firstn; lia].
  rewrite nth_error_firstn. destruct (Nat.ltb_spec n offset); [reflexivity|lia].
Qed.

Lemma extractRegion_rows (buffer : list byte) (width x y regionWidth regionHeight k : nat) :
  k <= regionHeight ->
  (forall j, j < k -> (y + j) * width + x + regionWidth <= List.length buffer) ->
  let done := fold_left (rowStep buffer width x y regionWidth) (seq 0 k)
                        (repeat x00 (regionWidth * regionHeight)) in
  List.length done = regionWidth * regionHeight
  /\ forall j i, j < k -> i < regionWidth ->
       nth_error done (j * regionWidth + i) = nth_error buffer ((y + j) * width + x + i).
Proof.
  intros Hk. induction k as [|k IH]; intros Hsrc; cbn zeta.
  - cbn. split; [apply repeat_length|]. intros j i Hj. lia.
  - rewrite seq_S, fold_left_app. cbn [fold_left Nat.add].
    destruct IH as [Hlen Hnth]; [lia|intros j Hj; apply Hsrc; lia|].
    set (done := fold_left (rowStep buffer width x y regionWidth) (seq 0 k)
                           (repeat x00 (regionWidth * regionHeight))) in *.
    assert (Hrow : List.length (subarray buffer ((y + k) * width + x)
                                         ((y + k) * width + x + regionWidth)) = regionWidth).
    { rewrite length_subarray. specialize (Hsrc k ltac:(lia)). lia. }
    assert (Hfit : k * regionWidth + regionWidth <= regionWidth * regionHeight) by nia.
    unfold rowStep. cbv zeta. split.
    + rewrite length_set; [exact Hlen|]. rewrite Hrow, Hlen. exact Hfit.
    + intros j i Hj Hi. destruct (Nat.eq_dec j k) as [->|Hne].
      * rewrite nth_error_set_inside; [|lia|lia].
        rewrite nth_error_subarray; [reflexivity|lia].
      * rewrite nth_error_set_before; [apply Hnth; lia| |lia].
        assert (j < k) by lia. nia.
Qed.

(** A region that lies inside the buffer is the window of the buffer at
    its offset. *)
Lemma extractRegion_nth (buffer : list byte) (width x y regionWidth regionHeight i j : nat) :
  i < regionWidth -> j < regionHeight ->
  (y + regionHeight - 1) * width + x + regionWidth <= List.length buffer ->
  nth_error (extractRegion buffer width x y regionWidth regionHeight) (j * regionWidth + i)
  = nth_error buffer ((y + j) * width + (x + i)).
Proof.
  intros Hi Hj Hlen.
  destruct (extractRegion_rows buffer width x y regionWidth regionHeight regionHeight)
    as [_ Hnth]; [lia| |].
  - intros j' Hj'. assert ((y + j') * width <= (y + regionHeight - 1) * width) by nia. lia.
  - rewrite Nat.add_assoc. apply Hnth; assumption.
Qed.

Lemma extractRegion_length (buffer : list byte) (width x y regionWidth regionHeight : nat) :
  List.length (extractRegion buffer width x y regionWidth regionHeight)
  = regionWidth * regionHeight.
Proof.
  unfold extractRegion.
  change (fun regionBuffer j => _) with (rowStep buffer width x y regionWidth).
  assert (H : forall k, k <= regionHeight ->
                List.length (fold_left (rowStep buffer width x y regionWidth) (seq 0 k)
                               (repeat x00 (regionWidth * regionHeight)))
                = regionWidth * regionHeight).
  { induction k as [|k IH]; intros Hk; [apply repeat_length|].
    rewrite seq_S, fold_left_app. cbn [fold_left Nat.add]. unfold rowStep at 1. cbv zeta.
    rewrite length_set; [apply IH; lia|].
    rewrite IH by lia. rewrite length_subarray.
    assert (k * regionWidth + regionWidth <= regionWidth * regionHeight) by nia. lia. }
  apply H. lia.
Qed.

(** ** Correctly rounded operations on normal numbers *)

(** The binary64 operations are specified on mantissa and exponent
    ([SpecFloat]).  For positive normal operands whose result stays in the
    normal range, the square root, the product and the quotient differ
    from the exact real value by a relative error of at most [2^-53]. *)

Section Rounding.

Local Open Scope R_scope.

(** *** Digits, shifts and rounding to nearest even *)

(** A positive number of [d] binary digits lies in [[2^(d-1), 2^d)]. *)
Lemma digits2_pos_range (p : positive) :
  (2 ^ (Zpos (digits2_pos p) - 1) <= Zpos p < 2 ^ Zpos (digits2_pos p))%Z.
Proof.
  induction p as [p IH|p IH|]; cbn [digits2_pos].
  - rewrite Pos2Z.inj_succ.
    replace (Z.succ (Zpos (digits2_pos p)) - 1)%Z with (Z.succ (Zpos (digits2_pos p) - 1))%Z by lia.
    rewrite !Z.pow_succ_r by lia. lia.
  - rewrite Pos2Z.inj_succ.
    replace (Z.succ (Zpos (digits2_pos p)) - 1)%Z with (Z.succ (Zpos (digits2_pos p) - 1))%Z by lia.
    rewrite !Z.pow_succ_r by lia. lia.
  - cbn. lia.
Qed.

Lemma Zdigits2_unique (m k : Z) :
  (0 < k)%Z -> (2 ^ (k - 1) <= m < 2 ^ k)%Z -> Zdigits2 m = k.
Proof.
  intros Hk [Hlo Hhi].
  destruct m as [|p|p]; [| |].
  - pose proof (Z.pow_pos_nonneg 2 (k - 1)). lia.
  - cbn [Zdigits2]. pose proof (digits2_pos_range p) as [Hl Hh].
    set (d := Zpos (digits2_pos p)) in *.
    assert (Hd : (0 < d)%Z) by (unfold d; lia).
    destruct (Z.lt_trichotomy d k) as [H|[H|H]]; [|exact H|].
    + assert (2 ^ d <= 2 ^ (k - 1))%Z by (apply Z.pow_le_mono_r; lia). lia.
    + assert (2 ^ k <= 2 ^ (d - 1))%Z by (apply Z.pow_le_mono_r; lia). lia.
  - pose proof (Z.pow_pos_nonneg 2 (k - 1)). lia.
Qed.

Lemma IZR_xO (p : positive) : IZR (Zpos p~0) = 2 * IZR (Zpos p).
Proof. rewrite Pos2Z.inj_xO, mult_IZR. reflexivity. Qed.

Lemma IZR_xI (p : positive) : IZR (Zpos p~1) = 2 * IZR (Zpos p) + 1.
Proof. rewrite Pos2Z.inj_xI, plus_IZR, mult_IZR. reflexivity. Qed.

(** One right shift halves the truncated number and keeps track of the
    lost bits. *)
Lemma shr_1_ok (x : R) (mrs : shr_record) :
  rec_ok x mrs -> rec_ok (x / 2) (shr_1 mrs).
Proof.
  destruct mrs as [m r s]. unfold rec_ok. cbn [shr_m]. intros [Hm H].
  destruct m as [|p|p]; [| |lia].
  - destruct r, s; cbn in *; split; try lia; lra.
  - destruct p as [p|p|]; destruct r, s; cbn [shr_1 shr_m loc_of_shr_record inbetween orb] in *;
      rewrite ?(IZR_xO p), ?(IZR_xI p) in H; split; try lia; lra.
Qed.

Lemma iter_shr_1_ok (n : positive) :
  forall (x : R) (mrs : shr_record),
    rec_ok x mrs -> rec_ok (x / 2 ^ Pos.to_nat n) (SpecFloat.iter_pos shr_1 n mrs).
Proof.
  induction n as [n IH|n IH|]; intros x mrs H; cbn [SpecFloat.iter_pos].
  - apply shr_1_ok in H. apply IH in H. apply IH in H.
    replace (x / 2 ^ Pos.to_nat n~1) with (x / 2 / 2 ^ Pos.to_nat n / 2 ^ Pos.to_nat n); [exact H|].
    rewrite Pos2Nat.inj_xI.
    replace (S (2 * Pos.to_nat n))%nat with (S (Pos.to_nat n + Pos.to_nat n)) by lia.
    cbn [pow]. rewrite pow_add.
    assert (2 ^ Pos.to_nat n <> 0) by (apply pow_nonzero; lra).
    field. auto.
  - apply IH in H. apply IH in H.
    replace (x / 2 ^ Pos.to_nat n~0) with (x / 2 ^ Pos.to_nat n / 2 ^ Pos.to_nat n); [exact H|].
    rewrite Pos2Nat.inj_xO.
    replace (2 * Pos.to_nat n)%nat with (Pos.to_nat n + Pos.to_nat n)%nat by lia.
    rewrite pow_add.
    assert (2 ^ Pos.to_nat n <> 0) by (apply pow_nonzero; lra).
    field. auto.
  - apply shr_1_ok in H.
    replace (x / 2 ^ Pos.to_nat 1) with (x / 2); [exact H|].
    change (Pos.to_nat 1) with 1%nat. cbn [pow]. field.
Qed.

Lemma loc_of_shr_record_of_loc (m : Z) (l : location) :
  loc_of_shr_record (shr_record_of_loc m l) = l.
Proof. destruct l as [|[]]; reflexivity. Qed.

Lemma shr_m_of_loc (m : Z) (l : location) : shr_m (shr_record_of_loc m l) = m.
Proof. destruct l as [|[]]; reflexivity. Qed.

(** Rounding to nearest moves by at most one half. *)
Lemma round_nearest_even_ok (x : R) (m : Z) (l : location) :
  inbetween x m l ->
  (m <= round_nearest_even m l <= m + 1)%Z
  /\ Rabs (IZR (round_nearest_even m l) - x) <= / 2.
Proof.
  intros H. destruct l as [|[]]; cbn [round_nearest_even inbetween] in *.
  - split; [lia|]. subst x. rewrite Rminus_diag, Rabs_R0. lra.
  - destruct (Z.even m).
    + split; [lia|]. subst x. apply Rabs_le. lra.
    + split; [lia|]. subst x. rewrite plus_IZR. apply Rabs_le. lra.
  - split; [lia|]. apply Rabs_le. lra.
  - split; [lia|]. rewrite plus_IZR. apply Rabs_le. lra.
Qed.
(** *** Powers of two *)

Lemma bpow_pos (e : Z) : 0 < bpow e.
Proof. apply powerRZ_lt. lra. Qed.

Lemma bpow_add (a b : Z) : bpow (a + b) = bpow a * bpow b.
Proof. apply powerRZ_add. lra. Qed.

Lemma bpow_nat (k : nat) : bpow (Z.of_nat k) = 2 ^ k.
Proof. unfold bpow. now rewrite <- pow_powerRZ. Qed.

Lemma bpow_IZR (k : Z) : (0 <= k)%Z -> bpow k = IZR (2 ^ k).
Proof.
  intros Hk. rewrite <- (Z2Nat.id k Hk) at 1. rewrite bpow_nat.
  rewrite pow_IZR. now rewrite Z2Nat.id.
Qed.

Lemma bpow_le (a b : Z) : (a <= b)%Z -> bpow a <= bpow b.
Proof.
  intros H. replace b with (a + Z.of_nat (Z.to_nat (b - a)))%Z
    by (rewrite Z2Nat.id; lia).
  rewrite bpow_add, bpow_nat.
  assert (1 <= 2 ^ Z.to_nat (b - a)) by (apply pow_R1_Rle; lra).
  pose proof (bpow_pos a). nra.
Qed.

Lemma bpow_succ (a : Z) : bpow (a + 1) = 2 * bpow a.
Proof.
  rewrite bpow_add, (bpow_IZR 1) by lia. change (2 ^ 1)%Z with 2%Z. lra.
Qed.

Lemma bpow_opp (a : Z) : bpow (- a) = / bpow a.
Proof.
  pose proof (bpow_pos a).
  apply Rmult_eq_reg_l with (bpow a); [|lra].
  rewrite <- bpow_add, Z.add_opp_diag_r, Rinv_r by lra. reflexivity.
Qed.

Lemma bpow_1 : bpow 1 = 2.
Proof. rewrite (bpow_IZR 1) by lia. reflexivity. Qed.

Lemma inbetween_bounds (x : R) (m : Z) (l : location) :
  inbetween x m l -> IZR m <= x < IZR m + 1.
Proof. destruct l as [|[]]; cbn; lra. Qed.

Lemma shr_ok (x : R) (mrs : shr_record) (e n : Z) :
  (0 <= n)%Z -> rec_ok x mrs ->
  snd (shr mrs e n) = (e + n)%Z
  /\ rec_ok (x / 2 ^ Z.to_nat n) (fst (shr mrs e n)).
Proof.
  intros Hn H. destruct n as [|p|p]; [| |lia]; cbn [shr fst snd].
  - split; [lia|]. cbn. now replace (x / 1) with x by field.
  - split; [reflexivity|]. rewrite Z2Nat.inj_pos. now apply iter_shr_1_ok.
Qed.

(** *** The rounding step of every operation

    A mantissa of at least 53 bits that truncates [x], with a result in
    the normal range, is rounded to a 53-bit mantissa within half a unit
    in the last place of [x * 2^ex]. *)
Lemma binary_round_aux_normal (sx : bool) (mx ex : Z) (lx : location) (x : R) :
  (2 ^ 52 <= mx)%Z ->
  inbetween x mx lx ->
  (-1074 <= Zdigits2 mx + ex - 53)%Z ->
  (Zdigits2 mx + ex - 53 + 1 <= 971)%Z ->
  exists (m : positive) (e' : Z),
    binary_round_aux prec emax sx mx ex lx = S754_finite sx m e'
    /\ (2 ^ 52 <= Zpos m < 2 ^ 53)%Z
    /\ (Zdigits2 mx + ex - 53 <= e' <= Zdigits2 mx + ex - 53 + 1)%Z
    /\ Rabs (IZR (Zpos m) * bpow e' - x * bpow ex) <= bpow (Zdigits2 mx + ex - 53) / 2
    /\ bpow 52 * bpow (Zdigits2 mx + ex - 53) <= x * bpow ex.
Proof.
  intros Hmx Hx Hlo Hhi.
  set (d := Zdigits2 mx) in *.
  assert (Hd : (2 ^ (d - 1) <= mx < 2 ^ d)%Z /\ (53 <= d)%Z).
  { destruct mx as [|p|p]; [lia| |lia].
    pose proof (digits2_pos_range p) as Hr. cbn [Zdigits2] in d. fold d in Hr.
    split; [exact Hr|].
    destruct (Z_lt_le_dec d 53) as [Hlt|]; [|assumption].
    assert (2 ^ d <= 2 ^ 52)%Z by (apply Z.pow_le_mono_r; lia). lia. }
  destruct Hd as [Hrange Hd].
  set (e := (d + ex - 53)%Z) in *.
  set (n := (d - 53)%Z).
  unfold binary_round_aux, shr_fexp.
  assert (Hfexp : fexp prec emax (d + ex) = e).
  { unfold fexp, emin, prec, emax. fold d. lia. }
  fold d. rewrite Hfexp.
  replace (e - ex)%Z with n by (unfold e, n; lia).
  assert (Hrec : rec_ok x (shr_record_of_loc mx lx)).
  { split; rewrite ?shr_m_of_loc, ?loc_of_shr_record_of_loc; [lia|exact Hx]. }
  destruct (shr_ok x _ ex n ltac:(unfold n; lia) Hrec) as [He' [Hm1 Hin1]].
  destruct (shr (shr_record_of_loc mx lx) ex n) as [mrs' e1]. cbn [fst snd] in *.
  replace (ex + n)%Z with e in He' by (unfold e, n; lia). subst e1.
  set (m1 := shr_m mrs') in *. set (l1 := loc_of_shr_record mrs') in *.
  set (y := x / 2 ^ Z.to_nat n) in *.
  (* ranges *)
  pose proof (inbetween_bounds _ _ _ Hx) as Hxb.
  pose proof (inbetween_bounds _ _ _ Hin1) as Hyb.
  assert (Hpn : 0 < 2 ^ Z.to_nat n) by (apply pow_lt; lra).
  assert (Hxlo : bpow 52 * 2 ^ Z.to_nat n <= x).
  { apply Rle_trans with (IZR mx); [|lra].
    rewrite <- bpow_nat, <- bpow_add, bpow_IZR by lia.
    apply IZR_le. rewrite Z2Nat.id by (unfold n; lia).
    replace (52 + n)%Z with (d - 1)%Z by (unfold n; lia). lia. }
  assert (Hxhi : x < bpow 53 * 2 ^ Z.to_nat n).
  { apply Rlt_le_trans with (IZR mx + 1); [lra|].
    rewrite <- bpow_nat, <- bpow_add, bpow_IZR by lia.
    rewrite <- plus_IZR. apply IZR_le. rewrite Z2Nat.id by (unfold n; lia).
    replace (53 + n)%Z with d by (unfold n; lia). lia. }
  assert (Hylo : bpow 52 <= y).
  { unfold y. apply Rmult_le_reg_r with (2 ^ Z.to_nat n); [exact Hpn|].
    unfold Rdiv. rewrite Rmult_assoc, Rinv_l by lra. lra. }
  assert (Hyhi : y < bpow 53).
  { unfold y. apply Rmult_lt_reg_r with (2 ^ Z.to_nat n); [exact Hpn|].
    unfold Rdiv. rewrite Rmult_assoc, Rinv_l by lra. lra. }
  assert (Hm1r : (2 ^ 52 <= m1 < 2 ^ 53)%Z).
  { rewrite !bpow_IZR in * by lia. split.
    - assert (IZR (2 ^ 52) < IZR (m1 + 1)) by (rewrite plus_IZR; lra).
      apply lt_IZR in H. lia.
    - apply lt_IZR. lra. }
  destruct (round_nearest_even_ok y m1 l1 Hin1) as [Hm2 Herr].
  set (m2 := round_nearest_even m1 l1) in *.
  assert (Hscale : x * bpow ex = y * bpow e).
  { unfold y. replace e with (ex + Z.of_nat (Z.to_nat n))%Z
      by (rewrite Z2Nat.id; unfold e, n; lia).
    rewrite bpow_add, bpow_nat. field. lra. }
  assert (Hbe : 0 < bpow e) by apply bpow_pos.
  assert (Hlow : bpow 52 * bpow e <= x * bpow ex).
  { rewrite Hscale. apply Rmult_le_compat_r; lra. }
  destruct (Z.eq_dec m2 (2 ^ 53)) as [Hcarry|Hnocarry].
  - rewrite Hcarry. 
    assert (Hn1 : (fexp prec emax (Zdigits2 (2 ^ 53) + e) - e = 1)%Z).
    { change (Zdigits2 (2 ^ 53)) with 54%Z. unfold fexp, emin, prec, emax. lia. }
    rewrite Hn1. cbn [shr shr_record_of_loc SpecFloat.iter_pos].
    change (shr_1 {| shr_m := 2 ^ 53; shr_r := false; shr_s := false |})
      with {| shr_m := 2 ^ 52; shr_r := false; shr_s := false |}.
    cbn [shr_m]. change (2 ^ 52)%Z with (Zpos (2 ^ 52)).
    replace (e + 1 <=? emax - prec)%Z with true
      by (symmetry; apply Z.leb_le; unfold emax, prec; lia).
    exists (2 ^ 52)%positive, (e + 1)%Z.
    repeat split; try lia; [|exact Hlow].
    rewrite Hscale, bpow_succ.
    replace (IZR (Zpos (2 ^ 52)) * (2 * bpow e) - y * bpow e)
      with ((IZR m2 - y) * bpow e)
      by (rewrite Hcarry; change (2 ^ 53)%Z with (2 * Zpos (2 ^ 52))%Z;
          rewrite mult_IZR; ring).
    rewrite Rabs_mult, (Rabs_pos_eq (bpow e)) by lra.
    apply Rle_trans with (/ 2 * bpow e); [|lra].
    apply Rmult_le_compat_r; lra.
  - assert (Hm2r : (2 ^ 52 <= m2 < 2 ^ 53)%Z) by lia.
    assert (Hn0 : (fexp prec emax (Zdigits2 m2 + e) - e = 0)%Z).
    { rewrite (Zdigits2_unique m2 53) by lia. unfold fexp, emin, prec, emax. lia. }
    rewrite Hn0. cbn [shr shr_record_of_loc shr_m].
    destruct m2 as [|p|p] eqn:Hp; [lia| |lia].
    replace (e <=? emax - prec)%Z with true
      by (symmetry; apply Z.leb_le; unfold emax, prec; lia).
    exists p, e. repeat split; try lia; [|exact Hlow].
    rewrite Hscale.
    replace (IZR (Zpos p) * bpow e - y * bpow e) with ((IZR (Zpos p) - y) * bpow e) by ring.
    rewrite Rabs_mult, (Rabs_pos_eq (bpow e)) by lra.
    apply Rle_trans with (/ 2 * bpow e); [|lra].
    apply Rmult_le_compat_r; lra.
Qed.
Lemma Zdigits2_bounds (m a b : Z) :
  (0 <= a)%Z -> (2 ^ a <= m < 2 ^ b)%Z -> (a + 1 <= Zdigits2 m <= b)%Z.
Proof.
  intros Ha [Hlo Hhi].
  destruct m as [|p|p]; [pose proof (Z.pow_pos_nonneg 2 a); lia| |pose proof (Z.pow_pos_nonneg 2 a); lia].
  cbn [Zdigits2]. pose proof (digits2_pos_range p) as [Hl Hh].
  set (d := Zpos (digits2_pos p)) in *.
  assert (Hd : (0 < d)%Z) by (unfold d; lia).
  split.
  - destruct (Z_lt_le_dec d (a + 1)) as [H|H]; [|exact H].
    assert (2 ^ d <= 2 ^ a)%Z by (apply Z.pow_le_mono_r; lia). lia.
  - destruct (Z_lt_le_dec b d) as [H|H]; [|exact H].
    assert (0 <= b)%Z.
    { destruct (Z_lt_le_dec b 0) as [Hb|Hb]; [|exact Hb].
      rewrite (Z.pow_neg_r 2 b Hb) in Hhi. lia. }
    assert (2 ^ b <= 2 ^ (d - 1))%Z by (apply Z.pow_le_mono_r; lia). lia.
Qed.

(** The same with a relative error of [2^-53]. *)
Lemma binary_round_aux_rel (sx : bool) (mx ex : Z) (lx : location) (x : R) :
  (2 ^ 52 <= mx)%Z ->
  inbetween x mx lx ->
  (-1074 <= Zdigits2 mx + ex - 53)%Z ->
  (Zdigits2 mx + ex - 53 + 1 <= 971)%Z ->
  exists (m : positive) (e' : Z),
    binary_round_aux prec emax sx mx ex lx = S754_finite sx m e'
    /\ (2 ^ 52 <= Zpos m < 2 ^ 53)%Z
    /\ (Zdigits2 mx + ex - 53 <= e' <= Zdigits2 mx + ex - 53 + 1)%Z
    /\ Rabs (IZR (Zpos m) * bpow e' - x * bpow ex) <= x * bpow ex * bpow (-53).
Proof.
  intros Hmx Hx Hlo Hhi.
  destruct (binary_round_aux_normal sx mx ex lx x Hmx Hx Hlo Hhi)
    as (m & e' & Heq & Hm & He & Herr & Hlow).
  exists m, e'. repeat split; try assumption; try lia.
  eapply Rle_trans; [exact Herr|].
  set (e := (Zdigits2 mx + ex - 53)%Z) in *.
  assert (H53 : bpow 52 * bpow (-53) = / 2).
  { rewrite <- bpow_add. change (52 + -53)%Z with (- (1))%Z.
    rewrite bpow_opp, bpow_1. reflexivity. }
  pose proof (bpow_pos (-53)). pose proof (bpow_pos e).
  replace (bpow e / 2) with (bpow 52 * bpow e * bpow (-53)).
  - apply Rmult_le_compat_r; lra.
  - replace (bpow 52 * bpow e * bpow (-53)) with (bpow 52 * bpow (-53) * bpow e) by ring.
    rewrite H53. lra.
Qed.

(** *** Product, quotient and square root of normal numbers *)

Lemma SFmul_normal (mx : positive) (ex : Z) (my : positive) (ey : Z) :
  (2 ^ 52 <= Zpos mx < 2 ^ 53)%Z ->
  (2 ^ 52 <= Zpos my < 2 ^ 53)%Z ->
  (-1126 <= ex + ey)%Z ->
  (ex + ey <= 917)%Z ->
  exists (m : positive) (e : Z),
    SFmul prec emax (S754_finite false mx ex) (S754_finite false my ey)
    = S754_finite false m e
    /\ (2 ^ 52 <= Zpos m < 2 ^ 53)%Z
    /\ (ex + ey + 52 <= e <= ex + ey + 54)%Z
    /\ Rabs (IZR (Zpos m) * bpow e - IZR (Zpos mx) * bpow ex * (IZR (Zpos my) * bpow ey))
       <= IZR (Zpos mx) * bpow ex * (IZR (Zpos my) * bpow ey) * bpow (-53).
Proof.
  intros Hmx Hmy Hlo Hhi. cbn [SFmul xorb].
  assert (Hprod : (2 ^ 104 <= Zpos (mx * my) < 2 ^ 106)%Z).
  { rewrite Pos2Z.inj_mul.
    change (2 ^ 104)%Z with (2 ^ 52 * 2 ^ 52)%Z.
    change (2 ^ 106)%Z with (2 ^ 53 * 2 ^ 53)%Z. nia. }
  pose proof (Zdigits2_bounds _ 104 106 ltac:(lia) Hprod) as Hd.
  destruct (binary_round_aux_rel false (Zpos (mx * my)) (ex + ey) loc_Exact
              (IZR (Zpos (mx * my))))
    as (m & e & Heq & Hm & He & Herr).
  - change (2 ^ 52)%Z with 4503599627370496%Z.
    change (2 ^ 104)%Z with 20282409603651670423947251286016%Z in Hprod. lia.
  - reflexivity.
  - lia.
  - lia.
  - exists m, e. repeat split; try assumption; try lia.
    replace (IZR (Zpos mx) * bpow ex * (IZR (Zpos my) * bpow ey))
      with (IZR (Zpos (mx * my)) * bpow (ex + ey)); [exact Herr|].
    rewrite Pos2Z.inj_mul, mult_IZR, bpow_add. ring.
Qed.

(** The location computed from the remainder of a division. *)
Lemma new_location_ok (nb q r : Z) :
  (0 < nb)%Z -> (0 <= r < nb)%Z ->
  inbetween (IZR q + IZR r / IZR nb) q (new_location nb r).
Proof.
  intros Hnb Hr.
  assert (Hnb' : 0 < IZR nb) by (apply IZR_lt; lia).
  assert (Hfrac : forall c, IZR r / IZR nb < c <-> IZR r < c * IZR nb).
  { intros c. split; intros H.
    - apply Rmult_lt_reg_r with (/ IZR nb); [now apply Rinv_0_lt_compat|].
      rewrite Rmult_assoc, Rinv_r by lra. unfold Rdiv in H. lra.
    - unfold Rdiv. apply Rmult_lt_reg_r with (IZR nb); [exact Hnb'|].
      rewrite Rmult_assoc, Rinv_l by lra. lra. }
  assert (Hfrac' : forall c, c < IZR r / IZR nb <-> c * IZR nb < IZR r).
  { intros c. split; intros H.
    - apply Rmult_lt_reg_r with (/ IZR nb); [now apply Rinv_0_lt_compat|].
      rewrite Rmult_assoc, Rinv_r by lra. unfold Rdiv in H. lra.
    - unfold Rdiv. apply Rmult_lt_reg_r with (IZR nb); [exact Hnb'|].
      rewrite Rmult_assoc, Rinv_l by lra. lra. }
  assert (Hr0 : 0 <= IZR r) by (apply IZR_le; lia).
  assert (Hr1 : IZR r < IZR nb) by (apply IZR_lt; lia).
  assert (Hmid : forall c : comparison,
             (r <> 0)%Z ->
             match c with
             | Lt => (2 * r < nb)%Z
             | Eq => (2 * r = nb)%Z
             | Gt => (nb < 2 * r)%Z
             end ->
             inbetween (IZR q + IZR r / IZR nb) q (loc_Inexact c)).
  { intros c Hne Hc.
    assert (Hrpos : 0 < IZR r) by (apply IZR_lt; lia).
    assert (Hgt : 0 < IZR r / IZR nb) by (apply Hfrac'; lra).
    assert (Hlt : IZR r / IZR nb < 1) by (apply Hfrac; lra).
    destruct c; cbn [inbetween].
    - assert (IZR r / IZR nb = / 2) by (rewrite <- Hc, mult_IZR; field; lra).
      lra.
    - apply IZR_lt in Hc. rewrite mult_IZR in Hc.
      assert (IZR r / IZR nb < / 2) by (apply Hfrac; lra). lra.
    - apply IZR_lt in Hc. rewrite mult_IZR in Hc.
      assert (/ 2 < IZR r / IZR nb) by (apply Hfrac'; lra). lra. }
  unfold new_location.
  destruct (Z.even nb) eqn:Heven; unfold new_location_even, new_location_odd;
    (destruct (Z.eqb_spec r 0) as [Hz|Hne];
     [rewrite Hz; cbn [inbetween]; unfold Rdiv; lra|]).
  - apply Hmid; [exact Hne|].
    destruct (Z.compare_spec (2 * r) nb); lia.
  - assert (Hodd : (2 * r <> nb)%Z).
    { intros <-. rewrite Z.even_mul in Heven. discriminate. }
    destruct (Z.compare_spec (2 * r + 1) nb); apply Hmid; try exact Hne; lia.
Qed.

Lemma SFdiv_normal (mx : positive) (ex : Z) (my : positive) (ey : Z) :
  (2 ^ 52 <= Zpos mx < 2 ^ 53)%Z ->
  (2 ^ 52 <= Zpos my < 2 ^ 53)%Z ->
  (-1021 <= ex - ey)%Z ->
  (ex - ey <= 1022)%Z ->
  exists (m : positive) (e : Z),
    SFdiv prec emax (S754_finite false mx ex) (S754_finite false my ey)
    = S754_finite false m e
    /\ (2 ^ 52 <= Zpos m < 2 ^ 53)%Z
    /\ (ex - ey - 53 <= e <= ex - ey - 51)%Z
    /\ Rabs (IZR (Zpos m) * bpow e - IZR (Zpos mx) * bpow ex / (IZR (Zpos my) * bpow ey))
       <= IZR (Zpos mx) * bpow ex / (IZR (Zpos my) * bpow ey) * bpow (-53).
Proof.
  intros Hmx Hmy Hlo Hhi. cbn [SFdiv xorb]. unfold SFdiv_core_binary.
  rewrite (Zdigits2_unique (Zpos mx) 53), (Zdigits2_unique (Zpos my) 53) by lia.
  assert (He' : Z.min (fexp prec emax (53 + ex - (53 + ey))) (ex - ey) = (ex - ey - 53)%Z).
  { unfold fexp, emin, prec, emax. lia. }
  rewrite He'.
  replace (ex - ey - (ex - ey - 53))%Z with 53%Z by lia.
  rewrite Z.shiftl_mul_pow2 by lia.
  pose proof (Z_div_mod (Zpos mx * 2 ^ 53) (Zpos my) ltac:(lia)) as Hdiv.
  destruct (Z.div_eucl (Zpos mx * 2 ^ 53) (Zpos my)) as [q r].
  destruct Hdiv as [Hqr Hr].
  assert (Hq : (2 ^ 52 <= q < 2 ^ 54)%Z).
  { change (2 ^ 54)%Z with (2 * 2 ^ 53)%Z. 
    change (2 ^ 53)%Z with (2 * 2 ^ 52)%Z in *. nia. }
  pose proof (Zdigits2_bounds q 52 54 ltac:(lia) Hq) as Hd.
  assert (Hmy' : 0 < IZR (Zpos my)) by (apply IZR_lt; lia).
  destruct (binary_round_aux_rel false q (ex - ey - 53) (new_location (Zpos my) r)
              (IZR q + IZR r / IZR (Zpos my)))
    as (m & e & Heq & Hm & He & Herr).
  - lia.
  - apply new_location_ok; lia.
  - lia.
  - lia.
  - exists m, e. repeat split; try assumption; try lia.
    replace (IZR (Zpos mx) * bpow ex / (IZR (Zpos my) * bpow ey))
      with ((IZR q + IZR r / IZR (Zpos my)) * bpow (ex - ey - 53)); [exact Herr|].
    replace (IZR q + IZR r / IZR (Zpos my))
      with (IZR (Zpos mx) * bpow 53 / IZR (Zpos my)).
    + replace (ex - ey - 53)%Z with (ex + (- ey + -53))%Z by lia.
      rewrite !bpow_add.
      assert (H1 : bpow 53 * bpow (-53) = 1).
      { rewrite <- bpow_add. reflexivity. }
      assert (H2 : bpow ey * bpow (- ey) = 1).
      { rewrite <- bpow_add, Z.add_opp_diag_r. reflexivity. }
      pose proof (bpow_pos ey). pose proof (bpow_pos (- ey)).
      rewrite (bpow_opp ey).
      transitivity (IZR (Zpos mx) * bpow ex / (IZR (Zpos my) * bpow ey) * (bpow 53 * bpow (-53))).
      * field. split; lra.
      * rewrite H1. ring.
    + rewrite (bpow_IZR 53) by lia. rewrite <- mult_IZR, Hqr, plus_IZR, mult_IZR.
      field. lra.
Qed.
Lemma Rsqr_lt_inv (a b : R) : 0 <= b -> a * a < b * b -> a < b.
Proof. intros Hb H. destruct (Rlt_le_dec a b) as [|Hle]; [assumption|]. nra. Qed.

(** The location computed from the remainder of an integer square root. *)
Lemma sqrtrem_inbetween (n q r : Z) :
  (0 <= q)%Z -> n = (q * q + r)%Z -> (0 <= r <= 2 * q)%Z ->
  inbetween (R_sqrt.sqrt (IZR n)) q
            (if (r =? 0)%Z then loc_Exact
             else loc_Inexact (if (r <=? q)%Z then Lt else Gt)).
Proof.
  intros Hq Hn Hr.
  assert (Hn0 : 0 <= IZR n) by (apply IZR_le; nia).
  pose proof (sqrt_sqrt _ Hn0) as Hsq.
  pose proof (sqrt_pos (IZR n)) as Hpos.
  set (x := R_sqrt.sqrt (IZR n)) in *.
  assert (Hq' : 0 <= IZR q) by (apply IZR_le; lia).
  assert (Hval : x * x = IZR q * IZR q + IZR r).
  { rewrite Hsq, Hn, plus_IZR, mult_IZR. reflexivity. }
  assert (Hr0 : 0 <= IZR r) by (apply IZR_le; lia).
  assert (Hr2 : IZR r <= 2 * IZR q).
  { replace (2 * IZR q) with (IZR (2 * q)) by (rewrite mult_IZR; reflexivity).
    apply IZR_le. lia. }
  destruct (Z.eqb_spec r 0) as [Hz|Hne]; cbn [inbetween].
  - rewrite Hz in Hval.
    assert (x <= IZR q) by (destruct (Rle_lt_dec x (IZR q)); [assumption|nra]).
    assert (IZR q <= x) by (destruct (Rle_lt_dec (IZR q) x); [assumption|nra]).
    lra.
  - assert (Hr1 : 1 <= IZR r) by (apply IZR_le; lia).
    assert (Hlow : IZR q < x) by (apply Rsqr_lt_inv; nra).
    assert (Hupp : x < IZR q + 1) by (apply Rsqr_lt_inv; nra).
    destruct (Z.leb_spec r q) as [Hle|Hgt]; cbn [inbetween].
    + apply IZR_le in Hle. split; [exact Hlow|].
      apply Rsqr_lt_inv; nra.
    + assert (Hgt' : IZR q + 1 <= IZR r).
      { rewrite <- plus_IZR. apply IZR_le. lia. }
      split; [|exact Hupp]. apply Rsqr_lt_inv; nra.
Qed.

Lemma SFsqrt_normal (mx : positive) (ex : Z) :
  (2 ^ 52 <= Zpos mx < 2 ^ 53)%Z ->
  (-1074 <= ex <= 970)%Z ->
  exists (m : positive) (e : Z),
    SFsqrt prec emax (S754_finite false mx ex) = S754_finite false m e
    /\ (2 ^ 52 <= Zpos m < 2 ^ 53)%Z
    /\ (ex / 2 - 26 <= e <= ex / 2 - 25)%Z
    /\ Rabs (IZR (Zpos m) * bpow e - R_sqrt.sqrt (IZR (Zpos mx) * bpow ex))
       <= R_sqrt.sqrt (IZR (Zpos mx) * bpow ex) * bpow (-53).
Proof.
  intros Hmx Hex. cbn [SFsqrt]. unfold SFsqrt_core_binary.
  rewrite (Zdigits2_unique (Zpos mx) 53) by lia.
  rewrite !Z.div2_div.
  set (h := (ex / 2)%Z).
  assert (Hh : (ex = 2 * h \/ ex = 2 * h + 1)%Z).
  { pose proof (Z.div_mod ex 2 ltac:(lia)).
    pose proof (Z.mod_pos_bound ex 2 ltac:(lia)). unfold h. lia. }
  assert (Hh27 : ((53 + ex + 1) / 2 = h + 27)%Z).
  { replace (53 + ex + 1)%Z with (ex + 27 * 2)%Z by lia.
    now rewrite Z.div_add by lia. }
  assert (Hhlo : (-537 <= h)%Z) by (clearbody h; lia).
  assert (He' : Z.min (fexp prec emax ((53 + ex + 1) / 2)) h = (h - 26)%Z).
  { rewrite Hh27. unfold fexp, emin, prec, emax. clearbody h. lia. }
  rewrite He'.
  set (s := (ex - 2 * (h - 26))%Z).
  assert (Hs : (s = 52 \/ s = 53)%Z) by (unfold s; lia).
  assert (Hm' : match s with
                | Zpos _ => Z.shiftl (Zpos mx) s
                | 0%Z => Zpos mx
                | Zneg _ => 0%Z
                end = (Zpos mx * 2 ^ s)%Z).
  { destruct s as [|p|p] eqn:Hp; [lia| |lia].
    rewrite Z.shiftl_mul_pow2 by lia. reflexivity. }
  rewrite Hm'.
  set (n := (Zpos mx * 2 ^ s)%Z).
  assert (Hn : (2 ^ 104 <= n < 2 ^ 106)%Z).
  { unfold n. 
    assert (Hps : (2 ^ 52 <= 2 ^ s <= 2 ^ 53)%Z) by (destruct Hs as [-> | ->]; lia).
    change (2 ^ 104)%Z with (2 ^ 52 * 2 ^ 52)%Z.
    change (2 ^ 106)%Z with (2 ^ 53 * 2 ^ 53)%Z. nia. }
  pose proof (Z.sqrtrem_spec n ltac:(lia)) as Hspec.
  pose proof (Z.sqrtrem_sqrt n) as Hsqrt.
  destruct (Z.sqrtrem n) as [q r]. cbn [fst] in Hsqrt.
  destruct Hspec as [Hqr Hr].
  assert (Hq0 : (0 <= q)%Z) by (rewrite Hsqrt; apply Z.sqrt_nonneg).
  assert (Hq : (2 ^ 52 <= q < 2 ^ 53)%Z).
  { change (2 ^ 104)%Z with (2 ^ 52 * 2 ^ 52)%Z in Hn.
    change (2 ^ 106)%Z with (2 ^ 53 * 2 ^ 53)%Z in Hn. nia. }
  destruct (binary_round_aux_rel false q (h - 26)
              (if (r =? 0)%Z then loc_Exact
               else loc_Inexact (if (r <=? q)%Z then Lt else Gt))
              (R_sqrt.sqrt (IZR n)))
    as (m & e & Heq & Hm & He & Herr).
  - lia.
  - now apply sqrtrem_inbetween.
  - rewrite (Zdigits2_unique q 53) by lia. lia.
  - rewrite (Zdigits2_unique q 53) by lia. lia.
  - rewrite (Zdigits2_unique q 53) in He by lia.
    exists m, e. repeat split; try assumption; try lia.
    replace (R_sqrt.sqrt (IZR (Zpos mx) * bpow ex)) with (R_sqrt.sqrt (IZR n) * bpow (h - 26));
      [exact Herr|].
    symmetry. apply sqrt_lem_1.
    + pose proof (bpow_pos ex). assert (0 < IZR (Zpos mx)) by (apply IZR_lt; lia). nra.
    + pose proof (bpow_pos (h - 26)). pose proof (sqrt_pos (IZR n)). nra.
    + assert (Hn0 : 0 <= IZR n) by (apply IZR_le; lia).
      replace (R_sqrt.sqrt (IZR n) * bpow (h - 26) * (R_sqrt.sqrt (IZR n) * bpow (h - 26)))
        with (R_sqrt.sqrt (IZR n) * R_sqrt.sqrt (IZR n) * (bpow (h - 26) * bpow (h - 26))) by ring.
      rewrite sqrt_sqrt by exact Hn0.
      unfold n. rewrite mult_IZR, <- (bpow_IZR s) by lia.
      rewrite <- bpow_add, Rmult_assoc, <- bpow_add.
      f_equal. f_equal. unfold s. lia.
Qed.
Lemma Rabs_le_between (a b : R) : Rabs a <= b -> - b <= a <= b.
Proof.
  intros H. pose proof (Rle_abs a). pose proof (Rle_abs (- a)) as H'.
  rewrite Rabs_Ropp in H'. lra.
Qed.

(** *** A number divided by the square of its square root

    With three roundings of relative error [u], the quotient
    [V / (sqrt V * sqrt V)] stays within [5 u] of 1. *)
Lemma ratio_bounds (V sV S P Q u : R) :
  0 < V -> 0 < sV -> sV * sV = V -> 0 < u < / 100 ->
  Rabs (S - sV) <= sV * u ->
  Rabs (P - S * S) <= S * S * u ->
  0 < P ->
  Rabs (Q - V / P) <= V / P * u ->
  1 - 5 * u < Q < 1 + 5 * u.
Proof.
  intros HV HsV Hsq Hu HS HP HPpos HQ.
  apply Rabs_le_between in HS, HP, HQ.
  assert (HSlo : sV * (1 - u) <= S) by lra.
  assert (HShi : S <= sV * (1 + u)) by lra.
  assert (HS0 : 0 < S) by nra.
  assert (HSSlo : V * ((1 - u) * (1 - u)) <= S * S).
  { rewrite <- Hsq.
    replace (sV * sV * ((1 - u) * (1 - u))) with (sV * (1 - u) * (sV * (1 - u))) by ring.
    apply Rmult_le_compat; nra. }
  assert (HSShi : S * S <= V * ((1 + u) * (1 + u))).
  { rewrite <- Hsq.
    replace (sV * sV * ((1 + u) * (1 + u))) with (sV * (1 + u) * (sV * (1 + u))) by ring.
    apply Rmult_le_compat; nra. }
  set (lo := (1 - u) * (1 - u) * (1 - u)).
  set (hi := (1 + u) * (1 + u) * (1 + u)).
  assert (HPlo : V * lo <= P).
  { apply Rle_trans with (S * S * (1 - u)); [|lra].
    unfold lo. replace (V * ((1 - u) * (1 - u) * (1 - u)))
      with (V * ((1 - u) * (1 - u)) * (1 - u)) by ring.
    apply Rmult_le_compat_r; lra. }
  assert (HPhi : P <= V * hi).
  { apply Rle_trans with (S * S * (1 + u)); [lra|].
    unfold hi. replace (V * ((1 + u) * (1 + u) * (1 + u)))
      with (V * ((1 + u) * (1 + u)) * (1 + u)) by ring.
    apply Rmult_le_compat_r; lra. }
  assert (Hlo0 : 0 < lo) by (unfold lo; repeat apply Rmult_lt_0_compat; lra).
  assert (Hhi0 : 0 < hi) by (unfold hi; repeat apply Rmult_lt_0_compat; lra).
  set (W := V / P) in *.
  assert (HW : W * P = V) by (unfold W; field; lra).
  assert (HW0 : 0 < W) by (unfold W; apply Rdiv_lt_0_compat; lra).
  assert (HQ0 : 0 < Q) by nra.
  assert (HQPhi : Q * P <= V * (1 + u)).
  { rewrite <- HW. replace (W * P * (1 + u)) with (W * (1 + u) * P) by ring.
    apply Rmult_le_compat_r; lra. }
  assert (HQPlo : V * (1 - u) <= Q * P).
  { rewrite <- HW. replace (W * P * (1 - u)) with (W * (1 - u) * P) by ring.
    apply Rmult_le_compat_r; lra. }
  assert (H1 : Q * lo <= 1 + u).
  { apply Rmult_le_reg_l with V; [exact HV|].
    apply Rle_trans with (Q * P); [|exact HQPhi].
    replace (V * (Q * lo)) with (Q * (V * lo)) by ring.
    apply Rmult_le_compat_l; lra. }
  assert (H2 : 1 - u <= Q * hi).
  { apply Rmult_le_reg_l with V; [exact HV|].
    apply Rle_trans with (Q * P); [exact HQPlo|].
    replace (V * (Q * hi)) with (Q * (V * hi)) by ring.
    apply Rmult_le_compat_l; lra. }
  assert (Hlo' : 1 + u < (1 + 5 * u) * lo) by (unfold lo; nra).
  assert (Hhi' : (1 - 5 * u) * hi < 1 - u) by (unfold hi; nra).
  split.
  - apply Rmult_lt_reg_r with hi; [exact Hhi0|]. lra.
  - apply Rmult_lt_reg_r with lo; [exact Hlo0|]. lra.
Qed.
(** A float between [2^-1022] and [2^1000] is a positive normal number. *)
Lemma normal_of_bounds (v : float) :
  PrimFloat.leb 0x1p-1022 v = true ->
  PrimFloat.leb v 0x1p+1000 = true ->
  exists (m : positive) (e : Z),
    Prim2SF v = S754_finite false m e
    /\ (2 ^ 52 <= Zpos m < 2 ^ 53)%Z /\ (-1074 <= e <= 948)%Z.
Proof.
  rewrite !FloatAxioms.leb_spec. intros Hlo Hhi.
  pose proof (FloatAxioms.Prim2SF_valid v) as Hvalid.
  change (Prim2SF 0x1p-1022) with (S754_finite false 4503599627370496 (-1074)) in Hlo.
  change (Prim2SF 0x1p+1000) with (S754_finite false 4503599627370496 948) in Hhi.
  destruct (Prim2SF v) as [s|s| |s m e];
    [destruct s; discriminate|destruct s; discriminate|discriminate|].
  destruct s; [discriminate|].
  exists m, e. split; [reflexivity|].
  unfold valid_binary, bounded, canonical_mantissa, fexp, emin, prec, emax in Hvalid.
  apply andb_prop in Hvalid as [Hcanon _]. apply Z.eqb_eq in Hcanon.
  unfold fexp, emin in Hcanon.
  pose proof (digits2_pos_range m) as Hdig.
  set (d := Zpos (digits2_pos m)) in *.
  unfold SFleb, SFcompare in Hlo, Hhi.
  assert (He : (-1074 <= e <= 948)%Z).
  { split.
    - destruct (Z.compare_spec (-1074) e); [lia|lia|discriminate].
    - destruct (Z.compare_spec e 948); [lia|lia|discriminate]. }
  split; [|exact He].
  destruct (Z.eq_dec e (-1074)) as [->|Hne].
  - rewrite Z.compare_refl in Hlo.
    change (PosDef.Pos.compare_cont Eq 4503599627370496 m)
      with (Pos.compare 4503599627370496 m) in Hlo.
    assert (Hge : (4503599627370496 <= m)%positive).
    { destruct (Pos.compare_spec 4503599627370496 m); [lia|lia|discriminate]. }
    assert (Hd : (d <= 53)%Z) by lia.
    assert (2 ^ d <= 2 ^ 53)%Z by (apply Z.pow_le_mono_r; lia).
    lia.
  - assert (Hd : d = 53%Z) by lia. rewrite Hd in Hdig. exact Hdig.
Qed.

Lemma bpow_m53 : bpow (-53) = / 9007199254740992.
Proof. change (-53)%Z with (- (53))%Z. rewrite bpow_opp, bpow_IZR by lia. reflexivity. Qed.

Lemma self_quotient (v : float) :
  PrimFloat.leb 0x1p-1022 v = true ->
  PrimFloat.leb v 0x1p+1000 = true ->
  exists (m : positive) (e : Z),
    Prim2SF (v / (PrimFloat.sqrt v * PrimFloat.sqrt v)) = S754_finite false m e
    /\ (2 ^ 52 <= Zpos m < 2 ^ 53)%Z
    /\ 1 - 5 * bpow (-53) < IZR (Zpos m) * bpow e < 1 + 5 * bpow (-53).
Proof.
  intros Hlo Hhi.
  destruct (normal_of_bounds v Hlo Hhi) as (mv & ev & Hv & Hmv & Hev).
  rewrite FloatAxioms.div_spec, FloatAxioms.mul_spec, FloatAxioms.sqrt_spec, Hv.
  unfold SF64div, SF64mul, SF64sqrt.
  destruct (SFsqrt_normal mv ev Hmv ltac:(lia)) as (ms & es & -> & Hms & Hes & HS).
  assert (Hh : (ev = 2 * (ev / 2) \/ ev = 2 * (ev / 2) + 1)%Z).
  { pose proof (Z.div_mod ev 2 ltac:(lia)).
    pose proof (Z.mod_pos_bound ev 2 ltac:(lia)). lia. }
  set (h := (ev / 2)%Z) in *. clearbody h.
  destruct (SFmul_normal ms es ms es Hms Hms ltac:(lia) ltac:(lia))
    as (mp & ep & -> & Hmp & Hep & HP).
  destruct (SFdiv_normal mv ev mp ep Hmv Hmp ltac:(lia) ltac:(lia))
    as (mq & eq & -> & Hmq & Heq & HQ).
  exists mq, eq. split; [reflexivity|]. split; [exact Hmq|].
  set (V := IZR (Zpos mv) * bpow ev) in *.
  assert (HV : 0 < V).
  { unfold V. apply Rmult_lt_0_compat; [apply IZR_lt; lia|apply bpow_pos]. }
  apply (ratio_bounds V (R_sqrt.sqrt V) (IZR (Zpos ms) * bpow es) (IZR (Zpos mp) * bpow ep)).
  - exact HV.
  - now apply sqrt_lt_R0.
  - apply sqrt_sqrt. lra.
  - rewrite bpow_m53. lra.
  - exact HS.
  - exact HP.
  - apply Rmult_lt_0_compat; [apply IZR_lt; lia|apply bpow_pos].
  - exact HQ.
Qed.

(** The normal numbers within [5 * 2^-53] of 1: four below 1, 1 itself
    and two above. *)
Lemma near_one_candidates (m : positive) (e : Z) :
  (2 ^ 52 <= Zpos m < 2 ^ 53)%Z ->
  1 - 5 * bpow (-53) < IZR (Zpos m) * bpow e < 1 + 5 * bpow (-53) ->
  (e = (-53)%Z /\ (2 ^ 53 - 5 < Zpos m)%Z) \/ (e = (-52)%Z /\ (Zpos m < 2 ^ 52 + 3)%Z).
Proof.
  intros Hm. rewrite bpow_m53. intros [Hlo Hhi].
  assert (Hm1 : IZR 4503599627370496 <= IZR (Zpos m)) by (apply IZR_le; lia).
  assert (Hm2 : IZR (Zpos m) < IZR 9007199254740992) by (apply IZR_lt; lia).
  pose proof (bpow_pos e) as Hpe.
  destruct (Z_lt_le_dec e (-53)) as [Hsmall|Hge].
  - exfalso. pose proof (bpow_le e (-54) ltac:(lia)) as Hle.
    assert (H54 : bpow (-54) = / 18014398509481984).
    { change (-54)%Z with (- (54))%Z. rewrite bpow_opp, bpow_IZR by lia. reflexivity. }
    rewrite H54 in Hle. nra.
  - destruct (Z_lt_le_dec (-52) e) as [Hbig|Hle].
    + exfalso. pose proof (bpow_le (-51) e ltac:(lia)) as Hle.
      assert (H51 : bpow (-51) = / 2251799813685248).
      { change (-51)%Z with (- (51))%Z. rewrite bpow_opp, bpow_IZR by lia. reflexivity. }
      rewrite H51 in Hle. nra.
    + assert (He : e = (-53)%Z \/ e = (-52)%Z) by lia.
      destruct He as [-> | ->]; [left|right]; (split; [reflexivity|]).
      * rewrite bpow_m53 in Hlo.
        assert (H : IZR (2 ^ 53 - 5) < IZR (Zpos m)).
        { change (2 ^ 53 - 5)%Z with 9007199254740987%Z. lra. }
        now apply lt_IZR in H.
      * assert (H52 : bpow (-52) = / 4503599627370496).
        { change (-52)%Z with (- (52))%Z. rewrite bpow_opp, bpow_IZR by lia. reflexivity. }
        rewrite H52 in Hhi.
        assert (H : IZR (Zpos m) < IZR (2 ^ 52 + 3)).
        { change (2 ^ 52 + 3)%Z with 4503599627370499%Z. lra. }
        now apply lt_IZR in H.
Qed.

(** Each of the seven candidates gives a confidence between [1 - 2^-52]
    and [1 + 2^-52]. *)
Lemma self_ratio_near_one (v : float) :
  PrimFloat.leb 0x1p-1022 v = true ->
  PrimFloat.leb v 0x1p+1000 = true ->
  PrimFloat.leb 0x1.ffffffffffffep-1
                ((v / (PrimFloat.sqrt v * PrimFloat.sqrt v) + 1) / 2) = true
  /\ PrimFloat.leb ((v / (PrimFloat.sqrt v * PrimFloat.sqrt v) + 1) / 2)
                   0x1.0000000000001p+0 = true.
Proof.
  intros Hlo Hhi.
  destruct (self_quotient v Hlo Hhi) as (m & e & Hq & Hm & Hb).
  rewrite <- (FloatAxioms.SF2Prim_Prim2SF (v / (PrimFloat.sqrt v * PrimFloat.sqrt v))), Hq.
  destruct (near_one_candidates m e Hm Hb) as [[-> Hc]|[-> Hc]].
  - assert (Hcases : m = 9007199254740988%positive \/ m = 9007199254740989%positive
                     \/ m = 9007199254740990%positive \/ m = 9007199254740991%positive)
      by lia.
    destruct Hcases as [-> | [-> | [-> | ->]]]; vm_compute; auto.
  - assert (Hcases : m = 4503599627370496%positive \/ m = 4503599627370497%positive
                     \/ m = 4503599627370498%positive) by lia.
    destruct Hcases as [-> | [-> | ->]]; vm_compute; auto.
Qed.

(** *** The statistics of a byte buffer

    The sums, the mean, the deviations, their squares and the variance of
    a buffer of 1 to [2^32] bytes are zeros or normal numbers, far from
    underflow and overflow. *)

Lemma bpow_lt_inv (a b : Z) : bpow a < bpow b -> (a < b)%Z.
Proof.
  intros H. destruct (Z_lt_le_dec a b) as [|Hle]; [assumption|].
  pose proof (bpow_le b a Hle). lra.
Qed.

Lemma bpow_le_inv (a b : Z) : bpow a <= bpow b -> (a <= b)%Z.
Proof.
  intros H. destruct (Z_le_gt_dec a b) as [|Hgt]; [assumption|].
  assert (Hs : bpow (b + 1) <= bpow a) by (apply bpow_le; lia).
  rewrite bpow_succ in Hs. pose proof (bpow_pos b). lra.
Qed.

Lemma Pos_iter_xO (m d : positive) :
  Zpos (Pos.iter xO m d) = (Zpos m * 2 ^ Zpos d)%Z.
Proof.
  induction d as [|d IH] using Pos.peano_ind.
  - cbn [Pos.iter]. rewrite Pos2Z.inj_xO. lia.
  - rewrite Pos.iter_succ, Pos2Z.inj_xO, IH, Pos2Z.inj_succ, Z.pow_succ_r by lia. lia.
Qed.

Lemma shl_align_fst (mx : positive) (ex ez : Z) :
  (ez <= ex)%Z ->
  Zpos (fst (shl_align mx ex ez)) = (Zpos mx * 2 ^ (ex - ez))%Z
  /\ snd (shl_align mx ex ez) = ez.
Proof.
  intros H. unfold shl_align.
  destruct (ez - ex)%Z as [|p|p] eqn:Hd; cbn [fst snd].
  - replace (ex - ez)%Z with 0%Z by lia. split; lia.
  - lia.
  - rewrite Pos_iter_xO. replace (ex - ez)%Z with (Zpos p) by lia. split; [reflexivity|lia].
Qed.

(** Rounding after the alignment of the mantissa to 53 bits. *)
Lemma binary_round_normal (sx : bool) (mx : positive) (ex : Z) :
  (-1074 <= Zpos (digits2_pos mx) + ex - 53)%Z ->
  (Zpos (digits2_pos mx) + ex - 53 + 1 <= 971)%Z ->
  exists (m : positive) (e' : Z),
    binary_round prec emax sx mx ex = S754_finite sx m e'
    /\ (2 ^ 52 <= Zpos m < 2 ^ 53)%Z
    /\ (Zpos (digits2_pos mx) + ex - 53 <= e' <= Zpos (digits2_pos mx) + ex - 52)%Z
    /\ Rabs (IZR (Zpos m) * bpow e' - IZR (Zpos mx) * bpow ex)
       <= IZR (Zpos mx) * bpow ex * bpow (-53).
Proof.
  intros Hlo Hhi. unfold binary_round.
  pose proof (digits2_pos_range mx) as Hdig.
  set (d := Zpos (digits2_pos mx)) in *.
  assert (Hfexp : fexp prec emax (d + ex) = (d + ex - 53)%Z).
  { unfold fexp, emin, prec, emax. lia. }
  rewrite Hfexp.
  destruct (Z_lt_le_dec d 53) as [Hsmall|Hbig].
  - destruct (shl_align_fst mx ex (d + ex - 53) ltac:(lia)) as [Hfst Hsnd].
    destruct (shl_align mx ex (d + ex - 53)) as [mz ez]. cbn [fst snd] in *. subst ez.
    replace (ex - (d + ex - 53))%Z with (53 - d)%Z in Hfst by lia.
    assert (Hmz : (2 ^ 52 <= Zpos mz < 2 ^ 53)%Z).
    { rewrite Hfst.
      replace (2 ^ 52)%Z with (2 ^ (d - 1) * 2 ^ (53 - d))%Z
        by (rewrite <- Z.pow_add_r by lia; f_equal; lia).
      replace (2 ^ 53)%Z with (2 ^ d * 2 ^ (53 - d))%Z
        by (rewrite <- Z.pow_add_r by lia; f_equal; lia).
      assert (0 < 2 ^ (53 - d))%Z by (apply Z.pow_pos_nonneg; lia). nia. }
    destruct (binary_round_aux_rel sx (Zpos mz) (d + ex - 53) loc_Exact (IZR (Zpos mz)))
      as (m & e' & Heq & Hm & He & Herr).
    + lia.
    + reflexivity.
    + rewrite (Zdigits2_unique (Zpos mz) 53) by lia. lia.
    + rewrite (Zdigits2_unique (Zpos mz) 53) by lia. lia.
    + rewrite (Zdigits2_unique (Zpos mz) 53) in He by lia.
      exists m, e'. repeat split; try assumption; try lia.
      replace (IZR (Zpos mx) * bpow ex) with (IZR (Zpos mz) * bpow (d + ex - 53));
        [exact Herr|].
      rewrite Hfst, mult_IZR, <- (bpow_IZR (53 - d)) by lia.
      rewrite Rmult_assoc, <- bpow_add. f_equal. f_equal. lia.
  - assert (Hal : shl_align mx ex (d + ex - 53) = (mx, ex)).
    { unfold shl_align. destruct (d + ex - 53 - ex)%Z eqn:Hd; try reflexivity. lia. }
    rewrite Hal.
    assert (Hmx : (2 ^ 52 <= Zpos mx)%Z).
    { assert (2 ^ 52 <= 2 ^ (d - 1))%Z by (apply Z.pow_le_mono_r; lia). lia. }
    destruct (binary_round_aux_rel sx (Zpos mx) ex loc_Exact (IZR (Zpos mx)))
      as (m & e' & Heq & Hm & He & Herr).
    + exact Hmx.
    + reflexivity.
    + cbn [Zdigits2]. fold d. lia.
    + cbn [Zdigits2]. fold d. lia.
    + cbn [Zdigits2] in He. fold d in He.
      exists m, e'. repeat split; try assumption; try lia.
Qed.

Lemma SF2R_finite_pos (m : positive) (e : Z) : 0 < IZR (Zpos m) * bpow e.
Proof. apply Rmult_lt_0_compat; [apply IZR_lt; lia|apply bpow_pos]. Qed.

(** Exponent of a normal number from bounds on its value. *)
Lemma exponent_lower (m : positive) (e l : Z) :
  (Zpos m < 2 ^ 53)%Z -> bpow l <= IZR (Zpos m) * bpow e -> (l - 52 <= e)%Z.
Proof.
  intros Hm H.
  assert (IZR (Zpos m) < bpow 53) by (rewrite bpow_IZR by lia; apply IZR_lt; lia).
  pose proof (bpow_pos e).
  assert (bpow l < bpow (53 + e)) by (rewrite bpow_add; nra).
  apply bpow_lt_inv in H2. lia.
Qed.

Lemma exponent_upper (m : positive) (e h : Z) :
  (2 ^ 52 <= Zpos m)%Z -> IZR (Zpos m) * bpow e <= bpow h -> (e <= h - 52)%Z.
Proof.
  intros Hm H.
  assert (bpow 52 <= IZR (Zpos m)) by (rewrite bpow_IZR by lia; apply IZR_le; lia).
  pose proof (bpow_pos e).
  assert (bpow (52 + e) <= bpow h) by (rewrite bpow_add; nra).
  apply bpow_le_inv in H2. lia.
Qed.

Lemma value_lower (m : positive) (e : Z) :
  (2 ^ 52 <= Zpos m)%Z -> bpow (52 + e) <= IZR (Zpos m) * bpow e.
Proof.
  intros Hm.
  assert (bpow 52 <= IZR (Zpos m)) by (rewrite bpow_IZR by lia; apply IZR_le; lia).
  pose proof (bpow_pos e). rewrite bpow_add. nra.
Qed.

Lemma value_upper (m : positive) (e : Z) :
  (Zpos m < 2 ^ 53)%Z -> IZR (Zpos m) * bpow e < bpow (53 + e).
Proof.
  intros Hm.
  assert (IZR (Zpos m) < bpow 53) by (rewrite bpow_IZR by lia; apply IZR_lt; lia).
  pose proof (bpow_pos e). rewrite bpow_add. nra.
Qed.

Lemma regular_finite_lower (s : bool) (m : positive) (e : Z) :
  regular (S754_finite s m e) -> bpow (-1022) <= IZR (Zpos m) * bpow e.
Proof.
  intros [Hm He]. eapply Rle_trans; [|apply value_lower; lia].
  apply bpow_le. lia.
Qed.

(** The normalisation that ends an addition, a subtraction or the
    conversion of an integer. *)
Lemma binary_normalize_regular (M ez : Z) :
  bpow (-1022) <= Rabs (IZR M * bpow ez) ->
  Rabs (IZR M * bpow ez) <= bpow 1000 ->
  regular (binary_normalize prec emax M ez false)
  /\ Rabs (SF2R (binary_normalize prec emax M ez false) - IZR M * bpow ez)
     <= Rabs (IZR M * bpow ez) * bpow (-53)
  /\ (0 < IZR M * SF2R (binary_normalize prec emax M ez false)).
Proof.
  intros Hlo Hhi.
  pose proof (bpow_pos ez) as Hez.
  assert (Hcore : forall (sx : bool) (mx : positive),
             bpow (-1022) <= IZR (Zpos mx) * bpow ez ->
             IZR (Zpos mx) * bpow ez <= bpow 1000 ->
             exists m e',
               binary_round prec emax sx mx ez = S754_finite sx m e'
               /\ regular (S754_finite sx m e')
               /\ Rabs (IZR (Zpos m) * bpow e' - IZR (Zpos mx) * bpow ez)
                  <= IZR (Zpos mx) * bpow ez * bpow (-53)).
  { intros sx mx Hl Hh.
    pose proof (digits2_pos_range mx) as Hdig.
    set (d := Zpos (digits2_pos mx)) in *.
    assert (Hdpos : (0 < d)%Z) by (unfold d; lia).
    assert (Hd1 : (-1022 < d + ez)%Z).
    { apply bpow_lt_inv. eapply Rle_lt_trans; [exact Hl|].
      rewrite bpow_add, (bpow_IZR d) by lia.
      apply Rmult_lt_compat_r; [exact Hez|]. apply IZR_lt. lia. }
    assert (Hd2 : (d - 1 + ez <= 1000)%Z).
    { apply bpow_le_inv. eapply Rle_trans; [|exact Hh].
      rewrite bpow_add, (bpow_IZR (d - 1)) by lia.
      apply Rmult_le_compat_r; [lra|]. apply IZR_le. lia. }
    destruct (binary_round_normal sx mx ez ltac:(fold d; lia) ltac:(fold d; lia))
      as (m & e' & Heq & Hm & He & Herr).
    fold d in He.
    exists m, e'. split; [exact Heq|]. split; [|exact Herr].
    split; [exact Hm|lia]. }
  destruct M as [|p|p]; cbn [binary_normalize].
  - rewrite Rmult_0_l, Rabs_R0 in Hlo. pose proof (bpow_pos (-1022)). lra.
  - pose proof (SF2R_finite_pos p ez) as Hpos.
    rewrite (Rabs_pos_eq _ (Rlt_le _ _ Hpos)) in *.
    destruct (Hcore false p Hlo Hhi) as (m & e' & -> & Hreg & Herr).
    split; [exact Hreg|]. cbn [SF2R]. split; [exact Herr|].
    pose proof (SF2R_finite_pos m e'). assert (0 < IZR (Zpos p)) by (apply IZR_lt; lia). nra.
  - pose proof (SF2R_finite_pos p ez) as Hpos.
    assert (Hneg : IZR (Zneg p) * bpow ez = - (IZR (Zpos p) * bpow ez)).
    { change (Zneg p) with (- Zpos p)%Z. rewrite opp_IZR. ring. }
    rewrite Hneg, Rabs_Ropp, (Rabs_pos_eq _ (Rlt_le _ _ Hpos)) in *.
    destruct (Hcore true p Hlo Hhi) as (m & e' & -> & Hreg & Herr).
    split; [exact Hreg|]. cbn [SF2R]. split.
    + replace (- (IZR (Zpos m) * bpow e') - - (IZR (Zpos p) * bpow ez))
        with (- (IZR (Zpos m) * bpow e' - IZR (Zpos p) * bpow ez)) by ring.
      rewrite Rabs_Ropp. exact Herr.
    + pose proof (SF2R_finite_pos m e').
      change (Zneg p) with (- Zpos p)%Z. rewrite opp_IZR.
      assert (0 < IZR (Zpos p)) by (apply IZR_lt; lia). nra.
Qed.

Lemma aligned_value (mx : positive) (ex ez : Z) :
  (ez <= ex)%Z ->
  IZR (Zpos (fst (shl_align mx ex ez))) * bpow ez = IZR (Zpos mx) * bpow ex.
Proof.
  intros H. destruct (shl_align_fst mx ex ez H) as [-> _].
  rewrite mult_IZR, <- (bpow_IZR (ex - ez)) by lia.
  rewrite Rmult_assoc, <- bpow_add. f_equal. f_equal. lia.
Qed.

(** *** Sum, difference, square and quotient of zeros and normal numbers *)

Lemma SFadd_nonneg (x y : spec_float) :
  regular x -> regular y -> 0 <= SF2R x -> 0 <= SF2R y ->
  SF2R x <= bpow 999 -> SF2R y <= bpow 999 ->
  regular (SFadd prec emax x y)
  /\ Rabs (SF2R (SFadd prec emax x y) - (SF2R x + SF2R y))
     <= (SF2R x + SF2R y) * bpow (-53)
  /\ 0 <= SF2R (SFadd prec emax x y).
Proof.
  intros Hx Hy Hx0 Hy0 Hxh Hyh.
  pose proof (bpow_pos (-53)) as Hu.
  destruct x as [sx|sx| |sx mx ex]; try contradiction;
    destruct y as [sy|sy| |sy my ey]; try contradiction.
  - assert (Hz : exists s, SFadd prec emax (S754_zero sx) (S754_zero sy) = S754_zero s).
    { destruct sx, sy; cbn; eauto. }
    destruct Hz as [s ->]. cbn [SF2R regular]. split; [exact I|].
    rewrite Rplus_0_l, Rminus_diag, Rabs_R0. lra.
  - cbn [SFadd]. split; [exact Hy|]. cbn [SF2R] in *.
    rewrite Rplus_0_l, Rminus_diag, Rabs_R0. split; [nra|exact Hy0].
  - cbn [SFadd]. split; [exact Hx|]. cbn [SF2R] in *.
    rewrite Rplus_0_r, Rminus_diag, Rabs_R0. split; [nra|exact Hx0].
  - pose proof (SF2R_finite_pos mx ex) as Hpx.
    pose proof (SF2R_finite_pos my ey) as Hpy.
    destruct sx; [cbn [SF2R] in Hx0; lra|].
    destruct sy; [cbn [SF2R] in Hy0; lra|].
    cbn [SF2R] in *. cbn [SFadd cond_Zopp].
    set (ez := Z.min ex ey).
    set (M := (Zpos (fst (shl_align mx ex ez)) + Zpos (fst (shl_align my ey ez)))%Z).
    assert (HX : IZR M * bpow ez = IZR (Zpos mx) * bpow ex + IZR (Zpos my) * bpow ey).
    { unfold M. rewrite plus_IZR, Rmult_plus_distr_r.
      rewrite !aligned_value by (unfold ez; lia). reflexivity. }
    pose proof (regular_finite_lower _ _ _ Hx) as Hxl.
    assert (H999 : bpow 1000 = 2 * bpow 999).
    { replace 1000%Z with (999 + 1)%Z by lia. apply bpow_succ. }
    destruct (binary_normalize_regular M ez) as (Hreg & Herr & Hsign).
    + rewrite HX, Rabs_pos_eq by lra. lra.
    + rewrite HX, Rabs_pos_eq by lra. lra.
    + split; [exact Hreg|]. rewrite HX in Herr.
      rewrite (Rabs_pos_eq (IZR (Zpos mx) * bpow ex + IZR (Zpos my) * bpow ey)) in Herr
        by lra.
      split; [exact Herr|].
      assert (0 < IZR M) by (unfold M; apply IZR_lt; lia). nra.
Qed.

Lemma SFsub_nonneg (x y : spec_float) (l : Z) :
  regular x -> regular y -> 0 <= SF2R x -> 0 <= SF2R y ->
  (-970 <= l)%Z ->
  (SF2R x = 0 \/ bpow l <= SF2R x) ->
  (SF2R y = 0 \/ bpow l <= SF2R y) ->
  SF2R x <= bpow 999 -> SF2R y <= bpow 999 ->
  regular (SFsub prec emax x y)
  /\ Rabs (SF2R (SFsub prec emax x y) - (SF2R x - SF2R y))
     <= Rabs (SF2R x - SF2R y) * bpow (-53)
  /\ (SF2R x - SF2R y = 0 \/ bpow (l - 52) <= Rabs (SF2R x - SF2R y))
  /\ (SF2R x - SF2R y = 0 -> SF2R (SFsub prec emax x y) = 0).
Proof.
  intros Hx Hy Hx0 Hy0 Hl Hxl Hyl Hxh Hyh.
  pose proof (bpow_pos (-53)) as Hu.
  pose proof (bpow_le (l - 52) l ltac:(lia)) as Hll.
  destruct x as [sx|sx| |sx mx ex]; try contradiction;
    destruct y as [sy|sy| |sy my ey]; try contradiction.
  - assert (Hz : exists s, SFsub prec emax (S754_zero sx) (S754_zero sy) = S754_zero s).
    { destruct sx, sy; cbn; eauto. }
    destruct Hz as [s ->]. cbn [SF2R regular]. split; [exact I|].
    rewrite !Rminus_0_r, !Rabs_R0. repeat split; lra.
  - pose proof (SF2R_finite_pos my ey) as Hpy.
    destruct sy; [cbn [SF2R] in Hy0; lra|].
    cbn [SFsub negb SF2R regular] in *. split; [exact Hy|].
    replace (- (IZR (Zpos my) * bpow ey) - (0 - IZR (Zpos my) * bpow ey)) with 0 by ring.
    rewrite Rabs_R0. split; [|split].
    + pose proof (Rabs_pos (0 - IZR (Zpos my) * bpow ey)). nra.
    + right. rewrite Rminus_0_l, Rabs_Ropp, Rabs_pos_eq by lra.
      destruct Hyl as [|]; lra.
    + lra.
  - pose proof (SF2R_finite_pos mx ex) as Hpx.
    destruct sx; [cbn [SF2R] in Hx0; lra|].
    cbn [SFsub SF2R regular] in *. split; [exact Hx|].
    rewrite Rminus_0_r, Rminus_diag, Rabs_R0. split; [|split].
    + pose proof (Rabs_pos (IZR (Zpos mx) * bpow ex)). nra.
    + right. rewrite Rabs_pos_eq by lra. destruct Hxl as [|]; lra.
    + lra.
  - pose proof (SF2R_finite_pos mx ex) as Hpx.
    pose proof (SF2R_finite_pos my ey) as Hpy.
    destruct sx; [cbn [SF2R] in Hx0; lra|].
    destruct sy; [cbn [SF2R] in Hy0; lra|].
    cbn [SF2R] in *. cbn [SFsub cond_Zopp].
    destruct Hxl as [|Hxl]; [lra|]. destruct Hyl as [|Hyl]; [lra|].
    set (ez := Z.min ex ey).
    set (M := (Zpos (fst (shl_align mx ex ez)) - Zpos (fst (shl_align my ey ez)))%Z).
    assert (HX : IZR M * bpow ez = IZR (Zpos mx) * bpow ex - IZR (Zpos my) * bpow ey).
    { unfold M. rewrite minus_IZR, Rmult_minus_distr_r.
      rewrite !aligned_value by (unfold ez; lia). reflexivity. }
    destruct Hx as [Hmx Hex]. destruct Hy as [Hmy Hey].
    assert (Hezl : (l - 52 <= ez)%Z).
    { pose proof (exponent_lower mx ex l ltac:(lia) Hxl).
      pose proof (exponent_lower my ey l ltac:(lia) Hyl). unfold ez. lia. }
    pose proof (bpow_pos ez) as Hpez.
    destruct (Z.eq_dec M 0) as [HM0|HM0].
    + rewrite HM0. cbn [binary_normalize SF2R regular].
      rewrite HM0, Rmult_0_l in HX. rewrite <- HX, Rminus_diag, Rabs_R0.
      repeat split; lra.
    + assert (HMabs : 1 <= Rabs (IZR M)).
      { rewrite <- abs_IZR. apply IZR_le. lia. }
      assert (Hgrid : bpow (l - 52) <= Rabs (IZR M * bpow ez)).
      { rewrite Rabs_mult, (Rabs_pos_eq (bpow ez)) by lra.
        pose proof (bpow_le (l - 52) ez Hezl). nra. }
      assert (H1000 : bpow 999 <= bpow 1000) by (apply bpow_le; lia).
      destruct (binary_normalize_regular M ez) as (Hreg & Herr & Hsign).
      * eapply Rle_trans; [|exact Hgrid]. apply bpow_le. lia.
      * rewrite HX. apply Rabs_le. lra.
      * rewrite HX in *. split; [exact Hreg|]. split; [exact Herr|].
        split; [now right|].
        intros Hzero. rewrite Hzero, Rabs_R0 in Hgrid.
        pose proof (bpow_pos (l - 52)). lra.
Qed.

Lemma SFmul_square (x : spec_float) :
  regular x ->
  (SF2R x = 0 \/ bpow (-500) <= Rabs (SF2R x)) ->
  Rabs (SF2R x) <= bpow 400 ->
  regular (SFmul prec emax x x)
  /\ 0 <= SF2R (SFmul prec emax x x)
  /\ Rabs (SF2R (SFmul prec emax x x) - SF2R x * SF2R x)
     <= SF2R x * SF2R x * bpow (-53).
Proof.
  intros Hx Hlo Hhi.
  destruct x as [s|s| |s m e]; try contradiction.
  - cbn [SFmul SF2R regular]. split; [exact I|].
    rewrite Rmult_0_l, Rminus_diag, Rabs_R0. lra.
  - pose proof (SF2R_finite_pos m e) as Hpos.
    assert (Habs : Rabs (SF2R (S754_finite s m e)) = IZR (Zpos m) * bpow e).
    { destruct s; cbn [SF2R]; [rewrite Rabs_Ropp|]; apply Rabs_pos_eq; lra. }
    rewrite Habs in *.
    assert (Hsq : SF2R (S754_finite s m e) * SF2R (S754_finite s m e)
                  = IZR (Zpos m) * bpow e * (IZR (Zpos m) * bpow e)).
    { destruct s; cbn [SF2R]; ring. }
    rewrite Hsq.
    destruct Hlo as [Hz|Hlo]; [destruct s; cbn [SF2R] in Hz; lra|].
    destruct Hx as [Hm He].
    pose proof (exponent_lower m e (-500) ltac:(lia) Hlo) as He1.
    pose proof (exponent_upper m e 400 ltac:(lia) Hhi) as He2.
    destruct (SFmul_normal m e m e ltac:(lia) ltac:(lia) ltac:(lia) ltac:(lia))
      as (m' & e' & Heq & Hm' & He' & Herr).
    assert (Hs : SFmul prec emax (S754_finite s m e) (S754_finite s m e)
                 = S754_finite false m' e').
    { rewrite <- Heq. destruct s; reflexivity. }
    rewrite Hs. cbn [SF2R regular].
    pose proof (SF2R_finite_pos m' e').
    repeat split; try lia; try lra; exact Herr.
Qed.

Lemma SFdiv_nonneg (x y : spec_float) :
  regular x -> regular y -> 0 <= SF2R x -> 0 < SF2R y ->
  (SF2R x = 0 \/ bpow (-500) <= SF2R x) ->
  SF2R x <= bpow 500 ->
  bpow (-500) <= SF2R y -> SF2R y <= bpow 500 ->
  regular (SFdiv prec emax x y)
  /\ 0 <= SF2R (SFdiv prec emax x y)
  /\ Rabs (SF2R (SFdiv prec emax x y) - SF2R x / SF2R y)
     <= SF2R x / SF2R y * bpow (-53).
Proof.
  intros Hx Hy Hx0 Hy0 Hxl Hxh Hyl Hyh.
  destruct y as [sy|sy| |sy my ey]; try contradiction; [cbn [SF2R] in Hy0; lra|].
  pose proof (SF2R_finite_pos my ey) as Hpy.
  destruct sy; [cbn [SF2R] in Hy0; lra|]. cbn [SF2R] in *.
  destruct x as [sx|sx| |sx mx ex]; try contradiction.
  - cbn [SFdiv SF2R regular]. split; [exact I|].
    unfold Rdiv. rewrite Rmult_0_l, Rminus_diag, Rabs_R0. lra.
  - pose proof (SF2R_finite_pos mx ex) as Hpx.
    destruct sx; [cbn [SF2R] in Hx0; lra|]. cbn [SF2R] in *.
    destruct Hxl as [|Hxl]; [lra|].
    destruct Hx as [Hmx Hex]. destruct Hy as [Hmy Hey].
    pose proof (exponent_lower mx ex (-500) ltac:(lia) Hxl).
    pose proof (exponent_upper mx ex 500 ltac:(lia) Hxh).
    pose proof (exponent_lower my ey (-500) ltac:(lia) Hyl).
    pose proof (exponent_upper my ey 500 ltac:(lia) Hyh).
    destruct (SFdiv_normal mx ex my ey ltac:(lia) ltac:(lia) ltac:(lia) ltac:(lia))
      as (m' & e' & -> & Hm' & He' & Herr).
    cbn [SF2R regular]. pose proof (SF2R_finite_pos m' e').
    repeat split; try lia; try lra; exact Herr.
Qed.

Lemma of_uint63_regular (i : int) :
  regular (Prim2SF (of_uint63 i))
  /\ 0 <= SF2R (Prim2SF (of_uint63 i))
  /\ Rabs (SF2R (Prim2SF (of_uint63 i)) - IZR (Uint63.to_Z i))
     <= IZR (Uint63.to_Z i) * bpow (-53).
Proof.
  rewrite FloatAxioms.of_uint63_spec.
  pose proof (Uint63.to_Z_bounded i) as Hb.
  set (z := Uint63.to_Z i) in *.
  destruct (Z.eq_dec z 0) as [->|Hz].
  - cbn [binary_normalize SF2R regular]. split; [exact I|].
    rewrite Rminus_diag, Rabs_R0. lra.
  - assert (Hz1 : 1 <= IZR z) by (apply IZR_le; lia).
    assert (Hz2 : IZR z <= bpow 63).
    { rewrite bpow_IZR by lia. apply IZR_le. change wB with (2 ^ 63)%Z in Hb. lia. }
    assert (Hval : IZR z * bpow 0 = IZR z) by (unfold bpow; cbn; ring).
    pose proof (bpow_le 63 1000 ltac:(lia)).
    pose proof (bpow_le (-1022) 0 ltac:(lia)) as H0.
    change (bpow 0) with 1 in H0.
    destruct (binary_normalize_regular z 0) as (Hreg & Herr & Hsign).
    + rewrite Hval, Rabs_pos_eq by lra. lra.
    + rewrite Hval, Rabs_pos_eq by lra. lra.
    + rewrite Hval in Herr. rewrite (Rabs_pos_eq (IZR z)) in Herr by lra.
      split; [exact Hreg|]. split; [nra|exact Herr].
Qed.

Lemma bpow_pos_num (k v : Z) : (0 <= k)%Z -> (2 ^ k)%Z = v -> bpow k = IZR v.
Proof. intros Hk <-. now apply bpow_IZR. Qed.

Lemma bpow_neg_num (k v : Z) : (0 <= k)%Z -> (2 ^ k)%Z = v -> bpow (- k) = / IZR v.
Proof. intros Hk <-. rewrite bpow_opp. f_equal. now apply bpow_IZR. Qed.

Lemma add_nonneg (x y : float) :
  reg x -> reg y -> 0 <= val x -> 0 <= val y ->
  val x <= bpow 999 -> val y <= bpow 999 ->
  reg (x + y) /\ 0 <= val (x + y)
  /\ Rabs (val (x + y) - (val x + val y)) <= (val x + val y) * bpow (-53).
Proof.
  unfold reg, val. intros Hx Hy Hx0 Hy0 Hxh Hyh.
  rewrite FloatAxioms.add_spec. unfold SF64add.
  destruct (SFadd_nonneg _ _ Hx Hy Hx0 Hy0 Hxh Hyh) as (H1 & H2 & H3). auto.
Qed.

Lemma sub_nonneg (x y : float) (l : Z) :
  reg x -> reg y -> 0 <= val x -> 0 <= val y ->
  (-970 <= l)%Z ->
  (val x = 0 \/ bpow l <= val x) ->
  (val y = 0 \/ bpow l <= val y) ->
  val x <= bpow 999 -> val y <= bpow 999 ->
  reg (x - y)
  /\ Rabs (val (x - y) - (val x - val y)) <= Rabs (val x - val y) * bpow (-53)
  /\ (val x - val y = 0 \/ bpow (l - 52) <= Rabs (val x - val y))
  /\ (val x - val y = 0 -> val (x - y) = 0).
Proof.
  unfold reg, val. intros Hx Hy Hx0 Hy0 Hl Hxl Hyl Hxh Hyh.
  rewrite FloatAxioms.sub_spec. unfold SF64sub.
  now apply SFsub_nonneg.
Qed.

Lemma mul_square (x : float) :
  reg x ->
  (val x = 0 \/ bpow (-500) <= Rabs (val x)) ->
  Rabs (val x) <= bpow 400 ->
  reg (x * x) /\ 0 <= val (x * x)
  /\ Rabs (val (x * x) - val x * val x) <= val x * val x * bpow (-53).
Proof.
  unfold reg, val. intros Hx Hl Hh.
  rewrite FloatAxioms.mul_spec. unfold SF64mul. now apply SFmul_square.
Qed.

Lemma div_nonneg (x y : float) :
  reg x -> reg y -> 0 <= val x -> 0 < val y ->
  (val x = 0 \/ bpow (-500) <= val x) ->
  val x <= bpow 500 ->
  bpow (-500) <= val y -> val y <= bpow 500 ->
  reg (x / y) /\ 0 <= val (x / y)
  /\ Rabs (val (x / y) - val x / val y) <= val x / val y * bpow (-53).
Proof.
  unfold reg, val. intros Hx Hy Hx0 Hy0 Hxl Hxh Hyl Hyh.
  rewrite FloatAxioms.div_spec. unfold SF64div. now apply SFdiv_nonneg.
Qed.

Lemma of_Z_regular (z : Z) :
  (0 <= z < 2 ^ 62)%Z ->
  reg (of_uint63 (Uint63.of_Z z))
  /\ 0 <= val (of_uint63 (Uint63.of_Z z))
  /\ Rabs (val (of_uint63 (Uint63.of_Z z)) - IZR z) <= IZR z * bpow (-53).
Proof.
  intros Hz. unfold reg, val.
  pose proof (of_uint63_regular (Uint63.of_Z z)) as H.
  rewrite Uint63.of_Z_spec in H.
  rewrite Z.mod_small in H; [exact H|].
  change wB with (2 ^ 63)%Z. change (2 ^ 63)%Z with (2 * 2 ^ 62)%Z. lia.
Qed.

Lemma val_zero : val 0%float = 0.
Proof. reflexivity. Qed.

Lemma reg_zero : reg 0%float.
Proof. exact I. Qed.

Lemma INR_small (k : nat) :
  (Z.of_nat k <= 2 ^ 32)%Z -> 0 <= INR k <= 4294967296.
Proof.
  intros H. rewrite INR_IZR_INZ. split.
  - apply IZR_le. lia.
  - apply IZR_le. exact H.
Qed.

Lemma lower_step (L s v K u : R) :
  0 < L -> 0 <= u <= 1 -> 0 <= K -> K * u <= 1 ->
  L * (1 - K * u) <= s ->
  - (s * u) <= v - s ->
  L * (1 - (K + 1) * u) <= v.
Proof.
  intros HL Hu HK HKu Hs Hv.
  assert (H1 : L * (1 - K * u) * (1 - u) <= s * (1 - u))
    by (apply Rmult_le_compat_r; lra).
  assert (H2 : 0 <= L * (K * u) * u).
  { apply Rmult_le_pos; [|lra]. apply Rmult_le_pos; [lra|]. apply Rmult_le_pos; lra. }
  replace (L * (1 - (K + 1) * u))
    with (L * (1 - K * u) * (1 - u) - L * (K * u) * u) by ring.
  lra.
Qed.

(** *** The two accumulation loops *)

Lemma fold_add_ok (f : byte -> float) (L U : R) :
  0 < L -> L <= U -> U <= bpow 900 ->
  forall (buffer pre : list byte) (acc : float),
    acc_ok f L U pre acc ->
    (Z.of_nat (List.length pre + List.length buffer) <= 2 ^ 32)%Z ->
    Forall (fun b => term_ok L U (f b)) buffer ->
    acc_ok f L U (pre ++ buffer)
           (fold_left (fun acc b => (acc + f b)%float) buffer acc).
Proof.
  intros HL HLU HU. induction buffer as [|b buffer IH]; intros pre acc Hacc Hlen Hterms.
  - rewrite app_nil_r. exact Hacc.
  - cbn [fold_left]. replace (pre ++ b :: buffer) with ((pre ++ [b]) ++ buffer)
      by (rewrite <- app_assoc; reflexivity).
    inversion Hterms as [|? ? Hb Hrest]; subst.
    apply IH; [|rewrite length_app; cbn [List.length] in *; lia|exact Hrest].
    destruct Hacc as (Hreg & [Hacc0 Hacch] & Hlow).
    destruct Hb as (Htreg & [Ht0 Hth] & Htlow).
    pose proof (INR_small (List.length pre) ltac:(cbn [List.length] in Hlen; lia)) as HK.
    set (K := INR (List.length pre)) in *.
    assert (HK1 : INR (List.length (pre ++ [b])) = K + 1).
    { rewrite length_app. cbn [List.length]. rewrite Nat.add_1_r, S_INR. reflexivity. }
    assert (Hu : 0 < bpow (-53) <= / 9007199254740992) by (rewrite bpow_m53; lra).
    set (u := bpow (-53)) in *.
    assert (HUK : U * K <= bpow 900 * 4294967296).
    { apply Rmult_le_compat; lra. }
    assert (H933 : bpow 900 * 4294967296 = bpow 932).
    { replace 932%Z with (900 + 32)%Z by lia. rewrite bpow_add. f_equal.
      now rewrite (bpow_pos_num 32 4294967296) by first [lia|reflexivity]. }
    pose proof (bpow_le 933 999 ltac:(lia)) as H999.
    assert (H933' : bpow 933 = 2 * bpow 932).
    { replace 933%Z with (932 + 1)%Z by lia. apply bpow_succ. }
    pose proof (bpow_le 900 999 ltac:(lia)) as H900.
    destruct (add_nonneg acc (f b) Hreg Htreg Hacc0 Ht0 ltac:(lra) ltac:(lra))
      as (Hreg' & Hpos' & Herr).
    apply Rabs_le_between in Herr. fold u in Herr.
    set (s := val acc + val (f b)) in *.
    unfold acc_ok. rewrite HK1. split; [exact Hreg'|]. split; [split; [exact Hpos'|]|].
    + assert (Hs : s <= 2 * U * K + U) by (unfold s; lra).
      assert (HKu : (2 * K + 1) * u <= 1) by nra.
      assert (s * u <= (2 * U * K + U) * u) by (apply Rmult_le_compat_r; lra).
      assert ((2 * U * K + U) * u <= U) by nra.
      replace (2 * U * (K + 1)) with (2 * U * K + U + U) by ring.
      lra.
    + destruct Hlow as [[Hz Hall]|Hlow]; destruct Htlow as [Htz|Htlow].
      * left. assert (Hs0 : s = 0) by (unfold s; lra). rewrite Hs0 in Herr.
        split; [lra|]. apply Forall_app. split; [exact Hall|]. constructor; [exact Htz|constructor].
      * right. assert (HKu0 : 0 <= K * u) by (apply Rmult_le_pos; lra).
        assert (HKu1 : K * u <= 1) by nra.
        assert (HLK : 0 <= L * (K * u)) by (apply Rmult_le_pos; lra).
        apply (lower_step L s _ K u); try lra. unfold s. lra.
      * right. assert (HKu0 : 0 <= K * u) by (apply Rmult_le_pos; lra).
        assert (HKu1 : K * u <= 1) by nra.
        apply (lower_step L s _ K u); try lra. unfold s. lra.
      * right. assert (HKu0 : 0 <= K * u) by (apply Rmult_le_pos; lra).
        assert (HKu1 : K * u <= 1) by nra.
        assert (HLK : 0 <= L * (K * u)) by (apply Rmult_le_pos; lra).
        apply (lower_step L s _ K u); try lra. unfold s. lra.
Qed.

Lemma fold_add_result (f : byte -> float) (L U : R) (buffer : list byte) :
  0 < L -> L <= U -> U <= bpow 900 ->
  (Z.of_nat (List.length buffer) <= 2 ^ 32)%Z ->
  Forall (fun b => term_ok L U (f b)) buffer ->
  let acc := fold_left (fun acc b => (acc + f b)%float) buffer 0%float in
  reg acc
  /\ 0 <= val acc <= 2 * U * INR (List.length buffer)
  /\ ((val acc = 0 /\ Forall (fun b => val (f b) = 0) buffer) \/ L / 2 <= val acc).
Proof.
  intros HL HLU HU Hlen Hterms acc.
  assert (Hinit : acc_ok f L U [] 0%float).
  { split; [exact reg_zero|]. rewrite val_zero. cbn [List.length INR].
    split; [lra|]. left. split; [reflexivity|constructor]. }
  pose proof (fold_add_ok f L U HL HLU HU buffer [] 0%float Hinit Hlen Hterms) as H.
  cbn [app] in H. destruct H as (Hreg & Hb & Hlow).
  split; [exact Hreg|]. split; [exact Hb|].
  destruct Hlow as [Hz|Hlow]; [left; exact Hz|right].
  pose proof (INR_small _ Hlen) as HK.
  assert (Hu : 0 < bpow (-53) <= / 9007199254740992) by (rewrite bpow_m53; lra).
  set (K := INR (List.length buffer)) in *. set (u := bpow (-53)) in *.
  assert (HKu0 : 0 <= K * u) by (apply Rmult_le_pos; lra).
  assert (HKu : K * u <= / 2) by nra.
  assert (HLK : L * (K * u) <= L * / 2) by (apply Rmult_le_compat_l; lra).
  unfold acc. lra.
Qed.

Lemma rel_err_abs (v x u : R) :
  Rabs (v - x) <= Rabs x * u ->
  Rabs x * (1 - u) <= Rabs v <= Rabs x * (1 + u).
Proof.
  intros H. split.
  - pose proof (Rabs_triang_inv x v) as Ht.
    rewrite (Rabs_minus_sym x v) in Ht. lra.
  - pose proof (Rabs_triang (v - x) x) as Ht.
    replace (v - x + x) with v in Ht by ring. lra.
Qed.

Lemma u_small : 0 < bpow (-53) <= / 9007199254740992.
Proof. rewrite bpow_m53. lra. Qed.

(** *** Mean, deviations and variance *)

Lemma of_byte_ok (b : byte) : term_ok (/ 2) 256 (of_byte b).
Proof.
  unfold of_byte.
  assert (Hz : (0 <= Z.of_N (Byte.to_N b) <= 255)%Z).
  { pose proof (Byte.to_N_bounded b). lia. }
  set (z := Z.of_N (Byte.to_N b)) in *.
  destruct (of_Z_regular z ltac:(lia)) as (Hreg & Hpos & Herr).
  apply Rabs_le_between in Herr.
  pose proof u_small as Hu. set (u := bpow (-53)) in *.
  assert (Hz0 : 0 <= IZR z) by (apply IZR_le; lia).
  assert (Hz1 : IZR z <= 255) by (apply IZR_le; lia).
  assert (Hzu : 0 <= IZR z * u) by (apply Rmult_le_pos; lra).
  assert (Hzu' : IZR z * u <= 255 * u) by (apply Rmult_le_compat_r; lra).
  split; [exact Hreg|]. split; [lra|].
  destruct (Z.eq_dec z 0) as [Hzero|Hne].
  - left. assert (IZR z = 0) by (rewrite Hzero; reflexivity). nra.
  - right. assert (1 <= IZR z) by (apply IZR_le; lia). lra.
Qed.

Lemma of_nat_ok (n : nat) :
  (1 <= Z.of_nat n <= 2 ^ 32)%Z ->
  reg (of_nat n) /\ INR n / 2 <= val (of_nat n) <= 2 * INR n
  /\ 1 <= INR n <= 4294967296.
Proof.
  intros Hn. unfold of_nat.
  destruct (of_Z_regular (Z.of_nat n) ltac:(lia)) as (Hreg & Hpos & Herr).
  apply Rabs_le_between in Herr. rewrite <- INR_IZR_INZ in Herr.
  pose proof u_small as Hu. set (u := bpow (-53)) in *.
  assert (HK : 1 <= INR n <= 4294967296).
  { rewrite INR_IZR_INZ. split; apply IZR_le; lia. }
  assert (0 <= INR n * u) by (apply Rmult_le_pos; lra).
  assert (INR n * u <= INR n * / 2) by (apply Rmult_le_compat_l; lra).
  split; [exact Hreg|]. split; [lra|exact HK].
Qed.

(** Bounds on a quotient of non-negative numbers. *)
Lemma quotient_bounds (s d lo hi : R) :
  0 < d -> lo * d <= s <= hi * d -> lo <= s / d <= hi.
Proof.
  intros Hd [H1 H2]. split.
  - apply Rmult_le_reg_r with d; [exact Hd|].
    unfold Rdiv. rewrite Rmult_assoc, Rinv_l by lra. lra.
  - apply Rmult_le_reg_r with d; [exact Hd|].
    unfold Rdiv. rewrite Rmult_assoc, Rinv_l by lra. lra.
Qed.

(** The mean of 1 to [2^32] bytes is zero or lies between [2^-40] and
    2048. *)
Lemma mean_ok (buffer : list byte) :
  (1 <= Z.of_nat (List.length buffer) <= 2 ^ 32)%Z ->
  reg (calculateMean buffer)
  /\ 0 <= val (calculateMean buffer) <= 2048
  /\ (val (calculateMean buffer) = 0 \/ bpow (-40) <= val (calculateMean buffer)).
Proof.
  intros Hn. unfold calculateMean. cbv zeta.
  destruct (of_nat_ok _ Hn) as (Hnreg & [Hnlo Hnhi] & HK).
  set (nf := of_nat (List.length buffer)) in *.
  set (K := INR (List.length buffer)) in *.
  pose proof (bpow_le 900 900 ltac:(lia)) as H900.
  assert (H900' : 256 <= bpow 900).
  { eapply Rle_trans; [|apply (bpow_le 8 900); lia].
    rewrite (bpow_pos_num 8 256) by first [lia|reflexivity]. lra. }
  destruct (fold_add_result of_byte (/ 2) 256 buffer ltac:(lra) ltac:(lra) H900'
              ltac:(lia) ltac:(apply Forall_forall; intros; apply of_byte_ok))
    as (Hsreg & [Hs0 Hsh] & Hslow).
  set (sum := fold_left (fun acc b => (acc + of_byte b)%float) buffer 0%float) in *.
  fold K in Hsh.
  assert (Hb500 : bpow (-500) <= / 4 /\ 2199023255552 <= bpow 500).
  { split.
    - eapply Rle_trans; [apply (bpow_le (-500) (-2)); lia|].
      change (-2)%Z with (- (2))%Z.
      rewrite (bpow_neg_num 2 4) by first [lia|reflexivity]. lra.
    - eapply Rle_trans; [|apply (bpow_le 41 500); lia].
      rewrite (bpow_pos_num 41 2199023255552) by first [lia|reflexivity]. lra. }
  assert (HUK : 2 * 256 * K <= 2199023255552) by lra.
  destruct (div_nonneg sum nf Hsreg Hnreg Hs0 ltac:(lra)) as (Hreg & Hpos & Herr).
  - destruct Hslow as [[Hz _]|Hl]; [now left|right; lra].
  - lra.
  - lra.
  - lra.
  - apply Rabs_le_between in Herr.
    pose proof u_small as Hu. set (u := bpow (-53)) in *.
    assert (Hq : 0 <= val sum / val nf <= 1024).
    { apply quotient_bounds; lra. }
    assert (Hqu : 0 <= val sum / val nf * u) by (apply Rmult_le_pos; lra).
    assert (Hqu' : val sum / val nf * u <= val sum / val nf)
      by (rewrite <- (Rmult_1_r (val sum / val nf)) at 2; apply Rmult_le_compat_l; lra).
    split; [exact Hreg|]. split; [lra|].
    destruct Hslow as [[Hz _]|Hl].
    + left. rewrite Hz in Herr. unfold Rdiv in Herr. rewrite !Rmult_0_l in Herr. lra.
    + right.
      assert (Hq' : / 34359738368 <= val sum / val nf).
      { apply quotient_bounds with (hi := 1024); lra. }
      assert (Hqu2 : val sum / val nf * u <= val sum / val nf * / 2)
        by (apply Rmult_le_compat_l; lra).
      change (-40)%Z with (- (40))%Z.
      rewrite (bpow_neg_num 40 1099511627776) by first [lia|reflexivity]. lra.
Qed.

(** A deviation [buffer[i] - mean] is zero, exactly when the pixel equals
    the mean, or at least [2^-93] in magnitude. *)
Lemma deviation_ok (mean : float) (b : byte) :
  reg mean -> 0 <= val mean <= 2048 ->
  (val mean = 0 \/ bpow (-40) <= val mean) ->
  reg (of_byte b - mean)
  /\ Rabs (val (of_byte b - mean)) <= 8192
  /\ (val (of_byte b - mean) = 0 \/ bpow (-93) <= Rabs (val (of_byte b - mean)))
  /\ (val (of_byte b - mean) = 0 -> val (of_byte b) = val mean).
Proof.
  intros Hmreg [Hm0 Hmh] Hmlow.
  destruct (of_byte_ok b) as (Hbreg & [Hb0 Hbh] & Hblow).
  assert (H40 : bpow (-40) <= / 2).
  { change (-40)%Z with (- (40))%Z.
    rewrite (bpow_neg_num 40 1099511627776) by first [lia|reflexivity]. lra. }
  assert (H999 : 2048 <= bpow 999).
  { eapply Rle_trans; [|apply (bpow_le 11 999); lia].
    rewrite (bpow_pos_num 11 2048) by first [lia|reflexivity]. lra. }
  destruct (sub_nonneg (of_byte b) mean (-40) Hbreg Hmreg Hb0 Hm0 ltac:(lia))
    as (Hreg & Herr & Hgrid & Hzero).
  - destruct Hblow as [|]; [now left|right; lra].
  - exact Hmlow.
  - lra.
  - lra.
  - change (-40 - 52)%Z with (-92)%Z in Hgrid.
    set (delta := val (of_byte b) - val mean) in *.
    pose proof (rel_err_abs _ _ _ Herr) as [Hlo Hhi].
    pose proof u_small as Hu. set (u := bpow (-53)) in *.
    pose proof (Rabs_pos delta) as Hd0.
    assert (Hdh : Rabs delta <= 2304) by (unfold delta; apply Rabs_le; lra).
    assert (Hdu : Rabs delta * u <= Rabs delta * / 2)
      by (apply Rmult_le_compat_l; lra).
    assert (Hdu0 : 0 <= Rabs delta * u) by (apply Rmult_le_pos; lra).
    split; [exact Hreg|]. split; [lra|].
    assert (H92 : bpow (-92) = 2 * bpow (-93)).
    { replace (-92)%Z with (-93 + 1)%Z by lia. apply bpow_succ. }
    pose proof (bpow_pos (-93)) as H93.
    split.
    + destruct Hgrid as [Hz|Hg]; [left; now apply Hzero|right; lra].
    + intros Hv0. destruct Hgrid as [Hz|Hg]; [unfold delta in Hz; lra|].
      rewrite Hv0, Rabs_R0 in Hlo. lra.
Qed.

Lemma square_ok (mean : float) (b : byte) :
  reg mean -> 0 <= val mean <= 2048 ->
  (val mean = 0 \/ bpow (-40) <= val mean) ->
  term_ok (bpow (-188)) (bpow 27) (pow2 (of_byte b - mean))
  /\ (val (pow2 (of_byte b - mean)) = 0 -> val (of_byte b) = val mean).
Proof.
  intros Hmreg Hmb Hmlow.
  destruct (deviation_ok mean b Hmreg Hmb Hmlow) as (Hreg & Hhi & Hlow & Hzero).
  set (d := (of_byte b - mean)%float) in *. unfold pow2.
  assert (H400 : 8192 <= bpow 400).
  { eapply Rle_trans; [|apply (bpow_le 13 400); lia].
    rewrite (bpow_pos_num 13 8192) by first [lia|reflexivity]. lra. }
  pose proof (bpow_le (-500) (-93) ltac:(lia)) as H500.
  destruct (mul_square d Hreg) as (Hsreg & Hs0 & Herr).
  - destruct Hlow as [|]; [now left|right; lra].
  - lra.
  - apply Rabs_le_between in Herr.
    pose proof u_small as Hu. set (u := bpow (-53)) in *.
    set (q := val d * val d) in *.
    assert (Hq : q = Rabs (val d) * Rabs (val d)).
    { unfold q. destruct (Rcase_abs (val d)) as [Hn|Hp].
      - rewrite (Rabs_left _ Hn). ring.
      - rewrite (Rabs_right _ Hp). ring. }
    pose proof (Rabs_pos (val d)) as Hd0.
    assert (Hq0 : 0 <= q) by (rewrite Hq; apply Rmult_le_pos; lra).
    assert (Hqh : q <= 8192 * 8192) by (rewrite Hq; apply Rmult_le_compat; lra).
    assert (Hqu : q * u <= q * / 2) by (apply Rmult_le_compat_l; lra).
    assert (Hqu0 : 0 <= q * u) by (apply Rmult_le_pos; lra).
    assert (H27 : bpow 27 = 134217728)
      by (rewrite (bpow_pos_num 27 134217728) by first [lia|reflexivity]; reflexivity).
    assert (Hsplit : q = 0 \/ bpow (-186) <= q).
    { destruct Hlow as [Hz|Hl]; [left; unfold q; rewrite Hz; ring|right].
      rewrite Hq. replace (-186)%Z with (-93 + -93)%Z by lia. rewrite bpow_add.
      pose proof (bpow_pos (-93)). apply Rmult_le_compat; lra. }
    assert (H186 : bpow (-186) = 4 * bpow (-188)).
    { replace (-186)%Z with (-188 + 1 + 1)%Z by lia. rewrite !bpow_succ. ring. }
    pose proof (bpow_pos (-188)) as H188.
    split; [split; [exact Hsreg|split; [lra|]]|].
    + destruct Hsplit as [Hz|Hl]; [left; rewrite Hz in Herr; lra|right; lra].
    + intros Hv0. apply Hzero.
      destruct Hsplit as [Hz|Hl]; [|lra].
      destruct Hlow as [Hd|Hd]; [exact Hd|].
      exfalso. rewrite Hq in Hz.
      pose proof (bpow_pos (-93)). nra.
Qed.

(** The variance is zero, and then every pixel equals the mean, or lies
    between [2^-224] and [2^31]. *)
Lemma variance_ok (buffer : list byte) :
  (1 <= Z.of_nat (List.length buffer) <= 2 ^ 32)%Z ->
  reg (populationVariance buffer (calculateMean buffer))
  /\ ((val (populationVariance buffer (calculateMean buffer)) = 0
       /\ Forall (fun b => val (of_byte b) = val (calculateMean buffer)) buffer)
      \/ bpow (-224) <= val (populationVariance buffer (calculateMean buffer)) <= bpow 31).
Proof.
  intros Hn.
  destruct (mean_ok buffer Hn) as (Hmreg & Hmb & Hmlow).
  set (mean := calculateMean buffer) in *.
  unfold populationVariance.
  destruct (of_nat_ok _ Hn) as (Hnreg & [Hnlo Hnhi] & HK).
  set (nf := of_nat (List.length buffer)) in *.
  set (K := INR (List.length buffer)) in *.
  pose proof (bpow_pos (-188)) as H188.
  assert (H27 : bpow 27 = 134217728)
    by (rewrite (bpow_pos_num 27 134217728) by first [lia|reflexivity]; reflexivity).
  pose proof (bpow_le (-188) 27 ltac:(lia)) as HLU.
  pose proof (bpow_le 27 900 ltac:(lia)) as HU.
  destruct (fold_add_result (fun b => pow2 (of_byte b - mean)) (bpow (-188)) (bpow 27)
              buffer H188 HLU HU ltac:(lia)
              ltac:(apply Forall_forall; intros b _; now apply square_ok))
    as (Hsreg & [Hs0 Hsh] & Hslow).
  cbv beta in Hsreg, Hs0, Hsh, Hslow.
  set (sumSq := fold_left (fun acc b => (acc + pow2 (of_byte b - mean))%float)
                          buffer 0%float) in *.
  fold K in Hsh.
  assert (Hsh' : val sumSq <= 268435456 * K) by (rewrite H27 in Hsh; lra).
  assert (H500 : 1152921504606846976 <= bpow 500).
  { eapply Rle_trans; [|apply (bpow_le 60 500); lia].
    rewrite (bpow_pos_num 60 1152921504606846976) by first [lia|reflexivity]. lra. }
  assert (H500' : bpow (-500) <= bpow (-188) / 2).
  { replace (bpow (-188) / 2) with (bpow (-189)).
    - apply bpow_le. lia.
    - replace (-188)%Z with (-189 + 1)%Z by lia. rewrite bpow_succ. field. }
  assert (H500'' : bpow (-500) <= / 2).
  { eapply Rle_trans; [apply (bpow_le (-500) (-1)); lia|].
    change (-1)%Z with (- (1))%Z.
    rewrite (bpow_neg_num 1 2) by first [lia|reflexivity]. lra. }
  destruct (div_nonneg sumSq nf Hsreg Hnreg Hs0 ltac:(lra)) as (Hreg & Hpos & Herr).
  - destruct Hslow as [[Hz _]|Hl]; [now left|right; lra].
  - lra.
  - lra.
  - lra.
  - split; [exact Hreg|].
    apply Rabs_le_between in Herr.
    pose proof u_small as Hu. set (u := bpow (-53)) in *.
    assert (Hq : 0 <= val sumSq / val nf <= 536870912).
    { apply quotient_bounds; lra. }
    assert (Hqu : 0 <= val sumSq / val nf * u) by (apply Rmult_le_pos; lra).
    assert (Hqu' : val sumSq / val nf * u <= val sumSq / val nf * / 2)
      by (apply Rmult_le_compat_l; lra).
    destruct Hslow as [[Hz Hall]|Hl].
    + left. split.
      * rewrite Hz in Herr. unfold Rdiv in Herr. rewrite !Rmult_0_l in Herr. lra.
      * apply Forall_forall. intros b Hb.
        rewrite Forall_forall in Hall. specialize (Hall b Hb). cbv beta in Hall.
        now apply (square_ok mean b Hmreg Hmb Hmlow).
    + right.
      assert (H31 : bpow 31 = 2147483648)
        by (rewrite (bpow_pos_num 31 2147483648) by first [lia|reflexivity]; reflexivity).
      assert (H224 : bpow (-188) / 2 = bpow (-224) * 34359738368).
      { replace (-188)%Z with (-224 + 36)%Z by lia. rewrite bpow_add.
        rewrite (bpow_pos_num 36 68719476736) by first [lia|reflexivity]. field. }
      pose proof (bpow_pos (-224)) as H224p.
      assert (Hq' : 2 * bpow (-224) <= val sumSq / val nf).
      { apply quotient_bounds with (hi := 536870912). 
        - lra.
        - split; [|lra].
          apply Rle_trans with (2 * bpow (-224) * 8589934592); [|lra].
          apply Rmult_le_compat_l; lra. }
      split; lra.
Qed.

(** *** Back to the tests of the code *)

Lemma reg_val_zero (x : float) :
  reg x -> val x = 0 -> exists s, Prim2SF x = S754_zero s.
Proof.
  unfold reg, val. destruct (Prim2SF x) as [s|s| |s m e]; try contradiction.
  - intros _ _. now exists s.
  - intros _ H. pose proof (SF2R_finite_pos m e). destruct s; cbn [SF2R] in H; lra.
Qed.

Lemma reg_val_pos (x : float) :
  reg x -> 0 < val x ->
  exists m e, Prim2SF x = S754_finite false m e
              /\ (2 ^ 52 <= Zpos m < 2 ^ 53)%Z /\ (-1074 <= e <= 970)%Z
              /\ val x = IZR (Zpos m) * bpow e.
Proof.
  unfold reg, val. destruct (Prim2SF x) as [s|s| |s m e]; try contradiction.
  - cbn [SF2R]. intros _ H. lra.
  - intros [Hm He] H. pose proof (SF2R_finite_pos m e).
    destruct s; cbn [SF2R] in *; [lra|]. exists m, e. auto.
Qed.

Lemma sqrt_zero_test (v : float) :
  reg v -> val v = 0 -> PrimFloat.eqb (PrimFloat.sqrt v) 0%float = true.
Proof.
  intros Hreg Hz. destruct (reg_val_zero v Hreg Hz) as [s Hs].
  rewrite FloatAxioms.eqb_spec, FloatAxioms.sqrt_spec, Hs. reflexivity.
Qed.

Lemma eqb_of_val (x y : float) :
  reg x -> reg y -> 0 <= val x -> val x = val y -> PrimFloat.eqb x y = true.
Proof.
  intros Hx Hy Hx0 Heq. rewrite FloatAxioms.eqb_spec.
  destruct (Rle_lt_or_eq_dec _ _ Hx0) as [Hpos|Hzero].
  - destruct (reg_val_pos x Hx Hpos) as (m1 & e1 & -> & Hm1 & He1 & Hv1).
    destruct (reg_val_pos y Hy ltac:(lra)) as (m2 & e2 & -> & Hm2 & He2 & Hv2).
    rewrite Hv1, Hv2 in Heq.
    assert (He : e1 = e2).
    { pose proof (value_lower m1 e1 ltac:(lia)) as L1.
      pose proof (value_upper m1 e1 ltac:(lia)) as U1.
      pose proof (value_lower m2 e2 ltac:(lia)) as L2.
      pose proof (value_upper m2 e2 ltac:(lia)) as U2.
      assert (H1 : bpow (52 + e1) < bpow (53 + e2)) by lra.
      assert (H2 : bpow (52 + e2) < bpow (53 + e1)) by lra.
      apply bpow_lt_inv in H1, H2. lia. }
    subst e2.
    assert (Hm : m1 = m2).
    { pose proof (bpow_pos e1).
      assert (IZR (Zpos m1) = IZR (Zpos m2)) by nra.
      apply eq_IZR in H0. congruence. }
    subst m2. unfold SFeqb, SFcompare.
    rewrite Z.compare_refl.
    change (PosDef.Pos.compare_cont Eq m1 m1) with (Pos.compare m1 m1).
    now rewrite Pos.compare_refl.
  - destruct (reg_val_zero x Hx (eq_sym Hzero)) as [s1 ->].
    destruct (reg_val_zero y Hy ltac:(lra)) as [s2 ->]. reflexivity.
Qed.

Lemma bounds_to_leb (v : float) :
  reg v -> bpow (-224) <= val v <= bpow 31 ->
  PrimFloat.leb 0x1p-1022 v = true /\ PrimFloat.leb v 0x1p+1000 = true.
Proof.
  intros Hreg [Hlo Hhi]. pose proof (bpow_pos (-224)) as H224.
  destruct (reg_val_pos v Hreg ltac:(lra)) as (m & e & Hv & Hm & He & Hval).
  rewrite Hval in *.
  pose proof (exponent_lower m e (-224) ltac:(lia) Hlo) as Hel.
  pose proof (exponent_upper m e 31 ltac:(lia) Hhi) as Heh.
  rewrite !FloatAxioms.leb_spec, Hv.
  change (Prim2SF 0x1p-1022) with (S754_finite false 4503599627370496 (-1074)).
  change (Prim2SF 0x1p+1000) with (S754_finite false 4503599627370496 948).
  unfold SFleb, SFcompare.
  assert (H1 : (-1074 ?= e)%Z = Lt) by (apply Z.compare_lt_iff; lia).
  assert (H2 : (e ?= 948)%Z = Lt) by (apply Z.compare_lt_iff; lia).
  rewrite H1, H2. split; reflexivity.
Qed.

(** A buffer of 1 to [2^32] bytes is uniform, with a standard deviation
    of zero, or has a variance in the normal range. *)
Lemma needle_dichotomy (buffer : list byte) :
  (1 <= Z.of_nat (List.length buffer) <= 2 ^ 32)%Z ->
  (PrimFloat.eqb (calculateStdDev buffer (calculateMean buffer)) 0%float = true
   /\ uniformNeedle buffer)
  \/ normalVariance buffer.
Proof.
  intros Hn.
  destruct (variance_ok buffer Hn) as (Hreg & [[Hz Hall]|Hb]).
  - left.
    assert (Hsd : PrimFloat.eqb (calculateStdDev buffer (calculateMean buffer)) 0%float
                  = true).
    { change (calculateStdDev buffer (calculateMean buffer))
        with (PrimFloat.sqrt (populationVariance buffer (calculateMean buffer))).
      now apply sqrt_zero_test. }
    split; [exact Hsd|]. split; [exact Hsd|].
    destruct (mean_ok buffer Hn) as (Hmreg & _ & _).
    apply Forall_forall. intros b Hb. rewrite Forall_forall in Hall.
    destruct (of_byte_ok b) as (Hbreg & [Hb0 _] & _).
    apply eqb_of_val; auto.
  - right. unfold normalVariance.
    destruct (bounds_to_leb _ Hreg Hb) as [H1 H2]. split; assumption.
Qed.

End Rounding.

(** ** A needle matched against itself *)

Lemma fold_indices (f : float -> float -> float) (pre suf : list byte) (init : float) :
  fold_left (fun acc i => f acc (get_num (pre ++ suf) i))
            (seq (List.length pre) (List.length suf)) init
  = fold_left (fun acc b => f acc (of_byte b)) suf init.
Proof.
  revert pre init. induction suf as [|b suf IH]; intros pre init; [reflexivity|].
  cbn [List.length seq fold_left].
  assert (Hget : get_num (pre ++ b :: suf) (List.length pre) = of_byte b).
  { unfold get_num. rewrite nth_error_app2 by lia. now rewrite Nat.sub_diag. }
  rewrite Hget.
  specialize (IH (pre ++ [b]) (f init (of_byte b))).
  rewrite <- app_assoc, length_app in IH. cbn in IH.
  rewrite Nat.add_1_r in IH. exact IH.
Qed.

Lemma calculateNCC_self (buffer : list byte) :
  PrimFloat.eqb (calculateStdDev buffer (calculateMean buffer)) 0%float = false ->
  calculateNCC buffer buffer (calculateMean buffer)
               (calculateStdDev buffer (calculateMean buffer))
  = selfConfidence buffer.
Proof.
  intros Hsd. unfold calculateNCC. cbv zeta. rewrite Hsd.
  unfold selfConfidence, populationVariance, calculateStdDev, pow2. cbv zeta.
  pose proof (fold_indices
                (fun acc v =>
                   (acc + (v - calculateMean buffer) * (v - calculateMean buffer))%float)
                [] buffer 0%float) as H.
  cbn [app List.length] in H. rewrite H. reflexivity.
Qed.

Lemma findMatches_self_region (haystackBuffer : list byte)
      (haystackWidth haystackHeight : nat) (needleBuffer : list byte)
      (needleWidth needleHeight : nat) (minConfidence : float) (x0 y0 : nat) (c : float) :
  x0 + needleWidth <= haystackWidth ->
  y0 + needleHeight <= haystackHeight ->
  needleBuffer = extractRegion haystackBuffer haystackWidth x0 y0 needleWidth needleHeight ->
  PrimFloat.eqb (calculateStdDev needleBuffer (calculateMean needleBuffer)) 0%float = false ->
  In (MatchResult.new c (Region.new x0 y0 needleWidth needleHeight) None)
     (generalMatches haystackBuffer haystackWidth haystackHeight needleBuffer
                     needleWidth needleHeight minConfidence)
  <-> c = selfConfidence needleBuffer /\ PrimFloat.leb minConfidence c = true.
Proof.
  intros Hx Hy Hextract Hsd. rewrite in_generalMatches.
  assert (Hself : confidenceAt haystackBuffer haystackWidth needleBuffer
                               needleWidth needleHeight (x0, y0)
                  = selfConfidence needleBuffer).
  { unfold confidenceAt. cbn [fst snd]. rewrite <- Hextract.
    now apply calculateNCC_self. }
  split.
  - intros (x & y & Heq & _ & _ & Hle). inversion Heq; subst x y.
    rewrite Hself in *. split; [reflexivity|exact Hle].
  - intros [-> Hle]. exists x0, y0. rewrite Hself.
    repeat split; [lia|lia|exact Hle].
Qed.

Lemma uniform_self_window (haystackBuffer : list byte)
      (haystackWidth haystackHeight : nat) (needleBuffer : list byte)
      (needleWidth needleHeight : nat) (x0 y0 : nat) :
  x0 + needleWidth <= haystackWidth ->
  y0 + needleHeight <= haystackHeight ->
  List.length haystackBuffer = haystackWidth * haystackHeight ->
  needleBuffer = extractRegion haystackBuffer haystackWidth x0 y0 needleWidth needleHeight ->
  Forall (fun b => PrimFloat.eqb (of_byte b) (calculateMean needleBuffer) = true)
         needleBuffer ->
  windowEquals haystackBuffer haystackWidth needleWidth needleHeight
               (calculateMean needleBuffer) x0 y0.
Proof.
  intros Hx Hy Hlen Hextract Hall i j Hi Hj.
  assert (Hin : (y0 + needleHeight - 1) * haystackWidth + x0 + needleWidth
                <= List.length haystackBuffer).
  { rewrite Hlen.
    assert ((y0 + needleHeight - 1) * haystackWidth + haystackWidth
            <= haystackWidth * haystackHeight) by nia.
    lia. }
  pose proof (extractRegion_nth haystackBuffer haystackWidth x0 y0
                                needleWidth needleHeight i j Hi Hj Hin) as Hnth.
  rewrite <- Hextract in Hnth.
  destruct (nth_error needleBuffer (j * needleWidth + i)) as [b|] eqn:Hb.
  - exists b. split; [now rewrite <- Hnth|].
    rewrite Forall_forall in Hall. apply Hall. eapply nth_error_In, Hb.
  - apply nth_error_None in Hb.
    rewrite Hextract, extractRegion_length in Hb. nia.
Qed.

Lemma sqrt_normal_nonzero (v : float) :
  PrimFloat.leb 0x1p-1022 v = true ->
  PrimFloat.leb v 0x1p+1000 = true ->
  PrimFloat.eqb (PrimFloat.sqrt v) 0%float = false.
Proof.
  intros Hlo Hhi.
  destruct (normal_of_bounds v Hlo Hhi) as (mv & ev & Hv & Hmv & Hev).
  rewrite FloatAxioms.eqb_spec, FloatAxioms.sqrt_spec, Hv. unfold SF64sqrt.
  destruct (SFsqrt_normal mv ev Hmv ltac:(lia)) as (ms & es & -> & _).
  reflexivity.
Qed.

Lemma normalVariance_general (buffer : list byte) :
  normalVariance buffer ->
  PrimFloat.eqb (calculateStdDev buffer (calculateMean buffer)) 0%float = false.
Proof. intros [Hlo Hhi]. now apply sqrt_normal_nonzero. Qed.

Lemma selfConfidence_near_one (buffer : list byte) :
  normalVariance buffer ->
  PrimFloat.leb 0x1.ffffffffffffep-1 (selfConfidence buffer) = true
  /\ PrimFloat.leb (selfConfidence buffer) 0x1.0000000000001p+0 = true.
Proof. intros [Hlo Hhi]. now apply self_ratio_near_one. Qed.

(** C7 (amended): let the needle buffer be the window of the haystack
    extracted at [(x0, y0)].  When the needle is uniform, [findMatches]
    includes the match at [Region(x0, y0, needleWidth, needleHeight)] with
    confidence exactly 1.0, for every threshold.  Otherwise the only
    confidence a match at that region can carry is the one binary64
    arithmetic yields for the needle against itself,
    [(v / (s * s) + 1) / 2] with [v] the variance and [s = sqrt v], and the
    match is included exactly when the threshold is at most that value.
    That value is 1.0 up to rounding.  For a needle of 1 to [2^32] pixels
    either the standard deviation is zero and the match with confidence
    1.0 is included, or it is not zero and the self confidence lies
    between [1 - 2^-52] and [1 + 2^-52]; so for every threshold up to
    [1 - 2^-52] a match at the region is included, with a confidence
    between [1 - 2^-52] and [1 + 2^-52]. *)
Theorem C7_self_match (codec : Image.t -> string + list byte)
        (matchRequest : MatchRequest.t) (haystackBuffer needleBuffer : list byte)
        (x0 y0 : nat) :
  codec (MatchRequest.haystack matchRequest) = inr haystackBuffer ->
  codec (MatchRequest.needle matchRequest) = inr needleBuffer ->
  x0 + Image.width (MatchRequest.needle matchRequest)
    <= Image.width (MatchRequest.haystack matchRequest) ->
  y0 + Image.height (MatchRequest.needle matchRequest)
    <= Image.height (MatchRequest.haystack matchRequest) ->
  List.length haystackBuffer
  = Image.width (MatchRequest.haystack matchRequest)
    * Image.height (MatchRequest.haystack matchRequest) ->
  needleBuffer
  = extractRegion haystackBuffer (Image.width (MatchRequest.haystack matchRequest))
                  x0 y0
                  (Image.width (MatchRequest.needle matchRequest))
                  (Image.height (MatchRequest.needle matchRequest)) ->
  exists matches,
    findMatches codec matchRequest = Return matches
    /\ (uniformNeedle needleBuffer ->
        In (MatchResult.new 1.0%float
              (Region.new x0 y0 (Image.width (MatchRequest.needle matchRequest))
                          (Image.height (MatchRequest.needle matchRequest)))
              None)
           matches)
    /\ (PrimFloat.eqb (calculateStdDev needleBuffer (calculateMean needleBuffer)) 0%float
        = false ->
        forall c,
          In (MatchResult.new c
                (Region.new x0 y0 (Image.width (MatchRequest.needle matchRequest))
                            (Image.height (MatchRequest.needle matchRequest)))
                None)
             matches
          <-> c = selfConfidence needleBuffer
              /\ PrimFloat.leb (threshold matchRequest) c = true)
    /\ ((1 <= Z.of_nat (Image.width (MatchRequest.needle matchRequest)
                        * Image.height (MatchRequest.needle matchRequest))
           <= 2 ^ 32)%Z ->
        ((PrimFloat.eqb (calculateStdDev needleBuffer (calculateMean needleBuffer))
                        0%float = true
          /\ In (MatchResult.new 1.0%float
                   (Region.new x0 y0 (Image.width (MatchRequest.needle matchRequest))
                               (Image.height (MatchRequest.needle matchRequest)))
                   None)
                matches)
         \/ (PrimFloat.eqb (calculateStdDev needleBuffer (calculateMean needleBuffer))
                           0%float = false
             /\ PrimFloat.leb 0x1.ffffffffffffep-1 (selfConfidence needleBuffer) = true
             /\ PrimFloat.leb (selfConfidence needleBuffer) 0x1.0000000000001p+0
                = true))
        /\ (PrimFloat.leb (threshold matchRequest) 0x1.ffffffffffffep-1 = true ->
            exists c,
              In (MatchResult.new c
                    (Region.new x0 y0 (Image.width (MatchRequest.needle matchRequest))
                                (Image.height (MatchRequest.needle matchRequest)))
                    None)
                 matches
              /\ PrimFloat.leb 0x1.ffffffffffffep-1 c = true
              /\ PrimFloat.leb c 0x1.0000000000001p+0 = true)).
Proof.
  intros Hhay Hndl Hx Hy Hlen Hextract.
  assert (Hv : needleTooLarge matchRequest = false) by (apply validation_passes; lia).
  eexists. split; [exact (findMatches_scan codec matchRequest _ _ Hv Hhay Hndl)|].
  assert (Hgeneral :
            PrimFloat.eqb (calculateStdDev needleBuffer (calculateMean needleBuffer))
                          0%float = false ->
            forall c,
              In (MatchResult.new c
                    (Region.new x0 y0 (Image.width (MatchRequest.needle matchRequest))
                                (Image.height (MatchRequest.needle matchRequest)))
                    None)
                 (templateMatch haystackBuffer
                    (Image.width (MatchRequest.haystack matchRequest))
                    (Image.height (MatchRequest.haystack matchRequest))
                    needleBuffer
                    (Image.width (MatchRequest.needle matchRequest))
                    (Image.height (MatchRequest.needle matchRequest))
                    (threshold matchRequest))
              <-> c = selfConfidence needleBuffer
                  /\ PrimFloat.leb (threshold matchRequest) c = true).
  { intros Hsd c. rewrite (templateMatch_general _ _ _ _ _ _ _ Hsd).
    now apply findMatches_self_region. }
  assert (Huniform :
            uniformNeedle needleBuffer ->
            In (MatchResult.new 1.0%float
                  (Region.new x0 y0 (Image.width (MatchRequest.needle matchRequest))
                              (Image.height (MatchRequest.needle matchRequest)))
                  None)
               (templateMatch haystackBuffer
                  (Image.width (MatchRequest.haystack matchRequest))
                  (Image.height (MatchRequest.haystack matchRequest))
                  needleBuffer
                  (Image.width (MatchRequest.needle matchRequest))
                  (Image.height (MatchRequest.needle matchRequest))
                  (threshold matchRequest))).
  { intros [Hsd Hall].
    rewrite (templateMatch_uniform _ _ _ _ _ _ _ Hsd), findUniformMatches_raster.
    apply in_uniformMatches. exists x0, y0.
    repeat split; [exact Hx|exact Hy|].
    eapply uniform_self_window; eassumption. }
  split; [exact Huniform|]. split; [exact Hgeneral|].
  intros Hsize.
  assert (Hn : (1 <= Z.of_nat (List.length needleBuffer) <= 2 ^ 32)%Z)
    by (rewrite Hextract, extractRegion_length; exact Hsize).
  destruct (needle_dichotomy needleBuffer Hn) as [[Hsd Huni]|Hnormal].
  - split; [left; split; [exact Hsd|now apply Huniform]|].
    intros _. exists 1.0%float. split; [now apply Huniform|].
    split; reflexivity.
  - pose proof (normalVariance_general _ Hnormal) as Hsd.
    destruct (selfConfidence_near_one _ Hnormal) as [Hlo Hhi].
    split; [right; repeat split; assumption|].
    intros Hthr. exists (selfConfidence needleBuffer).
    split; [|split; assumption].
    apply (Hgeneral Hsd). split; [reflexivity|].
    exact (leb_trans _ _ _ Hthr Hlo).
Qed.

(** The needle [0 1 / 1 2] is the top-left window of itself, yet at
    threshold 1.0 [findMatches] returns no match, and at the default
    threshold the match at offset (0, 0) has confidence
    0.99999999999999989, not 1.0. *)
Lemma C7_counterexample :
  Image.data rampNeedle = extractRegion (Image.data rampNeedle) 2 0 0 2 2
  /\ PrimFloat.leb 1.0%float 1.0%float = true
  /\ findMatches raw_codec (MatchRequest.new rampNeedle rampNeedle (Some 1.0%float))
     = Return []
  /\ findMatches raw_codec (MatchRequest.new rampNeedle rampNeedle None)
     = Return [MatchResult.new 0x1.fffffffffffffp-1%float (Region.new 0 0 2 2) None]
  /\ PrimFloat.ltb 0x1.fffffffffffffp-1%float 1.0%float = true.
Proof. repeat split; vm_compute; reflexivity. Qed.

(** The ramp needle inside the 3 x 2 haystack, at the default threshold:
    the needle is not uniform, and the match at (0, 0) carries the self
    confidence 0.99999999999999989. *)
Lemma C7_witness :
  selfConfidence (Image.data rampNeedle) = 0x1.fffffffffffffp-1%float
  /\ PrimFloat.leb DEFAULT_CONFIDENCE 0x1.ffffffffffffep-1 = true
  /\ exists matches,
      findMatches raw_codec (MatchRequest.new rampHaystack rampNeedle None) = Return matches
      /\ (uniformNeedle (Image.data rampNeedle) ->
          In (MatchResult.new 1.0%float (Region.new 0 0 2 2) None) matches)
      /\ (PrimFloat.eqb (calculateStdDev (Image.data rampNeedle)
                                         (calculateMean (Image.data rampNeedle))) 0%float
          = false ->
          forall c,
            In (MatchResult.new c (Region.new 0 0 2 2) None) matches
            <-> c = selfConfidence (Image.data rampNeedle)
                /\ PrimFloat.leb DEFAULT_CONFIDENCE c = true)
      /\ ((1 <= Z.of_nat (2 * 2) <= 2 ^ 32)%Z ->
          ((PrimFloat.eqb (calculateStdDev (Image.data rampNeedle)
                                           (calculateMean (Image.data rampNeedle)))
                          0%float = true
            /\ In (MatchResult.new 1.0%float (Region.new 0 0 2 2) None) matches)
           \/ (PrimFloat.eqb (calculateStdDev (Image.data rampNeedle)
                                              (calculateMean (Image.data rampNeedle)))
                             0%float = false
               /\ PrimFloat.leb 0x1.ffffffffffffep-1
                                (selfConfidence (Image.data rampNeedle)) = true
               /\ PrimFloat.leb (selfConfidence (Image.data rampNeedle))
                                0x1.0000000000001p+0 = true))
          /\ (PrimFloat.leb DEFAULT_CONFIDENCE 0x1.ffffffffffffep-1 = true ->
              exists c,
                In (MatchResult.new c (Region.new 0 0 2 2) None) matches
                /\ PrimFloat.leb 0x1.ffffffffffffep-1 c = true
                /\ PrimFloat.leb c 0x1.0000000000001p+0 = true)).
Proof.
  split; [vm_compute; reflexivity|].
  split; [vm_compute; reflexivity|].
  apply (C7_self_match raw_codec (MatchRequest.new rampHaystack rampNeedle None)
                       (Image.data rampHaystack) (Image.data rampNeedle) 0 0).
  - reflexivity.
  - reflexivity.
  - cbn. lia.
  - cbn. lia.
  - reflexivity.
  - vm_compute. reflexivity.
Defined.

(** ** Range of the confidence *)

(** C5: the returned confidence is documented to lie in [0, 1], but the
    binary64 evaluation of [(NCC + 1) / 2] leaves the interval by one
    rounding step.  At the default threshold the 3 x 3 needle [patchNeedle]
    against the haystack [brightHaystack] is returned with confidence
    1.0000000000000002 (NCC = 3050/9 / (sqrt (15250/9) * sqrt (610/9))
    evaluates above 1), and with threshold -1 the needle [3 2 1] against the
    haystack [1 4 7] is returned with confidence -1.1102230246251565e-16. *)
Theorem C5_confidence_leaves_unit_interval :
  findMatches raw_codec (MatchRequest.new brightHaystack patchNeedle None)
  = Return [MatchResult.new 0x1.0000000000001p+0%float (Region.new 0 0 3 3) None]
  /\ PrimFloat.ltb 1.0%float 0x1.0000000000001p+0%float = true
  /\ findMatches raw_codec
       (MatchRequest.new risingHaystack fallingNeedle (Some (-1.0)%float))
     = Return [MatchResult.new (-0x1p-53)%float (Region.new 0 0 3 1) None]
  /\ PrimFloat.ltb (-0x1p-53)%float 0%float = true.
Proof. repeat split; vm_compute; reflexivity. Qed.

(** ** Inputs of the statistics functions *)

Lemma findMatchesLogged_spec (codec : Image.t -> string + list byte)
      (matchRequest : MatchRequest.t) :
  fst (findMatchesLogged codec matchRequest) = findMatches codec matchRequest.
Proof.
  unfold findMatchesLogged, findMatches, try_catch, bind. cbv zeta.
  destruct (_ || _); [reflexivity|].
  destruct (imageToRawBuffer codec (MatchRequest.haystack matchRequest)); [|reflexivity].
  destruct (imageToRawBuffer codec (MatchRequest.needle matchRequest)); [|reflexivity].
  rewrite templateMatchLogged_spec. reflexivity.
Qed.

Lemma templateMatchLogged_nonempty (haystackBuffer : list byte)
      (haystackWidth haystackHeight : nat) (needleBuffer : list byte)
      (needleWidth needleHeight : nat) (minConfidence : float) :
  0 < needleWidth -> 0 < needleHeight -> needleBuffer <> [] ->
  Forall (fun buffer => List.length buffer <> 0)
         (snd (templateMatchLogged haystackBuffer haystackWidth haystackHeight
                                   needleBuffer needleWidth needleHeight minConfidence)).
Proof.
  intros Hpw Hph Hne.
  rewrite templateMatchLogged_spec. cbn [fst snd].
  assert (Hn : List.length needleBuffer <> 0)
    by (destruct needleBuffer; [congruence|discriminate]).
  constructor; [exact Hn|]. constructor; [exact Hn|].
  destruct (PrimFloat.eqb _ _); [constructor|].
  apply Forall_forall. intros buffer Hin.
  apply in_flat_map in Hin as (xy & _ & Hin). unfold windowLog in Hin.
  assert (Heq : buffer = extractRegion haystackBuffer haystackWidth
                           (fst xy) (snd xy) needleWidth needleHeight)
    by (destruct Hin as [H|[H|[]]]; now rewrite <- H).
  rewrite Heq, extractRegion_length. nia.
Qed.


Lemma raw_codec_rejects_empty : rejectsEmptyImages raw_codec.
Proof.
  intros image buffer. unfold raw_codec. cbv zeta.
  destruct (List.length (Image.data image) =? 0) eqn:Hdata; [discriminate|].
  destruct (Image.width image * Image.height image =? 0) eqn:Hpixels; [discriminate|].
  cbn [orb].
  destruct (negb _); [discriminate|].
  destruct (_ <? _) eqn:Hshort; [discriminate|].
  intros H. injection H as <-.
  apply Nat.eqb_neq in Hdata, Hpixels. apply Nat.ltb_ge in Hshort.
  repeat split; [nia|nia|].
  intros Hnil. apply (f_equal (@List.length byte)) in Hnil.
  rewrite length_firstn in Hnil. cbn in Hnil. lia.
Qed.


(** ** The scenarios of the design document *)

(** The concrete scenario: exactly one result, with confidence 1.0, at
    [{left: 1, top: 1, width: 2, height: 2}]. *)
Example scenario_one_match :
  findMatches raw_codec (MatchRequest.new scenarioHaystack scenarioNeedle None)
  = Return [MatchResult.new 1.0%float (Region.new 1 1 2 2) None].
Proof. vm_compute. reflexivity. Qed.

Example scenario_best_match :
  findMatch raw_codec (MatchRequest.new scenarioHaystack scenarioNeedle None)
  = Return (MatchResult.new 1.0%float (Region.new 1 1 2 2) None).
Proof. vm_compute. reflexivity. Qed.

(** Needle dimensions equal to the haystack dimensions leave the single
    candidate offset (0, 0). *)
Lemma equal_size_one_candidate (width height : nat) :
  raster (Z.of_nat width - Z.of_nat width) (Z.of_nat height - Z.of_nat height)
  = [(0, 0)].
Proof. now rewrite !Z.sub_diag. Qed.

(** ** The claims at concrete requests *)

(** The scenario of the design document: exactly one match, at (1, 1). *)
Lemma C3_witness :
  exists matches,
    findMatches raw_codec (MatchRequest.new scenarioHaystack scenarioNeedle None)
    = Return matches
    /\ (forall x y,
          x <= 4 - 2 -> y <= 4 - 2 ->
          (In (MatchResult.new 1.0%float (Region.new x y 2 2) None) matches
           <-> windowEquals (Image.data scenarioHaystack) 4 2 2
                            (calculateMean (Image.data scenarioNeedle)) x y))
    /\ (forall m, In m matches ->
          MatchResult.confidence m = 1.0%float
          /\ exists x y,
              MatchResult.location m = Region.new x y 2 2
              /\ x <= 4 - 2 /\ y <= 4 - 2
              /\ windowEquals (Image.data scenarioHaystack) 4 2 2
                              (calculateMean (Image.data scenarioNeedle)) x y).
Proof.
  apply (C3_uniform_needle_exact_match raw_codec
           (MatchRequest.new scenarioHaystack scenarioNeedle None)
           (Image.data scenarioHaystack) (Image.data scenarioNeedle)).
  - cbn. lia.
  - cbn. lia.
  - reflexivity.
  - reflexivity.
  - vm_compute. reflexivity.
Defined.

(** Two matches of equal confidence: the first one in scan order wins. *)
Lemma C4_witness :
  exists best before after,
    findMatch raw_codec (MatchRequest.new flatHaystack scenarioNeedle None) = Return best
    /\ best = fold_left
                (fun best current =>
                   if PrimFloat.ltb (MatchResult.confidence best)
                                    (MatchResult.confidence current)
                   then current else best)
                [MatchResult.new 1.0%float (Region.new 1 0 2 2) None]
                (MatchResult.new 1.0%float (Region.new 0 0 2 2) None)
    /\ [MatchResult.new 1.0%float (Region.new 0 0 2 2) None;
        MatchResult.new 1.0%float (Region.new 1 0 2 2) None]
       = before ++ best :: after
    /\ (forall m, In m before ->
          PrimFloat.ltb (MatchResult.confidence m) (MatchResult.confidence best) = true)
    /\ (forall m, In m after ->
          PrimFloat.leb (MatchResult.confidence m) (MatchResult.confidence best) = true).
Proof.
  apply (C4_findMatch_first_maximum raw_codec
           (MatchRequest.new flatHaystack scenarioNeedle None)
           (MatchResult.new 1.0%float (Region.new 0 0 2 2) None)
           [MatchResult.new 1.0%float (Region.new 1 0 2 2) None]).
  vm_compute. reflexivity.
Defined.

(** Thresholds 0.9 < 0.95 on the ramp needle in the 3 x 2 haystack: the single
    match at 0.95 is one of the two matches at 0.9. *)
Lemma C6_witness :
  exists matches1,
    findMatches raw_codec (MatchRequest.new rampHaystack rampNeedle (Some 0.9%float))
    = Return matches1
    /\ (forall m,
          In m [MatchResult.new 0x1.fffffffffffffp-1%float (Region.new 0 0 2 2) None] ->
          In m matches1)
    /\ (forall region,
          In region
             (map MatchResult.location
                  [MatchResult.new 0x1.fffffffffffffp-1%float (Region.new 0 0 2 2) None]) ->
          In region (map MatchResult.location matches1)).
Proof.
  apply (C6_threshold_monotonicity raw_codec rampHaystack rampNeedle
           0.9%float 0.95%float).
  - vm_compute. reflexivity.
  - vm_compute. reflexivity.
Defined.

(** The ramp needle in the 3 x 2 haystack at threshold 0.5. *)
Lemma C9_witness :
  exists matches,
    findMatches raw_codec (MatchRequest.new rampHaystack rampNeedle (Some 0.5%float))
    = Return matches
    /\ matches
       = map (fun xy =>
                MatchResult.new
                  (confidenceAt (Image.data rampHaystack) 3 (Image.data rampNeedle) 2 2 xy)
                  (Region.new (fst xy) (snd xy) 2 2) None)
             (filter
                (fun xy =>
                   PrimFloat.leb 0.5%float
                     (confidenceAt (Image.data rampHaystack) 3
                                   (Image.data rampNeedle) 2 2 xy))
                (flat_map (fun y => map (fun x => (x, y)) (seq 0 (3 - 2 + 1)))
                          (seq 0 (2 - 2 + 1))))
    /\ StronglySorted raster_lt (map MatchResult.location matches)
    /\ templateMatchLogged (Image.data rampHaystack) 3 2 (Image.data rampNeedle) 2 2
                           0.5%float
       = (matches,
          Image.data rampNeedle :: Image.data rampNeedle ::
          flat_map (windowLog (Image.data rampHaystack) 3 2 2)
                   (flat_map (fun y => map (fun x => (x, y)) (seq 0 (3 - 2 + 1)))
                             (seq 0 (2 - 2 + 1)))).
Proof.
  apply (C9_general_branch_raster_order raw_codec
           (MatchRequest.new rampHaystack rampNeedle (Some 0.5%float))
           (Image.data rampHaystack) (Image.data rampNeedle)).
  - cbn. lia.
  - cbn. lia.
  - reflexivity.
  - reflexivity.
  - vm_compute. reflexivity.
Defined.

(** The scenario of the design document at any threshold, 2.0 included. *)
Lemma C10_witness :
  exists matches,
    (forall confidence,
        findMatches raw_codec (MatchRequest.new scenarioHaystack scenarioNeedle confidence)
        = Return matches)
    /\ (forall x y,
          x <= 4 - 2 -> y <= 4 - 2 ->
          windowEquals (Image.data scenarioHaystack) 4 2 2
                       (calculateMean (Image.data scenarioNeedle)) x y ->
          In (MatchResult.new 1.0%float (Region.new x y 2 2) None) matches)
    /\ (forall m minConfidence,
          In m matches ->
          PrimFloat.ltb 1.0%float minConfidence = true ->
          MatchResult.confidence m = 1.0%float
          /\ PrimFloat.ltb (MatchResult.confidence m) minConfidence = true).
Proof.
  apply (C10_uniform_branch_ignores_threshold raw_codec scenarioHaystack scenarioNeedle
           (Image.data scenarioHaystack) (Image.data scenarioNeedle)).
  - cbn. lia.
  - cbn. lia.
  - reflexivity.
  - reflexivity.
  - vm_compute. reflexivity.
Defined.

(** * Further properties of the matcher *)

(** ** Shape of the returned matches *)

Lemma uniformMatches_sorted (haystackBuffer : list byte)
      (haystackWidth haystackHeight needleWidth needleHeight : nat) (needleValue : float) :
  StronglySorted raster_lt
    (map MatchResult.location
         (uniformMatches haystackBuffer haystackWidth haystackHeight
                         needleWidth needleHeight needleValue)).
Proof.
  unfold uniformMatches. rewrite map_map. cbn.
  apply (sorted_map offset_lt); [|apply sorted_filter, raster_sorted].
  intros a b Hab. exact Hab.
Qed.

(** Both branches of the scan as one statement. *)
Lemma templateMatch_branches (haystackBuffer : list byte)
      (haystackWidth haystackHeight : nat) (needleBuffer : list byte)
      (needleWidth needleHeight : nat) (minConfidence : float) :
  templateMatch haystackBuffer haystackWidth haystackHeight needleBuffer
                needleWidth needleHeight minConfidence
  = if PrimFloat.eqb (calculateStdDev needleBuffer (calculateMean needleBuffer)) 0%float
    then uniformMatches haystackBuffer haystackWidth haystackHeight
                        needleWidth needleHeight (calculateMean needleBuffer)
    else generalMatches haystackBuffer haystackWidth haystackHeight needleBuffer
                        needleWidth needleHeight minConfidence.
Proof.
  destruct (PrimFloat.eqb _ _) eqn:Hsd.
  - now rewrite (templateMatch_uniform _ _ _ _ _ _ _ Hsd), findUniformMatches_raster.
  - now rewrite (templateMatch_general _ _ _ _ _ _ _ Hsd).
Qed.

Lemma in_templateMatch (haystackBuffer : list byte)
      (haystackWidth haystackHeight : nat) (needleBuffer : list byte)
      (needleWidth needleHeight : nat) (minConfidence : float) (m : MatchResult.t) :
  In m (templateMatch haystackBuffer haystackWidth haystackHeight needleBuffer
                      needleWidth needleHeight minConfidence) ->
  exists x y c,
    m = MatchResult.new c (Region.new x y needleWidth needleHeight) None
    /\ (Z.of_nat x <= Z.of_nat haystackWidth - Z.of_nat needleWidth)%Z
    /\ (Z.of_nat y <= Z.of_nat haystackHeight - Z.of_nat needleHeight)%Z
    /\ (c = 1.0%float \/ PrimFloat.leb minConfidence c = true).
Proof.
  rewrite templateMatch_branches. destruct (PrimFloat.eqb _ _).
  - intros Hin. apply in_uniformMatches in Hin as (x & y & -> & Hx & Hy & _).
    exists x, y, 1.0%float. repeat split; [lia|lia|now left].
  - intros Hin. apply in_generalMatches in Hin as (x & y & -> & Hx & Hy & Hle).
    exists x, y. eexists. repeat split; [exact Hx|exact Hy|now right].
Qed.

Lemma templateMatch_sorted (haystackBuffer : list byte)
      (haystackWidth haystackHeight : nat) (needleBuffer : list byte)
      (needleWidth needleHeight : nat) (minConfidence : float) :
  StronglySorted raster_lt
    (map MatchResult.location
         (templateMatch haystackBuffer haystackWidth haystackHeight needleBuffer
                        needleWidth needleHeight minConfidence)).
Proof.
  rewrite templateMatch_branches. destruct (PrimFloat.eqb _ _).
  - apply uniformMatches_sorted.
  - apply generalMatches_sorted.
Qed.

(** X1: every match that [findMatches] returns carries no error, has the
    width and height of the needle (so its area is the needle's), lies
    inside the haystack, and has confidence exactly 1.0 or at least the
    requested threshold. *)
Theorem X1_matches_lie_inside_haystack (codec : Image.t -> string + list byte)
        (matchRequest : MatchRequest.t) (matches : list MatchResult.t)
        (m : MatchResult.t) :
  findMatches codec matchRequest = Return matches ->
  In m matches ->
  MatchResult.error m = None
  /\ Region.width (MatchResult.location m) = Image.width (MatchRequest.needle matchRequest)
  /\ Region.height (MatchResult.location m) = Image.height (MatchRequest.needle matchRequest)
  /\ Region.left (MatchResult.location m) + Region.width (MatchResult.location m)
     <= Image.width (MatchRequest.haystack matchRequest)
  /\ Region.top (MatchResult.location m) + Region.height (MatchResult.location m)
     <= Image.height (MatchRequest.haystack matchRequest)
  /\ Region.area (MatchResult.location m)
     = Image.width (MatchRequest.needle matchRequest)
       * Image.height (MatchRequest.needle matchRequest)
  /\ (MatchResult.confidence m = 1.0%float
      \/ PrimFloat.leb (threshold matchRequest) (MatchResult.confidence m) = true).
Proof.
  intros H Hin.
  destruct (findMatches_returns codec matchRequest _ H) as (hb & nb & Hv & _ & _ & ->).
  apply validation_passes in Hv as [Hw Hh].
  apply in_templateMatch in Hin as (x & y & c & -> & Hx & Hy & Hc).
  cbn. unfold Region.area. cbn. repeat split; try reflexivity; try lia. exact Hc.
Qed.

Lemma sorted_NoDup (l : list Region.t) : StronglySorted raster_lt l -> NoDup l.
Proof.
  induction 1 as [|r l Hl IH Hr]; constructor; [|exact IH].
  intros Hin. rewrite Forall_forall in Hr. specialize (Hr r Hin).
  unfold raster_lt in Hr. lia.
Qed.

Lemma length_raster (maxX maxY : Z) :
  List.length (raster maxX maxY) = Z.to_nat (maxX + 1) * Z.to_nat (maxY + 1).
Proof.
  unfold raster, upto. rewrite (flat_map_constant_length (c := Z.to_nat (maxX + 1))).
  - rewrite length_seq. lia.
  - intros y _. now rewrite length_map, length_seq.
Qed.

Lemma length_templateMatch (haystackBuffer : list byte)
      (haystackWidth haystackHeight : nat) (needleBuffer : list byte)
      (needleWidth needleHeight : nat) (minConfidence : float) :
  List.length (templateMatch haystackBuffer haystackWidth haystackHeight needleBuffer
                             needleWidth needleHeight minConfidence)
  <= List.length (raster (Z.of_nat haystackWidth - Z.of_nat needleWidth)
                         (Z.of_nat haystackHeight - Z.of_nat needleHeight)).
Proof.
  rewrite templateMatch_branches.
  destruct (PrimFloat.eqb _ _); unfold uniformMatches, generalMatches;
    rewrite length_map; apply filter_length_le.
Qed.

(** X2: [findMatches] reports every candidate offset at most once: the
    regions of the returned matches are pairwise distinct, and there are at
    most [(haystackWidth - needleWidth + 1) * (haystackHeight - needleHeight
    + 1)] of them. *)
Theorem X2_one_match_per_offset (codec : Image.t -> string + list byte)
        (matchRequest : MatchRequest.t) (matches : list MatchResult.t) :
  findMatches codec matchRequest = Return matches ->
  NoDup (map MatchResult.location matches)
  /\ List.length matches
     <= (Image.width (MatchRequest.haystack matchRequest)
         - Image.width (MatchRequest.needle matchRequest) + 1)
        * (Image.height (MatchRequest.haystack matchRequest)
           - Image.height (MatchRequest.needle matchRequest) + 1).
Proof.
  intros H.
  destruct (findMatches_returns codec matchRequest _ H) as (hb & nb & Hv & _ & _ & ->).
  apply validation_passes in Hv as [Hw Hh]. split.
  - apply sorted_NoDup, templateMatch_sorted.
  - etransitivity; [apply length_templateMatch|]. rewrite length_raster.
    apply Nat.eq_le_incl. f_equal; lia.
Qed.

(** ** The result of [findMatch] *)

Lemma fold_better_in (first : MatchResult.t) (rest : list MatchResult.t) :
  In (fold_left better rest first) (first :: rest).
Proof.
  revert first. induction rest as [|current rest IH]; intros first; [now left|].
  cbn [fold_left]. unfold better at 2.
  destruct (PrimFloat.ltb _ _).
  - right. apply IH.
  - destruct (IH first) as [Heq|Hin]; [left; exact Heq|right; right; exact Hin].
Qed.

(** X5: the result of [findMatch] is either one of the matches of
    [findMatches], returned without an error, or the failure value:
    confidence 0, location [Region(0,0,0,0)] and an error, which is the
    error [findMatches] threw, or "No matches found" when it returned the
    empty list. *)
Theorem X5_findMatch_result_or_sentinel (codec : Image.t -> string + list byte)
        (matchRequest : MatchRequest.t) :
  exists result,
    findMatch codec matchRequest = Return result
    /\ ((MatchResult.error result = None
         /\ exists matches,
             findMatches codec matchRequest = Return matches /\ In result matches)
        \/ (exists error,
               MatchResult.error result = Some error
               /\ MatchResult.confidence result = 0%float
               /\ MatchResult.location result = Region.new 0 0 0 0
               /\ (findMatches codec matchRequest = Throw error
                   \/ (findMatches codec matchRequest = Return []
                       /\ error = Error "No matches found")))).
Proof.
  destruct (findMatches codec matchRequest) as [[|first rest]|error] eqn:H.
  - exists (failure (Error "No matches found")).
    split; [now apply findMatch_of_empty|].
    right. eexists. cbn. repeat split. now right.
  - exists (fold_left better rest first). split; [now apply findMatch_of_cons|].
    left. pose proof (fold_better_in first rest) as Hin. split.
    + destruct (findMatches_returns codec matchRequest _ H) as (hb & nb & _ & _ & _ & Heq).
      rewrite Heq in Hin. apply in_templateMatch in Hin as (x & y & c & -> & _).
      reflexivity.
    + eexists. split; [reflexivity|exact Hin].
  - exists (failure error). split; [now apply findMatch_of_throw|].
    right. exists error. cbn. repeat split. now left.
Qed.

(** X7: when the needle has the dimensions of the haystack, the only
    candidate offset is (0, 0): [findMatches] returns no match or a single
    match, whose region is the whole haystack. *)
Theorem X7_equal_size_single_candidate (codec : Image.t -> string + list byte)
        (matchRequest : MatchRequest.t) (matches : list MatchResult.t) :
  Image.width (MatchRequest.needle matchRequest)
  = Image.width (MatchRequest.haystack matchRequest) ->
  Image.height (MatchRequest.needle matchRequest)
  = Image.height (MatchRequest.haystack matchRequest) ->
  findMatches codec matchRequest = Return matches ->
  matches = []
  \/ exists confidence,
      matches = [MatchResult.new confidence
                   (Region.new 0 0 (Image.width (MatchRequest.haystack matchRequest))
                               (Image.height (MatchRequest.haystack matchRequest)))
                   None].
Proof.
  intros Hw Hh H.
  destruct (findMatches_returns codec matchRequest _ H) as (hb & nb & _ & _ & _ & ->).
  rewrite templateMatch_branches. rewrite Hw, Hh.
  unfold uniformMatches, generalMatches. rewrite !Z.sub_diag.
  change (raster 0 0) with [(0, 0)].
  destruct (PrimFloat.eqb _ _); cbn [filter fst snd];
    match goal with |- context [if ?b then _ else _] => destruct b end; cbn;
    [right; eexists; reflexivity|now left|right; eexists; reflexivity|now left].
Qed.

(** ** [extractRegion] on any buffer *)

Lemma nth_error_set_after (target source : list byte) (offset n : nat) :
  offset + List.length source <= n ->
  offset <= List.length target ->
  nth_error (set target source offset) n = nth_error target n.
Proof.
  intros Hn Ho. unfold set.
  rewrite nth_error_app2; rewrite length_firstn; [|lia].
  rewrite nth_error_app2 by lia.
  rewrite nth_error_skipn. f_equal. lia.
Qed.

Lemma nth_error_subarray_short (buffer : list byte) (begin_ end_ i : nat) :
  List.length (subarray buffer begin_ end_) <= i -> i < end_ - begin_ ->
  nth_error buffer (begin_ + i) = None.
Proof.
  rewrite length_subarray. intros Hlen Hi. apply nth_error_None. lia.
Qed.

Lemma extractRegion_rows_padded (buffer : list byte)
      (width x y regionWidth regionHeight k : nat) :
  k <= regionHeight ->
  let done := fold_left (rowStep buffer width x y regionWidth) (seq 0 k)
                        (repeat x00 (regionWidth * regionHeight)) in
  List.length done = regionWidth * regionHeight
  /\ (forall j i, j < k -> i < regionWidth ->
        nth_error done (j * regionWidth + i)
        = Some (pixel_or_zero buffer ((y + j) * width + x + i)))
  /\ (forall n, k * regionWidth <= n -> n < regionWidth * regionHeight ->
        nth_error done n = Some x00).
Proof.
  induction k as [|k IH]; intros Hk; cbn zeta.
  - cbn. split; [apply repeat_length|]. split; [intros j i Hj; lia|].
    intros n _ Hn. rewrite nth_error_repeat by exact Hn. reflexivity.
  - rewrite seq_S, fold_left_app. cbn [fold_left Nat.add].
    destruct IH as (Hlen & Hnth & Hrest); [lia|].
    set (done := fold_left (rowStep buffer width x y regionWidth) (seq 0 k)
                           (repeat x00 (regionWidth * regionHeight))) in *.
    set (source := subarray buffer ((y + k) * width + x)
                            ((y + k) * width + x + regionWidth)).
    assert (Hrow : List.length source <= regionWidth)
      by (unfold source; rewrite length_subarray; lia).
    assert (Hfit : k * regionWidth + regionWidth <= regionWidth * regionHeight) by nia.
    unfold rowStep. cbv zeta. fold source. split; [|split].
    + rewrite length_set; [exact Hlen|]. rewrite Hlen. lia.
    + intros j i Hj Hi. destruct (Nat.eq_dec j k) as [->|Hne].
      * destruct (Nat.lt_ge_cases i (List.length source)) as [Hin|Hout].
        -- rewrite nth_error_set_inside; [|lia|exact Hin].
           unfold source. rewrite nth_error_subarray by lia.
           unfold pixel_or_zero.
           destruct (nth_error buffer ((y + k) * width + x + i)) eqn:Hb; [reflexivity|].
           exfalso. apply nth_error_None in Hb.
           unfold source in Hin. rewrite length_subarray in Hin. lia.
        -- rewrite nth_error_set_after; [|lia|lia].
           rewrite Hrest by lia. unfold pixel_or_zero.
           rewrite (nth_error_subarray_short buffer ((y + k) * width + x)
                      ((y + k) * width + x + regionWidth) i); [reflexivity|exact Hout|lia].
      * rewrite nth_error_set_before; [apply Hnth; lia| |lia].
        assert (j < k) by lia. nia.
    + intros n Hn Hlt. rewrite nth_error_set_after; [apply Hrest; lia|nia|lia].
Qed.

Lemma extractRegion_pixel (buffer : list byte)
      (width x y regionWidth regionHeight : nat) :
  List.length (extractRegion buffer width x y regionWidth regionHeight)
  = regionWidth * regionHeight
  /\ forall i j, i < regionWidth -> j < regionHeight ->
       nth_error (extractRegion buffer width x y regionWidth regionHeight)
                 (j * regionWidth + i)
       = Some (pixel_or_zero buffer ((y + j) * width + (x + i))).
Proof.
  destruct (extractRegion_rows_padded buffer width x y regionWidth regionHeight
                                      regionHeight (le_n _)) as (Hlen & Hnth & _).
  split; [exact Hlen|]. intros i j Hi Hj.
  rewrite Nat.add_assoc. exact (Hnth j i Hj Hi).
Qed.

(** X3: [extractRegion] always returns [regionWidth * regionHeight] bytes.
    Pixel [(i, j)] of the result is the byte of the source buffer at the
    linear index [(y + j) * width + (x + i)], and 0 when that index lies
    past the end of the buffer: nothing checks the window against the image
    bounds. *)
Theorem X3_extractRegion_pixels (buffer : list byte)
        (width x y regionWidth regionHeight : nat) :
  List.length (extractRegion buffer width x y regionWidth regionHeight)
  = regionWidth * regionHeight
  /\ forall i j, i < regionWidth -> j < regionHeight ->
       nth_error (extractRegion buffer width x y regionWidth regionHeight)
                 (j * regionWidth + i)
       = Some (match nth_error buffer ((y + j) * width + (x + i)) with
               | Some b => b
               | None => x00
               end).
Proof.
  destruct (extractRegion_rows_padded buffer width x y regionWidth regionHeight
                                      regionHeight (le_n _)) as (Hlen & Hnth & _).
  split; [exact Hlen|]. intros i j Hi Hj.
  rewrite Nat.add_assoc. exact (Hnth j i Hj Hi).
Qed.

(** ** Conversion failures *)

(** X4: when the request passes the dimension validation and the codec
    fails, on the haystack or (the haystack being converted first) on the
    needle, [findMatches] throws "Failed to convert image to raw buffer: "
    followed by the codec's message, and [findMatch] returns that error
    with confidence 0 and location [Region(0,0,0,0)]. *)
Theorem X4_conversion_failure (codec : Image.t -> string + list byte)
        (matchRequest : MatchRequest.t) (message : string) :
  Image.width (MatchRequest.needle matchRequest)
    <= Image.width (MatchRequest.haystack matchRequest) ->
  Image.height (MatchRequest.needle matchRequest)
    <= Image.height (MatchRequest.haystack matchRequest) ->
  codec (MatchRequest.haystack matchRequest) = inl message
  \/ (codec (MatchRequest.needle matchRequest) = inl message
      /\ exists haystackBuffer,
          codec (MatchRequest.haystack matchRequest) = inr haystackBuffer) ->
  findMatches codec matchRequest
  = Throw (Error (String.append "Failed to convert image to raw buffer: " message))
  /\ findMatch codec matchRequest
     = Return (MatchResult.new 0%float (Region.new 0 0 0 0)
                 (Some (Error (String.append "Failed to convert image to raw buffer: "
                                             message)))).
Proof.
  intros Hw Hh Hfail.
  assert (Hv : needleTooLarge matchRequest = false) by (apply validation_passes; auto).
  assert (Hthrow : findMatches codec matchRequest
                   = Throw (Error (String.append "Failed to convert image to raw buffer: "
                                                 message))).
  { unfold needleTooLarge in Hv. unfold findMatches, imageToRawBuffer. cbv zeta.
    rewrite Hv. destruct Hfail as [Hhay|[Hndl [hb Hhay]]].
    - now rewrite Hhay.
    - now rewrite Hhay, Hndl. }
  split; [exact Hthrow|]. now apply findMatch_of_throw.
Qed.

(** ** NaN and flat windows *)

Lemma SFltb_not_leb (x y : spec_float) : SFltb x y = true -> SFleb y x = false.
Proof. unfold SFleb, SFltb. sf_cases; intros; sf_order. Qed.

Lemma ltb_not_leb (x y : float) :
  PrimFloat.ltb x y = true -> PrimFloat.leb y x = false.
Proof. rewrite FloatAxioms.ltb_spec, FloatAxioms.leb_spec. apply SFltb_not_leb. Qed.

Lemma calculateNCC_flat_window (regionBuffer needleBuffer : list byte)
      (needleMean needleStdDev : float) :
  PrimFloat.eqb (calculateStdDev regionBuffer (calculateMean regionBuffer)) 0%float = true ->
  PrimFloat.eqb needleStdDev 0%float = false ->
  calculateNCC regionBuffer needleBuffer needleMean needleStdDev = 0.0%float.
Proof. intros Hr Hn. unfold calculateNCC. cbv zeta. now rewrite Hr, Hn. Qed.

(** X8: with a needle of non-zero standard deviation and a threshold
    above 0, no returned match sits on a flat window: at the location of
    every match the standard deviation of the haystack window is not zero
    (a flat window gets confidence 0.0). *)
Theorem X8_flat_window_never_matches (codec : Image.t -> string + list byte)
        (matchRequest : MatchRequest.t) (haystackBuffer needleBuffer : list byte)
        (matches : list MatchResult.t) (m : MatchResult.t) :
  codec (MatchRequest.haystack matchRequest) = inr haystackBuffer ->
  codec (MatchRequest.needle matchRequest) = inr needleBuffer ->
  PrimFloat.eqb (calculateStdDev needleBuffer (calculateMean needleBuffer)) 0%float = false ->
  PrimFloat.ltb 0%float (threshold matchRequest) = true ->
  findMatches codec matchRequest = Return matches ->
  In m matches ->
  PrimFloat.eqb
    (calculateStdDev
       (extractRegion haystackBuffer (Image.width (MatchRequest.haystack matchRequest))
                      (Region.left (MatchResult.location m))
                      (Region.top (MatchResult.location m))
                      (Image.width (MatchRequest.needle matchRequest))
                      (Image.height (MatchRequest.needle matchRequest)))
       (calculateMean
          (extractRegion haystackBuffer (Image.width (MatchRequest.haystack matchRequest))
                         (Region.left (MatchResult.location m))
                         (Region.top (MatchResult.location m))
                         (Image.width (MatchRequest.needle matchRequest))
                         (Image.height (MatchRequest.needle matchRequest)))))
    0%float
  = false.
Proof.
  intros Hhay Hndl Hsd Hpos H Hin.
  destruct (findMatches_returns codec matchRequest _ H) as (hb & nb & Hv & Hhay' & Hndl' & ->).
  rewrite Hhay in Hhay'. rewrite Hndl in Hndl'.
  inversion Hhay'; inversion Hndl'; subst hb nb.
  rewrite (templateMatch_general _ _ _ _ _ _ _ Hsd) in Hin.
  apply in_generalMatches in Hin as (x & y & -> & _ & _ & Hle). cbn.
  match goal with |- ?b = false => destruct b eqn:Hflat end; [|reflexivity].
  unfold confidenceAt in Hle. cbn [fst snd] in Hle.
  rewrite (calculateNCC_flat_window _ _ _ _ Hflat Hsd) in Hle.
  rewrite (ltb_not_leb _ _ Hpos) in Hle. discriminate.
Qed.

Lemma filter_none {A : Type} (keep : A -> bool) (l : list A) :
  (forall a, In a l -> keep a = false) -> filter keep l = [].
Proof.
  induction l as [|a l IH]; intros H; [reflexivity|].
  cbn. rewrite (H a (or_introl eq_refl)). apply IH. intros b Hb. apply H. now right.
Qed.

(** ** Raising the threshold *)

Lemma filter_map_commute {A B : Type} (keep : B -> bool) (f : A -> B) (l : list A) :
  filter keep (map f l) = map f (filter (fun a => keep (f a)) l).
Proof.
  induction l as [|a l IH]; cbn; [reflexivity|].
  destruct (keep (f a)); cbn; now rewrite IH.
Qed.

Lemma filter_filter {A : Type} (p q : A -> bool) (l : list A) :
  (forall a, q a = true -> p a = true) ->
  filter q (filter p l) = filter q l.
Proof.
  intros Hqp. induction l as [|a l IH]; cbn; [reflexivity|].
  destruct (p a) eqn:Hp; cbn.
  - destruct (q a); now rewrite IH.
  - destruct (q a) eqn:Hq; [|exact IH]. rewrite (Hqp a Hq) in Hp. discriminate.
Qed.

Lemma generalMatches_refilter (haystackBuffer : list byte)
      (haystackWidth haystackHeight : nat) (needleBuffer : list byte)
      (needleWidth needleHeight : nat) (t1 t2 : float) :
  PrimFloat.leb t1 t2 = true ->
  generalMatches haystackBuffer haystackWidth haystackHeight needleBuffer
                 needleWidth needleHeight t2
  = filter (fun m => PrimFloat.leb t2 (MatchResult.confidence m))
           (generalMatches haystackBuffer haystackWidth haystackHeight needleBuffer
                           needleWidth needleHeight t1).
Proof.
  intros Hle. unfold generalMatches. rewrite filter_map_commute. cbn.
  rewrite filter_filter; [reflexivity|].
  intros xy H2. exact (leb_trans _ _ _ Hle H2).
Qed.

(** X10: with a needle of non-zero standard deviation, the matches at a
    threshold [t2] are the matches at a lower threshold [t1], filtered by
    [confidence >= t2] and kept in their order. *)
Theorem X10_raised_threshold_is_a_filter (codec : Image.t -> string + list byte)
        (haystack needle : Image.t) (haystackBuffer needleBuffer : list byte)
        (t1 t2 : float) (matches1 : list MatchResult.t) :
  codec needle = inr needleBuffer ->
  PrimFloat.eqb (calculateStdDev needleBuffer (calculateMean needleBuffer)) 0%float = false ->
  PrimFloat.leb t1 t2 = true ->
  findMatches codec (MatchRequest.new haystack needle (Some t1)) = Return matches1 ->
  findMatches codec (MatchRequest.new haystack needle (Some t2))
  = Return (filter (fun m => PrimFloat.leb t2 (MatchResult.confidence m)) matches1).
Proof.
  intros Hndl Hsd Hle H1.
  destruct (findMatches_returns codec _ _ H1) as (hb & nb & Hv & Hhay & Hndl' & ->).
  cbn in Hhay, Hndl'. rewrite Hndl in Hndl'. inversion Hndl'; subst nb.
  rewrite (findMatches_general codec (MatchRequest.new haystack needle (Some t2)) hb
                               needleBuffer Hv Hhay Hndl Hsd).
  cbn. rewrite (templateMatch_general _ _ _ _ _ _ _ Hsd).
  f_equal. now apply generalMatches_refilter.
Qed.

(** The reduction of [findMatch] keeps a best element that nothing after it
    exceeds, and moves to an element that exceeds everything before it. *)
Lemma fold_better_after (best : MatchResult.t) (after : list MatchResult.t) :
  (forall m, In m after ->
     PrimFloat.leb (MatchResult.confidence m) (MatchResult.confidence best) = true) ->
  fold_left better after best = best.
Proof.
  induction after as [|a after IH]; intros Hafter; [reflexivity|].
  cbn [fold_left]. unfold better at 2.
  assert (Ha : PrimFloat.leb (MatchResult.confidence a) (MatchResult.confidence best) = true)
    by (apply Hafter; now left).
  destruct (PrimFloat.ltb _ _) eqn:Hlt.
  - rewrite (ltb_not_leb _ _ Hlt) in Ha. discriminate.
  - apply IH. intros m Hm. apply Hafter. now right.
Qed.

Lemma fold_better_before (before : list MatchResult.t) (current best : MatchResult.t)
      (after : list MatchResult.t) :
  (forall m, In m (current :: before) ->
     PrimFloat.ltb (MatchResult.confidence m) (MatchResult.confidence best) = true) ->
  fold_left better (before ++ best :: after) current = fold_left better after best.
Proof.
  revert current. induction before as [|b before IH]; intros current Hbefore.
  - cbn [app fold_left]. unfold better at 2.
    now rewrite (Hbefore current (or_introl eq_refl)).
  - cbn [app fold_left]. apply IH. intros m [<-|Hm].
    + unfold better.
      destruct (PrimFloat.ltb (MatchResult.confidence current) (MatchResult.confidence b));
        apply Hbefore; [right; now left|now left].
    + apply Hbefore. right. now right.
Qed.

Lemma fold_better_unique (before after : list MatchResult.t) (best first : MatchResult.t)
      (rest : list MatchResult.t) :
  first :: rest = before ++ best :: after ->
  (forall m, In m before ->
     PrimFloat.ltb (MatchResult.confidence m) (MatchResult.confidence best) = true) ->
  (forall m, In m after ->
     PrimFloat.leb (MatchResult.confidence m) (MatchResult.confidence best) = true) ->
  fold_left better rest first = best.
Proof.
  intros Heq Hbefore Hafter. destruct before as [|b before]; cbn in Heq; inversion Heq.
  - now apply fold_better_after.
  - rewrite fold_better_before; [now apply fold_better_after|].
    intros m [<-|Hm]; apply Hbefore; [now left|now right].
Qed.

(** X12: with a needle of non-zero standard deviation, raising the
    threshold from [t1] to [t2] leaves the best match of [findMatch]
    unchanged as long as its confidence reaches [t2]; when it does not,
    [findMatch] at [t2] reports "No matches found". *)
Theorem X12_best_match_under_raised_threshold
        (codec : Image.t -> string + list byte)
        (haystack needle : Image.t) (needleBuffer : list byte)
        (t1 t2 : float) (best : MatchResult.t) :
  codec needle = inr needleBuffer ->
  PrimFloat.eqb (calculateStdDev needleBuffer (calculateMean needleBuffer)) 0%float = false ->
  PrimFloat.leb t1 t2 = true ->
  findMatch codec (MatchRequest.new haystack needle (Some t1)) = Return best ->
  MatchResult.error best = None ->
  findMatch codec (MatchRequest.new haystack needle (Some t2))
  = Return (if PrimFloat.leb t2 (MatchResult.confidence best)
            then best
            else MatchResult.new 0%float (Region.new 0 0 0 0)
                                 (Some (Error "No matches found"))).
Proof.
  intros Hndl Hsd Hle Hbest Herr.
  destruct (findMatches codec (MatchRequest.new haystack needle (Some t1)))
    as [[|first rest]|error] eqn:H1.
  - rewrite (findMatch_of_empty _ _ H1) in Hbest. inversion Hbest; subst best. discriminate.
  - pose proof (findMatch_of_cons _ _ _ _ H1) as Hfold. rewrite Hbest in Hfold.
    injection Hfold as Hfold. symmetry in Hfold.
    destruct (findMatches_returns codec _ _ H1) as (hb & nb & Hv & Hhay & Hndl' & Heq).
    cbn in Hhay, Hndl', Heq. rewrite Hndl in Hndl'. inversion Hndl'; subst nb.
    assert (Hnum : forall m, In m (first :: rest) -> is_number (MatchResult.confidence m))
      by (rewrite Heq; intros m; apply templateMatch_confidence_number).
    destruct (fold_better_invariant [] first [] rest) as (before & after & Hsplit & Hb & Ha);
      [intros p []|intros q []|apply Hnum; now left|intros m Hm; apply Hnum; now right|].
    rewrite Hfold in Hsplit, Hb, Ha. cbn [app] in Hsplit.
    assert (Hg : generalMatches hb (Image.width haystack) (Image.height haystack)
                                needleBuffer (Image.width needle) (Image.height needle) t1
                 = before ++ best :: after).
    { rewrite <- Hsplit, Heq. symmetry. exact (templateMatch_general _ _ _ _ _ _ _ Hsd). }
    assert (H2 : findMatches codec (MatchRequest.new haystack needle (Some t2))
                 = Return (filter (fun m => PrimFloat.leb t2 (MatchResult.confidence m))
                                  (before ++ best :: after))).
    { rewrite (findMatches_general codec (MatchRequest.new haystack needle (Some t2)) hb
                                   needleBuffer Hv Hhay Hndl Hsd).
      cbn. rewrite (generalMatches_refilter _ _ _ _ _ _ t1 t2 Hle).
      now rewrite Hg. }
    rewrite filter_app in H2. cbn [filter] in H2.
    destruct (PrimFloat.leb t2 (MatchResult.confidence best)) eqn:Hpass.
    + destruct (filter (fun m => PrimFloat.leb t2 (MatchResult.confidence m)) before
                ++ best :: filter (fun m => PrimFloat.leb t2 (MatchResult.confidence m)) after)
        as [|first2 rest2] eqn:Hl2.
      * destruct (filter _ before); discriminate.
      * rewrite (findMatch_of_cons _ _ _ _ H2). f_equal.
        apply (fold_better_unique _ _ _ _ _ (eq_sym Hl2)).
        -- intros m Hm. apply filter_In in Hm as [Hm _]. now apply Hb.
        -- intros m Hm. apply filter_In in Hm as [Hm _]. now apply Ha.
    + rewrite !filter_none in H2.
      * now apply findMatch_of_empty.
      * intros m Hm. destruct (PrimFloat.leb t2 (MatchResult.confidence m)) eqn:Hm2;
          [|reflexivity].
        rewrite (leb_trans _ _ _ Hm2 (Ha m Hm)) in Hpass. discriminate.
      * intros m Hm. destruct (PrimFloat.leb t2 (MatchResult.confidence m)) eqn:Hm2;
          [|reflexivity].
        rewrite (leb_trans _ _ _ Hm2 (ltb_leb _ _ (Hb m Hm))) in Hpass. discriminate.
  - rewrite (findMatch_of_throw _ _ _ H1) in Hbest. inversion Hbest; subst best. discriminate.
Qed.

(** ** Number of statistics calls *)

(** X11: the scan computes the mean and the standard deviation of the
    needle once, and in the general branch those of every candidate window
    once each, afresh: 2 statistics calls for a uniform needle and
    [2 + 2 * (haystackWidth - needleWidth + 1) * (haystackHeight -
    needleHeight + 1)] otherwise. *)
Theorem X11_statistics_calls (haystackBuffer : list byte)
        (haystackWidth haystackHeight : nat) (needleBuffer : list byte)
        (needleWidth needleHeight : nat) (minConfidence : float) :
  needleWidth <= haystackWidth ->
  needleHeight <= haystackHeight ->
  List.length (snd (templateMatchLogged haystackBuffer haystackWidth haystackHeight
                                        needleBuffer needleWidth needleHeight minConfidence))
  = if PrimFloat.eqb (calculateStdDev needleBuffer (calculateMean needleBuffer)) 0%float
    then 2
    else 2 + 2 * ((haystackWidth - needleWidth + 1) * (haystackHeight - needleHeight + 1)).
Proof.
  intros Hw Hh. rewrite templateMatchLogged_spec. cbn [snd List.length].
  destruct (PrimFloat.eqb _ _); [reflexivity|].
  rewrite (flat_map_constant_length (c := 2)) by reflexivity.
  rewrite length_raster.
  replace (Z.to_nat (Z.of_nat haystackWidth - Z.of_nat needleWidth + 1))
    with (haystackWidth - needleWidth + 1) by lia.
  replace (Z.to_nat (Z.of_nat haystackHeight - Z.of_nat needleHeight + 1))
    with (haystackHeight - needleHeight + 1) by lia.
  lia.
Qed.

(** ** A needle of one pixel *)

Lemma u8_to_nat (b : byte) : u8 (Byte.to_nat b) = b.
Proof.
  unfold u8. rewrite <- Byte.to_N_via_nat.
  pose proof (Byte.to_N_bounded b) as Hb.
  rewrite N.mod_small by lia. now rewrite Byte.of_to_N.
Qed.

Lemma in_all_bytes (b : byte) : In b (map u8 (seq 0 256)).
Proof.
  apply in_map_iff. exists (Byte.to_nat b). split; [apply u8_to_nat|].
  apply in_seq. pose proof (Byte.to_nat_bounded b). lia.
Qed.

Lemma of_byte_eqb_check :
  forallb (fun a =>
             forallb (fun b => Bool.eqb (PrimFloat.eqb (of_byte a) (of_byte b))
                                        (Byte.eqb a b))
                     (map u8 (seq 0 256)))
          (map u8 (seq 0 256)) = true.
Proof. vm_compute. reflexivity. Qed.

(** Two bytes are equal as numbers exactly when they are the same byte. *)
Lemma of_byte_eqb (a b : byte) :
  PrimFloat.eqb (of_byte a) (of_byte b) = true <-> a = b.
Proof.
  pose proof of_byte_eqb_check as H. rewrite forallb_forall in H.
  specialize (H a (in_all_bytes a)). rewrite forallb_forall in H.
  specialize (H b (in_all_bytes b)). apply Bool.eqb_prop in H. rewrite H.
  split; [apply Byte.byte_dec_bl|apply Byte.byte_dec_lb].
Qed.

Lemma single_pixel_statistics_check :
  forallb (fun b => Bool.eqb (PrimFloat.eqb (calculateMean [b]) (of_byte b)) true
                    && PrimFloat.eqb (calculateStdDev [b] (calculateMean [b])) 0%float
                    && PrimFloat.eqb (calculateMean [b]) (calculateMean [b]))
          (map u8 (seq 0 256)) = true.
Proof. vm_compute. reflexivity. Qed.

(** The mean of a one-pixel buffer is the pixel, its standard deviation is
    zero. *)
Lemma single_pixel_statistics (b a : byte) :
  PrimFloat.eqb (calculateStdDev [b] (calculateMean [b])) 0%float = true
  /\ (PrimFloat.eqb (of_byte a) (calculateMean [b]) = true <-> a = b).
Proof.
  pose proof single_pixel_statistics_check as H. rewrite forallb_forall in H.
  specialize (H b (in_all_bytes b)).
  apply andb_true_iff in H as [H _]. apply andb_true_iff in H as [Hmean Hsd].
  apply Bool.eqb_prop in Hmean. split; [exact Hsd|].
  rewrite <- (of_byte_eqb a b).
  (* eqb is transitive on numbers: compare through the specification *)
  rewrite !FloatAxioms.eqb_spec in *.
  revert Hmean. generalize (Prim2SF (calculateMean [b])), (Prim2SF (of_byte b)), (Prim2SF (of_byte a)).
  intros x y z. unfold SFeqb. sf_cases; intros; sf_order.
Qed.

(** X6: a needle of a single pixel always takes the exact-match branch:
    [findMatches] returns exactly the positions of the haystack that hold
    the needle's byte, each as a 1 x 1 region with confidence 1.0,
    whatever the threshold. *)
Theorem X6_single_pixel_needle (codec : Image.t -> string + list byte)
        (matchRequest : MatchRequest.t) (haystackBuffer : list byte) (pixel : byte) :
  Image.width (MatchRequest.needle matchRequest) = 1 ->
  Image.height (MatchRequest.needle matchRequest) = 1 ->
  1 <= Image.width (MatchRequest.haystack matchRequest) ->
  1 <= Image.height (MatchRequest.haystack matchRequest) ->
  codec (MatchRequest.haystack matchRequest) = inr haystackBuffer ->
  codec (MatchRequest.needle matchRequest) = inr [pixel] ->
  exists matches,
    findMatches codec matchRequest = Return matches
    /\ forall m,
        In m matches
        <-> exists x y,
            x < Image.width (MatchRequest.haystack matchRequest)
            /\ y < Image.height (MatchRequest.haystack matchRequest)
            /\ nth_error haystackBuffer
                         (y * Image.width (MatchRequest.haystack matchRequest) + x)
               = Some pixel
            /\ m = MatchResult.new 1.0%float (Region.new x y 1 1) None.
Proof.
  intros Hnw Hnh Hw Hh Hhay Hndl.
  assert (Hv : needleTooLarge matchRequest = false) by (apply validation_passes; lia).
  destruct (single_pixel_statistics pixel pixel) as [Hsd _].
  eexists. split; [exact (findMatches_uniform codec matchRequest _ _ Hv Hhay Hndl Hsd)|].
  intros m. rewrite in_uniformMatches, Hnw, Hnh.
  assert (Hwin : forall x y,
             windowEquals haystackBuffer (Image.width (MatchRequest.haystack matchRequest))
                          1 1 (calculateMean [pixel]) x y
             <-> nth_error haystackBuffer
                           (y * Image.width (MatchRequest.haystack matchRequest) + x)
                 = Some pixel).
  { intros x y. unfold windowEquals. split.
    - intros H. destruct (H 0 0 ltac:(lia) ltac:(lia)) as (b & Hb & Heq).
      rewrite !Nat.add_0_r in Hb. rewrite Hb. f_equal.
      now apply (single_pixel_statistics pixel b).
    - intros H i j Hi Hj. assert (i = 0) by lia. assert (j = 0) by lia. subst i j.
      rewrite !Nat.add_0_r. exists pixel. split; [exact H|].
      now apply (single_pixel_statistics pixel pixel). }
  split.
  - intros (x & y & -> & Hx & Hy & Hall). exists x, y.
    repeat split; [lia|lia|now apply Hwin].
  - intros (x & y & Hx & Hy & Hpix & ->). exists x, y.
    repeat split; [lia|lia|now apply Hwin].
Qed.

(** ** Ties *)

Lemma sorted_app_cons {A : Type} (R : A -> A -> Prop) (before after : list A) (a : A) :
  StronglySorted R (before ++ a :: after) -> Forall (R a) after.
Proof.
  induction before as [|b before IH]; cbn; intros H; inversion H; subst; auto.
Qed.

(** X13: among the matches of maximal confidence [findMatch] returns the
    top-most one, and the left-most one in that row: any other match whose
    confidence is not below that of the best lies after it in raster
    order. *)
Theorem X13_ties_go_to_the_first_region (codec : Image.t -> string + list byte)
        (matchRequest : MatchRequest.t) (matches : list MatchResult.t)
        (best other : MatchResult.t) :
  findMatches codec matchRequest = Return matches ->
  findMatch codec matchRequest = Return best ->
  In other matches ->
  PrimFloat.leb (MatchResult.confidence best) (MatchResult.confidence other) = true ->
  other = best
  \/ raster_lt (MatchResult.location best) (MatchResult.location other).
Proof.
  intros H Hbest Hother Hle.
  destruct matches as [|first rest]; [destruct Hother|].
  rewrite (findMatch_of_cons _ _ _ _ H) in Hbest. injection Hbest as Hfold.
  destruct (findMatches_returns codec matchRequest _ H) as (hb & nb & _ & _ & _ & Heq).
  assert (Hnum : forall m, In m (first :: rest) -> is_number (MatchResult.confidence m))
    by (rewrite Heq; intros m; apply templateMatch_confidence_number).
  destruct (fold_better_invariant [] first [] rest) as (before & after & Hsplit & Hb & Ha);
    [intros p []|intros q []|apply Hnum; now left|intros m Hm; apply Hnum; now right|].
  rewrite Hfold in Hsplit, Hb, Ha. cbn [app] in Hsplit.
  pose proof (templateMatch_sorted hb (Image.width (MatchRequest.haystack matchRequest))
                (Image.height (MatchRequest.haystack matchRequest)) nb
                (Image.width (MatchRequest.needle matchRequest))
                (Image.height (MatchRequest.needle matchRequest))
                (threshold matchRequest)) as Hsorted.
  rewrite <- Heq, Hsplit, map_app in Hsorted. cbn [map] in Hsorted.
  apply sorted_app_cons in Hsorted. rewrite Forall_forall in Hsorted.
  rewrite Hsplit in Hother. apply in_app_or in Hother as [Hin|[Heqb|Hin]].
  - rewrite (ltb_not_leb _ _ (Hb other Hin)) in Hle. discriminate.
  - left. now symmetry.
  - right. apply Hsorted. now apply in_map.
Qed.

(** ** Regions of regions *)

Lemma pixels_ext (regionWidth regionHeight : nat) (l1 l2 : list byte) :
  List.length l1 = regionWidth * regionHeight ->
  List.length l2 = regionWidth * regionHeight ->
  (forall i j, i < regionWidth -> j < regionHeight ->
     nth_error l1 (j * regionWidth + i) = nth_error l2 (j * regionWidth + i)) ->
  l1 = l2.
Proof.
  intros H1 H2 Hpix. apply nth_error_ext. intros n.
  destruct (Nat.lt_ge_cases n (regionWidth * regionHeight)) as [Hn|Hn].
  - assert (Hw : regionWidth <> 0) by nia.
    pose proof (Nat.div_mod n regionWidth Hw) as Hdm.
    pose proof (Nat.mod_upper_bound n regionWidth Hw) as Hmod.
    assert (Hdiv : n / regionWidth < regionHeight).
    { apply Nat.Div0.div_lt_upper_bound. lia. }
    specialize (Hpix (n mod regionWidth) (n / regionWidth) Hmod Hdiv).
    replace (n / regionWidth * regionWidth + n mod regionWidth) with n in Hpix by lia.
    exact Hpix.
  - rewrite (proj2 (nth_error_None l1 n)), (proj2 (nth_error_None l2 n)); [reflexivity|lia|lia].
Qed.

(** X14: extracting the whole image, at offset (0, 0) with the image's
    own dimensions, returns the buffer unchanged. *)
Theorem X14_extractRegion_whole_image (buffer : list byte) (width height : nat) :
  List.length buffer = width * height ->
  extractRegion buffer width 0 0 width height = buffer.
Proof.
  intros Hlen.
  destruct (extractRegion_pixel buffer width 0 0 width height) as (Hl & Hnth).
  apply (pixels_ext width height); [exact Hl|exact Hlen|].
  intros i j Hi Hj. rewrite (Hnth i j Hi Hj). unfold pixel_or_zero. cbn [Nat.add].
  destruct (nth_error buffer (j * width + i)) eqn:Hb; [reflexivity|].
  apply nth_error_None in Hb. nia.
Qed.

Lemma extractRegion_inner_pixel (buffer : list byte)
      (width x y regionWidth regionHeight x' y' innerWidth innerHeight i j : nat) :
  x' + innerWidth <= regionWidth ->
  y' + innerHeight <= regionHeight ->
  i < innerWidth -> j < innerHeight ->
  nth_error (extractRegion (extractRegion buffer width x y regionWidth regionHeight)
                           regionWidth x' y' innerWidth innerHeight)
            (j * innerWidth + i)
  = nth_error (extractRegion buffer width (x + x') (y + y') innerWidth innerHeight)
              (j * innerWidth + i).
Proof.
  intros Hx Hy Hi Hj.
  destruct (extractRegion_pixel buffer width x y regionWidth regionHeight)
    as (_ & Houter).
  destruct (extractRegion_pixel
              (extractRegion buffer width x y regionWidth regionHeight)
              regionWidth x' y' innerWidth innerHeight) as (_ & Hinner).
  destruct (extractRegion_pixel buffer width (x + x') (y + y') innerWidth innerHeight)
    as (_ & Hdirect).
  rewrite (Hinner i j Hi Hj), (Hdirect i j Hi Hj). f_equal.
  unfold pixel_or_zero at 1.
  rewrite (Houter (x' + i) (y' + j)) by lia.
  f_equal. lia.
Qed.

(** X15: extracting a window of an extracted region gives the window of
    the source buffer at the sum of the two offsets, whenever the inner
    window lies inside the outer region. *)
Theorem X15_extractRegion_composes (buffer : list byte)
        (width x y regionWidth regionHeight x' y' innerWidth innerHeight : nat) :
  x' + innerWidth <= regionWidth ->
  y' + innerHeight <= regionHeight ->
  extractRegion (extractRegion buffer width x y regionWidth regionHeight)
                regionWidth x' y' innerWidth innerHeight
  = extractRegion buffer width (x + x') (y + y') innerWidth innerHeight.
Proof.
  intros Hx Hy. apply (pixels_ext innerWidth innerHeight).
  - apply extractRegion_pixel.
  - apply extractRegion_pixel.
  - intros i j Hi Hj. now apply extractRegion_inner_pixel.
Qed.

(** ** Matching inside a crop of the haystack *)

Lemma windowEquals_crop (haystackBuffer : list byte) (haystackWidth haystackHeight : nat)
      (x0 y0 cropWidth cropHeight needleWidth needleHeight : nat) (value : float)
      (x y : nat) :
  x0 + cropWidth <= haystackWidth ->
  y0 + cropHeight <= haystackHeight ->
  List.length haystackBuffer = haystackWidth * haystackHeight ->
  x + needleWidth <= cropWidth ->
  y + needleHeight <= cropHeight ->
  windowEquals (extractRegion haystackBuffer haystackWidth x0 y0 cropWidth cropHeight)
               cropWidth needleWidth needleHeight value x y
  <-> windowEquals haystackBuffer haystackWidth needleWidth needleHeight value
                   (x0 + x) (y0 + y).
Proof.
  intros Hx0 Hy0 Hlen Hx Hy.
  destruct (extractRegion_pixel haystackBuffer haystackWidth x0 y0 cropWidth cropHeight)
    as (_ & Hpix).
  assert (Hsame : forall i j, i < needleWidth -> j < needleHeight ->
            nth_error (extractRegion haystackBuffer haystackWidth x0 y0 cropWidth cropHeight)
                      ((y + j) * cropWidth + (x + i))
            = nth_error haystackBuffer ((y0 + y + j) * haystackWidth + (x0 + x + i))).
  { intros i j Hi Hj. rewrite (Hpix (x + i) (y + j)) by lia. unfold pixel_or_zero.
    replace ((y0 + (y + j)) * haystackWidth + (x0 + (x + i)))
      with ((y0 + y + j) * haystackWidth + (x0 + x + i)) by lia.
    destruct (nth_error haystackBuffer _) eqn:Hb; [reflexivity|].
    apply nth_error_None in Hb. nia. }
  unfold windowEquals. split; intros H i j Hi Hj;
    destruct (H i j Hi Hj) as (b & Hb & Heq); exists b; split; try exact Heq;
    [rewrite <- Hsame by assumption|rewrite Hsame by assumption]; exact Hb.
Qed.

Lemma confidenceAt_crop (haystackBuffer : list byte) (haystackWidth : nat)
      (x0 y0 cropWidth cropHeight : nat) (needleBuffer : list byte)
      (needleWidth needleHeight x y : nat) :
  x + needleWidth <= cropWidth ->
  y + needleHeight <= cropHeight ->
  confidenceAt (extractRegion haystackBuffer haystackWidth x0 y0 cropWidth cropHeight)
               cropWidth needleBuffer needleWidth needleHeight (x, y)
  = confidenceAt haystackBuffer haystackWidth needleBuffer needleWidth needleHeight
                 (x0 + x, y0 + y).
Proof.
  intros Hx Hy. unfold confidenceAt. cbn [fst snd].
  replace (extractRegion
             (extractRegion haystackBuffer haystackWidth x0 y0 cropWidth cropHeight)
             cropWidth x y needleWidth needleHeight)
    with (extractRegion haystackBuffer haystackWidth (x0 + x) (y0 + y)
                        needleWidth needleHeight); [reflexivity|].
  symmetry. apply (pixels_ext needleWidth needleHeight);
    [apply extractRegion_pixel|apply extractRegion_pixel|].
  intros i j Hi Hj. now apply extractRegion_inner_pixel.
Qed.

(** X17: matching inside a crop of the haystack finds the matches of the
    whole haystack that lie inside the crop, with the same confidence and
    with offsets relative to the crop: a match at [(x, y)] in the crop at
    [(x0, y0)] is a match at [(x0 + x, y0 + y)] in the haystack, and
    conversely. *)
Theorem X17_matches_in_a_crop (haystackBuffer : list byte)
        (haystackWidth haystackHeight x0 y0 cropWidth cropHeight : nat)
        (needleBuffer : list byte) (needleWidth needleHeight : nat)
        (minConfidence : float) (x y : nat) (confidence : float) :
  x0 + cropWidth <= haystackWidth ->
  y0 + cropHeight <= haystackHeight ->
  List.length haystackBuffer = haystackWidth * haystackHeight ->
  In (MatchResult.new confidence (Region.new x y needleWidth needleHeight) None)
     (templateMatch
        (extractRegion haystackBuffer haystackWidth x0 y0 cropWidth cropHeight)
        cropWidth cropHeight needleBuffer needleWidth needleHeight minConfidence)
  <-> x + needleWidth <= cropWidth
      /\ y + needleHeight <= cropHeight
      /\ In (MatchResult.new confidence
               (Region.new (x0 + x) (y0 + y) needleWidth needleHeight) None)
            (templateMatch haystackBuffer haystackWidth haystackHeight
                           needleBuffer needleWidth needleHeight minConfidence).
Proof.
  intros Hx0 Hy0 Hlen. rewrite !templateMatch_branches.
  destruct (PrimFloat.eqb _ _).
  - rewrite !in_uniformMatches. split.
    + intros (x' & y' & Heq & Hx & Hy & Hall). inversion Heq; subst x' y' confidence.
      split; [exact Hx|]. split; [exact Hy|]. exists (x0 + x), (y0 + y).
      split; [reflexivity|]. split; [lia|]. split; [lia|].
      exact (proj1 (windowEquals_crop _ _ haystackHeight _ _ _ _ _ _ _ _ _
                                      Hx0 Hy0 Hlen Hx Hy) Hall).
    + intros (Hx & Hy & x' & y' & Heq & _ & _ & Hall). inversion Heq; subst x' y' confidence.
      exists x, y. split; [reflexivity|]. split; [exact Hx|]. split; [exact Hy|].
      exact (proj2 (windowEquals_crop _ _ haystackHeight _ _ _ _ _ _ _ _ _
                                      Hx0 Hy0 Hlen Hx Hy) Hall).
  - rewrite !in_generalMatches. split.
    + intros (x' & y' & Heq & Hx & Hy & Hle). inversion Heq; subst x' y'.
      split; [lia|]. split; [lia|]. exists (x0 + x), (y0 + y).
      rewrite <- (confidenceAt_crop haystackBuffer haystackWidth x0 y0 cropWidth cropHeight)
        by lia.
      split; [reflexivity|]. split; [lia|]. split; [lia|exact Hle].
    + intros (Hx & Hy & x' & y' & Heq & _ & _ & Hle). inversion Heq; subst x' y'.
      exists x, y. rewrite confidenceAt_crop by lia.
      split; [reflexivity|]. split; [lia|]. split; [lia|exact Hle].
Qed.

(** ** A threshold that is not a number *)

Lemma SFleb_nan_l (x y : spec_float) : SFeqb x x = false -> SFleb x y = false.
Proof. unfold SFleb, SFeqb. sf_cases; intros; sf_order. Qed.

Lemma leb_nan_l (x y : float) : PrimFloat.eqb x x = false -> PrimFloat.leb x y = false.
Proof. rewrite FloatAxioms.eqb_spec, FloatAxioms.leb_spec. apply SFleb_nan_l. Qed.

(** X16: with a needle of non-zero standard deviation and a threshold that
    is [NaN], every candidate fails the threshold test: [findMatches]
    returns the empty list and [findMatch] reports "No matches found". *)
Theorem X16_nan_threshold_matches_nothing (codec : Image.t -> string + list byte)
        (haystack needle : Image.t) (haystackBuffer needleBuffer : list byte)
        (minConfidence : float) :
  Image.width needle <= Image.width haystack ->
  Image.height needle <= Image.height haystack ->
  codec haystack = inr haystackBuffer ->
  codec needle = inr needleBuffer ->
  PrimFloat.eqb (calculateStdDev needleBuffer (calculateMean needleBuffer)) 0%float = false ->
  PrimFloat.eqb minConfidence minConfidence = false ->
  findMatches codec (MatchRequest.new haystack needle (Some minConfidence)) = Return []
  /\ findMatch codec (MatchRequest.new haystack needle (Some minConfidence))
     = Return (MatchResult.new 0%float (Region.new 0 0 0 0)
                 (Some (Error "No matches found"))).
Proof.
  intros Hw Hh Hhay Hndl Hsd Hnan.
  assert (Hempty : findMatches codec (MatchRequest.new haystack needle (Some minConfidence))
                   = Return []).
  { rewrite (findMatches_general codec _ haystackBuffer needleBuffer);
      [|apply validation_passes; cbn; auto|exact Hhay|exact Hndl|exact Hsd].
    f_equal. unfold generalMatches. rewrite filter_none; [reflexivity|].
    intros xy _. now apply leb_nan_l. }
  split; [exact Hempty|]. now apply findMatch_of_empty.
Qed.

(** ** A zero standard deviation *)

Lemma SFeqb_join (x y z : spec_float) :
  SFeqb x z = true -> SFeqb y z = true -> SFeqb x y = true.
Proof. unfold SFeqb. sf_cases; intros; sf_order. Qed.

Lemma eqb_join (x y z : float) :
  PrimFloat.eqb x z = true -> PrimFloat.eqb y z = true -> PrimFloat.eqb x y = true.
Proof. rewrite !FloatAxioms.eqb_spec. apply SFeqb_join. Qed.

Lemma reg_is_number (x : float) : reg x -> is_number x.
Proof.
  unfold reg, is_number. rewrite FloatAxioms.eqb_spec.
  destruct (Prim2SF x) as [s|s| |s m e]; try contradiction; intros _.
  - reflexivity.
  - unfold SFeqb, SFcompare. rewrite Z.compare_refl.
    change (PosDef.Pos.compare_cont Eq m m) with (Pos.compare m m).
    rewrite Pos.compare_refl. now destruct s.
Qed.

(** X18: "if the needle has zero standard deviation, it's a uniform
    image".  For a buffer of 1 to [2^32] bytes the mean is a number, and
    the test [stdDev === 0] is exact in this direction: when it holds,
    every pixel equals the mean and all pixels are the same byte; when it
    fails, the variance is a normal binary64 number, neither zero nor
    subnormal, infinite or [NaN]. *)
Theorem X18_zero_deviation_means_uniform (buffer : list byte) :
  (1 <= Z.of_nat (List.length buffer) <= 2 ^ 32)%Z ->
  is_number (calculateMean buffer)
  /\ (PrimFloat.eqb (calculateStdDev buffer (calculateMean buffer)) 0%float = true ->
      uniformNeedle buffer /\ forall a b, In a buffer -> In b buffer -> a = b)
  /\ (PrimFloat.eqb (calculateStdDev buffer (calculateMean buffer)) 0%float = false ->
      normalVariance buffer).
Proof.
  intros Hn. split; [apply reg_is_number, (mean_ok buffer Hn)|].
  destruct (needle_dichotomy buffer Hn) as [[Hsd Huni]|Hnormal].
  - split; [|rewrite Hsd; discriminate].
    intros _. split; [exact Huni|].
    destruct Huni as [_ Hall]. rewrite Forall_forall in Hall.
    intros a b Ha Hb. apply of_byte_eqb.
    exact (eqb_join _ _ _ (Hall a Ha) (Hall b Hb)).
  - pose proof (normalVariance_general _ Hnormal) as Hsd.
    split; [rewrite Hsd; discriminate|]. intros _. exact Hnormal.
Qed.

(** ** The further properties at concrete requests *)

Lemma X1_witness :
  MatchResult.error (MatchResult.new 1.0%float (Region.new 1 1 2 2) None) = None
  /\ Region.width (Region.new 1 1 2 2) = 2
  /\ Region.height (Region.new 1 1 2 2) = 2
  /\ 1 + 2 <= 4
  /\ 1 + 2 <= 4
  /\ Region.area (Region.new 1 1 2 2) = 2 * 2
  /\ (1.0%float = 1.0%float
      \/ PrimFloat.leb DEFAULT_CONFIDENCE 1.0%float = true).
Proof.
  apply (X1_matches_lie_inside_haystack raw_codec
           (MatchRequest.new scenarioHaystack scenarioNeedle None)
           [MatchResult.new 1.0%float (Region.new 1 1 2 2) None]
           (MatchResult.new 1.0%float (Region.new 1 1 2 2) None)).
  - vm_compute. reflexivity.
  - now left.
Defined.

Lemma X2_witness :
  NoDup (map MatchResult.location
             [MatchResult.new 1.0%float (Region.new 0 0 2 2) None;
              MatchResult.new 1.0%float (Region.new 1 0 2 2) None])
  /\ 2 <= (3 - 2 + 1) * (2 - 2 + 1).
Proof.
  apply (X2_one_match_per_offset raw_codec
           (MatchRequest.new flatHaystack scenarioNeedle None)
           [MatchResult.new 1.0%float (Region.new 0 0 2 2) None;
            MatchResult.new 1.0%float (Region.new 1 0 2 2) None]).
  vm_compute. reflexivity.
Defined.

Lemma X4_witness :
  findMatches raw_codec (MatchRequest.new rampHaystack brokenNeedle None)
  = Throw (Error (String.append "Failed to convert image to raw buffer: "
                    "Input buffer size does not match width, height and channels"))
  /\ findMatch raw_codec (MatchRequest.new rampHaystack brokenNeedle None)
     = Return (MatchResult.new 0%float (Region.new 0 0 0 0)
                 (Some (Error (String.append "Failed to convert image to raw buffer: "
                                 "Input buffer size does not match width, height and channels")))).
Proof.
  apply (X4_conversion_failure raw_codec
           (MatchRequest.new rampHaystack brokenNeedle None)).
  - cbn. lia.
  - cbn. lia.
  - right. split; [reflexivity|]. eexists. reflexivity.
Defined.

Lemma X6_witness :
  exists matches,
    findMatches raw_codec (MatchRequest.new scenarioHaystack pixelNeedle None)
    = Return matches
    /\ forall m,
        In m matches
        <-> exists x y,
            x < 4 /\ y < 4
            /\ nth_error (Image.data scenarioHaystack) (y * 4 + x) = Some (u8 200)
            /\ m = MatchResult.new 1.0%float (Region.new x y 1 1) None.
Proof.
  apply (X6_single_pixel_needle raw_codec
           (MatchRequest.new scenarioHaystack pixelNeedle None)
           (Image.data scenarioHaystack) (u8 200)).
  - reflexivity.
  - reflexivity.
  - cbn. lia.
  - cbn. lia.
  - reflexivity.
  - reflexivity.
Defined.

Lemma X7_witness :
  [MatchResult.new 0x1.fffffffffffffp-1%float (Region.new 0 0 2 2) None] = []
  \/ exists confidence,
      [MatchResult.new 0x1.fffffffffffffp-1%float (Region.new 0 0 2 2) None]
      = [MatchResult.new confidence (Region.new 0 0 2 2) None].
Proof.
  apply (X7_equal_size_single_candidate raw_codec
           (MatchRequest.new rampNeedle rampNeedle None)).
  - reflexivity.
  - reflexivity.
  - vm_compute. reflexivity.
Defined.

Lemma X8_witness :
  PrimFloat.eqb
    (calculateStdDev (extractRegion (Image.data rampHaystack) 3 0 0 2 2)
                     (calculateMean (extractRegion (Image.data rampHaystack) 3 0 0 2 2)))
    0%float
  = false.
Proof.
  apply (X8_flat_window_never_matches raw_codec
           (MatchRequest.new rampHaystack rampNeedle (Some 0.95%float))
           (Image.data rampHaystack) (Image.data rampNeedle)
           [MatchResult.new 0x1.fffffffffffffp-1%float (Region.new 0 0 2 2) None]
           (MatchResult.new 0x1.fffffffffffffp-1%float (Region.new 0 0 2 2) None)).
  - reflexivity.
  - reflexivity.
  - vm_compute. reflexivity.
  - vm_compute. reflexivity.
  - vm_compute. reflexivity.
  - now left.
Defined.

Lemma X10_witness :
  findMatches raw_codec (MatchRequest.new rampHaystack rampNeedle (Some 1.0%float))
  = Return (filter (fun m => PrimFloat.leb 1.0%float (MatchResult.confidence m))
                   [MatchResult.new 0x1.fffffffffffffp-1%float (Region.new 0 0 2 2) None]).
Proof.
  apply (X10_raised_threshold_is_a_filter raw_codec rampHaystack rampNeedle
           (Image.data rampHaystack) (Image.data rampNeedle) 0.95%float 1.0%float).
  - reflexivity.
  - vm_compute. reflexivity.
  - vm_compute. reflexivity.
  - vm_compute. reflexivity.
Defined.

Lemma X11_witness :
  List.length (snd (templateMatchLogged (Image.data rampHaystack) 3 2
                                        (Image.data rampNeedle) 2 2 DEFAULT_CONFIDENCE))
  = if PrimFloat.eqb (calculateStdDev (Image.data rampNeedle)
                                      (calculateMean (Image.data rampNeedle))) 0%float
    then 2
    else 2 + 2 * ((3 - 2 + 1) * (2 - 2 + 1)).
Proof.
  apply (X11_statistics_calls (Image.data rampHaystack) 3 2 (Image.data rampNeedle) 2 2
                              DEFAULT_CONFIDENCE).
  - lia.
  - lia.
Defined.

Lemma X12_witness :
  findMatch raw_codec (MatchRequest.new rampHaystack rampNeedle (Some 1.0%float))
  = Return (if PrimFloat.leb 1.0%float
                 (MatchResult.confidence
                    (MatchResult.new 0x1.fffffffffffffp-1%float (Region.new 0 0 2 2) None))
            then MatchResult.new 0x1.fffffffffffffp-1%float (Region.new 0 0 2 2) None
            else MatchResult.new 0%float (Region.new 0 0 0 0)
                                 (Some (Error "No matches found"))).
Proof.
  apply (X12_best_match_under_raised_threshold raw_codec rampHaystack rampNeedle
           (Image.data rampNeedle) 0.5%float 1.0%float).
  - reflexivity.
  - vm_compute. reflexivity.
  - vm_compute. reflexivity.
  - vm_compute. reflexivity.
  - reflexivity.
Defined.

Lemma X13_witness :
  MatchResult.new 1.0%float (Region.new 1 0 2 2) None
  = MatchResult.new 1.0%float (Region.new 0 0 2 2) None
  \/ raster_lt (Region.new 0 0 2 2) (Region.new 1 0 2 2).
Proof.
  apply (X13_ties_go_to_the_first_region raw_codec
           (MatchRequest.new flatHaystack scenarioNeedle None)
           [MatchResult.new 1.0%float (Region.new 0 0 2 2) None;
            MatchResult.new 1.0%float (Region.new 1 0 2 2) None]
           (MatchResult.new 1.0%float (Region.new 0 0 2 2) None)
           (MatchResult.new 1.0%float (Region.new 1 0 2 2) None)).
  - vm_compute. reflexivity.
  - vm_compute. reflexivity.
  - right. now left.
  - vm_compute. reflexivity.
Defined.

Lemma X14_witness :
  extractRegion (Image.data rampHaystack) 3 0 0 3 2 = Image.data rampHaystack.
Proof.
  apply (X14_extractRegion_whole_image (Image.data rampHaystack) 3 2).
  reflexivity.
Defined.

Lemma X15_witness :
  extractRegion (extractRegion (Image.data scenarioHaystack) 4 1 0 3 3) 3 0 1 2 2
  = extractRegion (Image.data scenarioHaystack) 4 (1 + 0) (0 + 1) 2 2.
Proof.
  apply (X15_extractRegion_composes (Image.data scenarioHaystack) 4 1 0 3 3 0 1 2 2).
  - lia.
  - lia.
Defined.

Lemma X16_witness :
  findMatches raw_codec (MatchRequest.new rampHaystack rampNeedle (Some nan)) = Return []
  /\ findMatch raw_codec (MatchRequest.new rampHaystack rampNeedle (Some nan))
     = Return (MatchResult.new 0%float (Region.new 0 0 0 0)
                 (Some (Error "No matches found"))).
Proof.
  apply (X16_nan_threshold_matches_nothing raw_codec rampHaystack rampNeedle
           (Image.data rampHaystack) (Image.data rampNeedle) nan).
  - cbn. lia.
  - cbn. lia.
  - reflexivity.
  - reflexivity.
  - vm_compute. reflexivity.
  - reflexivity.
Defined.

Lemma X17_witness :
  In (MatchResult.new 1.0%float (Region.new 0 1 2 2) None)
     (templateMatch (extractRegion (Image.data scenarioHaystack) 4 1 0 3 3) 3 3
                    (Image.data scenarioNeedle) 2 2 DEFAULT_CONFIDENCE)
  <-> 0 + 2 <= 3
      /\ 1 + 2 <= 3
      /\ In (MatchResult.new 1.0%float (Region.new (1 + 0) (0 + 1) 2 2) None)
            (templateMatch (Image.data scenarioHaystack) 4 4
                           (Image.data scenarioNeedle) 2 2 DEFAULT_CONFIDENCE).
Proof.
  apply (X17_matches_in_a_crop (Image.data scenarioHaystack) 4 4 1 0 3 3
           (Image.data scenarioNeedle) 2 2 DEFAULT_CONFIDENCE 0 1 1.0%float).
  - lia.
  - lia.
  - reflexivity.
Defined.

Lemma X18_witness :
  is_number (calculateMean (Image.data scenarioNeedle))
  /\ (PrimFloat.eqb (calculateStdDev (Image.data scenarioNeedle)
                                     (calculateMean (Image.data scenarioNeedle)))
                    0%float = true ->
      uniformNeedle (Image.data scenarioNeedle)
      /\ forall a b,
          In a (Image.data scenarioNeedle) -> In b (Image.data scenarioNeedle) -> a = b)
  /\ (PrimFloat.eqb (calculateStdDev (Image.data scenarioNeedle)
                                     (calculateMean (Image.data scenarioNeedle)))
                    0%float = false ->
      normalVariance (Image.data scenarioNeedle)).
Proof.
  apply (X18_zero_deviation_means_uniform (Image.data scenarioNeedle)).
  cbn. lia.
Defined.
